(** * pdfgrep: an OCR index of PDF documents and its linear search

    A shallow embedding of [pdfgrep.py].  The class [PDFGrep] keeps a
    dictionary from document path to a record (mtime, fsize, pages), fills
    it by forking workers that publish one staging file per document, and
    searches it line by line.

    Conventions of the embedding:
    - a Python [str] is a Rocq [string]; the only operation of the program
      that depends on the character repertoire is [str.lower], which is a
      parameter of the search engine;
    - a Python [dict] is a [gmap]; the program never relies on the
      insertion order of a dictionary except for the order of diagnostics;
    - Python integers are [Z] (or [nat] for counters that start at 0 and
      only grow);
    - calls that can raise return an [option] or a dedicated result type. *)

From Stdlib Require Import ZArith QArith Lia.
From Stdlib Require Import Ascii.
From Stdlib Require String.
From stdpp Require Import base gmap strings list fin_maps sorting pretty.

Local Open Scope Z_scope.

(* ===================================================================== *)
(** * Python strings                                                       *)
(* ===================================================================== *)

Module PyStr.

(** The line feed, the separator of [page.split("\n")]. *)
Definition LF : ascii := "010"%char.

(** [' '.join(l)] and friends. *)
Fixpoint join (sep : string) (l : list string) : string :=
  match l with
  | [] => ""
  | [x] => x
  | x :: rest => x +:+ sep +:+ join sep rest
  end.

(** [s.split("\n")]: never empty, the pieces contain no line feed. *)
Fixpoint split_lf (s : string) : list string :=
  match s with
  | "" => [""]
  | String c t =>
      if decide (c = LF) then "" :: split_lf t
      else match split_lf t with
           | l :: ls => String c l :: ls
           | [] => [String c ""]
           end
  end.

(** [s.startswith(p)] *)
Fixpoint startswith (p s : string) : bool :=
  match p, s with
  | "", _ => true
  | String a p', String b s' => if decide (a = b) then startswith p' s' else false
  | String _ _, "" => false
  end.

(** [needle in hay] on strings: [needle] occurs at some offset. *)
Fixpoint contains (needle hay : string) : bool :=
  startswith needle hay ||
  match hay with
  | "" => false
  | String _ t => contains needle t
  end.

(** [s[0:n]] *)
Fixpoint take (n : nat) (s : string) : string :=
  match n, s with
  | O, _ => ""
  | S n', String c t => String c (take n' t)
  | S _, "" => ""
  end.

(** [s[n:]] *)
Fixpoint drop (n : nat) (s : string) : string :=
  match n, s with
  | O, _ => s
  | S n', String _ t => drop n' t
  | S _, "" => ""
  end.

(** [s.isdigit()] restricted to the ASCII digits: at least one character,
    all of them digits. *)
Definition is_digit_char (c : ascii) : bool :=
  match Ascii.is_nat c with Some _ => true | None => false end.

Fixpoint all_digits (s : string) : bool :=
  match s with
  | "" => true
  | String c t => is_digit_char c && all_digits t
  end.

Definition isdigit (s : string) : bool :=
  match s with
  | "" => false
  | _ => all_digits s
  end.

(** The lower-casing of the ASCII letters; it agrees with [str.lower] on
    ASCII text. *)
Definition ascii_lower_char (c : ascii) : ascii :=
  let n := nat_of_ascii c in
  if (65 <=? n)%nat && (n <=? 90)%nat then ascii_of_nat (n + 32) else c.

Fixpoint ascii_lower (s : string) : string :=
  match s with
  | "" => ""
  | String c t => String (ascii_lower_char c) (ascii_lower t)
  end.

End PyStr.

(* ===================================================================== *)
(** * Data model                                                           *)
(* ===================================================================== *)

(** A value of [self.database]: the fingerprint of the file at the time it
    was read and one text per page. *)
Record doc_record := DocRecord {
  mtime : Z;
  fsize : Z;
  pages : list string
}.

(** An element of a worker's batch: [{'path': .., 'mtime': .., 'fsize': ..}]. *)
Record work_item := WorkItem {
  item_path : string;
  item_mtime : Z;
  item_fsize : Z
}.

(** The object a worker serialises into a staging file. *)
Record staging_obj := StagingObj {
  obj_path : string;
  obj_mtime : Z;
  obj_fsize : Z;
  obj_pages : list string
}.

Global Instance doc_record_eq_dec : EqDecision doc_record.
Proof. solve_decision. Defined.
Global Instance work_item_eq_dec : EqDecision work_item.
Proof. solve_decision. Defined.
Global Instance staging_obj_eq_dec : EqDecision staging_obj.
Proof. solve_decision. Defined.

(** [self.database], keyed by absolute path. *)
Abbreviation database := (gmap string doc_record).

(* ===================================================================== *)
(** * Search engine ([PDFGrep.search])                                     *)
(* ===================================================================== *)

(** What one [print] of [search] shows: path, [pagen+1], [i], the line. *)
Record hit := Hit {
  hit_path : string;
  hit_page : nat;
  hit_line : nat;
  hit_text : string
}.

Global Instance hit_eq_dec : EqDecision hit.
Proof. solve_decision. Defined.


(** [sorted(self.database)]: the keys in the order of [str.__lt__]. *)
Definition sorted_keys {V} (db : gmap string V) : list string :=
  merge_sort String.le (elements (dom db)).

Section SearchEngine.

(** [str.lower], Python's Unicode lower-casing. *)
Variable lower : string → string.

(** [search_string.lower() in line.lower()] *)
Definition line_matches (search_string line : string) : bool :=
  PyStr.contains (lower search_string) (lower line).

(** The innermost loop, with its counter [i]. *)
Fixpoint search_lines (search_string path : string) (pagen : nat)
    (lines : list string) (i : nat) : list hit :=
  match lines with
  | [] => []
  | line :: rest =>
      let out := if line_matches search_string line
                 then [Hit path (pagen + 1) i line] else [] in
      out ++ search_lines search_string path pagen rest (i + 1)
  end.

(** The loop over the pages of one document, with its counter [pagen]. *)
Fixpoint search_pages (search_string path : string) (pgs : list string)
    (pagen : nat) : list hit :=
  match pgs with
  | [] => []
  | page :: rest =>
      search_lines search_string path pagen (PyStr.split_lf page) 0
        ++ search_pages search_string path rest (pagen + 1)
  end.

(** The loop over the documents. *)
Fixpoint search_docs (db : database) (search_string : string)
    (paths : list string) : list hit :=
  match paths with
  | [] => []
  | path :: rest =>
      match db !! path with
      | Some r => search_pages search_string path (pages r) 0
      | None => []
      end ++ search_docs db search_string rest
  end.

(** [search(self, search_string)]: the hits in the order they are printed. *)
Definition search (db : database) (search_string : list string) : list hit :=
  let search_string := PyStr.join " " search_string in
  search_docs db search_string (sorted_keys db).


End SearchEngine.




(** The database of the search example. *)
Definition example_db : database :=
  {[ "/a.pdf" := DocRecord 1700000000 1234 ["Hello World" +:+ String PyStr.LF "Foo"] ]}.

(* ===================================================================== *)
(** * Workload partitioner ([PDFGrep.build_workload])                      *)
(* ===================================================================== *)

(** What [os.stat(path)] gives: [st_mtime] is a float, [st_size] an int. *)
Record stat_result := StatResult {
  st_mtime : Q;
  st_size : Z
}.

(** The files that [os.stat] can read, with their metadata; [os.stat]
    raises on every other path. *)
Abbreviation filesystem := (gmap string stat_result).

(** [int(x)] on a float: truncation toward zero. *)
Definition py_int (x : Q) : Z := Z.quot (Qnum x) (Zpos (Qden x)).

(** [workload], a dict from [thread_id] to a list of items. *)
Abbreviation workload_map := (gmap nat (list work_item)).

(** The local variables of [build_workload] that the loop updates. *)
Record bw_state := BwState {
  bw_thread_id : nat;
  bw_workload : workload_map;
  bw_total_todo : nat
}.

(** [path in self.database and self.database[path]['mtime'] == mtime and
    self.database[path]['fsize'] == fsize] *)
Definition unchanged (db : database) (path : string) (m sz : Z) : bool :=
  match db !! path with
  | Some r => bool_decide (mtime r = m) && bool_decide (fsize r = sz)
  | None => false
  end.

(** [threads = int(...) / 2]: the true division of Python 3, a float. *)
Definition threads_of (ncpu : Z) : Q := inject_Z ncpu / 2.

(** One iteration of [for path in pdf_files]; [None] when [os.stat] raises. *)
Definition build_workload_body (fs : filesystem) (db : database) (threads : Q)
    (st : bw_state) (path : string) : option bw_state :=
  match fs !! path with
  | None => None
  | Some s =>
      let mtime := py_int (st_mtime s) in
      let fsize := st_size s in
      if unchanged db path mtime fsize then Some st
      else
        let thread_id := bw_thread_id st in
        let workload := bw_workload st in
        let workload :=
          match workload !! thread_id with
          | None => <[thread_id := []]> workload
          | Some _ => workload
          end in
        let workload :=
          <[thread_id := default [] (workload !! thread_id)
                           ++ [WorkItem path mtime fsize]]> workload in
        let thread_id := (thread_id + 1)%nat in
        let total_todo := (bw_total_todo st + 1)%nat in
        let thread_id :=
          if Qle_bool threads (inject_Z (Z.of_nat thread_id)) then 0%nat
          else thread_id in
        Some (BwState thread_id workload total_todo)
  end.

Fixpoint build_workload_loop (fs : filesystem) (db : database) (threads : Q)
    (pdf_files : list string) (st : bw_state) : option bw_state :=
  match pdf_files with
  | [] => Some st
  | path :: rest =>
      match build_workload_body fs db threads st path with
      | None => None
      | Some st' => build_workload_loop fs db threads rest st'
      end
  end.

(** [build_workload(self, pdf_files)], given the number [ncpu] that
    [sysctl -n hw.ncpu] printed. *)
Definition build_workload (fs : filesystem) (db : database) (ncpu : Z)
    (pdf_files : list string) : option (workload_map * nat) :=
  let threads := threads_of ncpu in
  match build_workload_loop fs db threads pdf_files (BwState 0 ∅ 0) with
  | None => None
  | Some st => Some (bw_workload st, bw_total_todo st)
  end.

(** ** Vocabulary of the partition claims *)

(** The item found in slot [t] at position [j]. *)
Definition slot_at (wl : workload_map) (t j : nat) : option work_item :=
  match wl !! t with
  | Some items => items !! j
  | None => None
  end.

(** An item is assigned when it sits somewhere in some slot. *)
Definition assigned (wl : workload_map) (it : work_item) : Prop :=
  ∃ t j, slot_at wl t j = Some it.

(** The snapshot taken of a candidate, when the file can be read. *)
Definition snapshot (fs : filesystem) (path : string) : option work_item :=
  match fs !! path with
  | Some s => Some (WorkItem path (py_int (st_mtime s)) (st_size s))
  | None => None
  end.

(** The candidates whose fingerprint is absent from the database or differs
    from the stored one, in the order of the candidate list. *)
Fixpoint outstanding (fs : filesystem) (db : database)
    (pdf_files : list string) : list work_item :=
  match pdf_files with
  | [] => []
  | path :: rest =>
      match snapshot fs path with
      | Some it =>
          if unchanged db path (item_mtime it) (item_fsize it)
          then outstanding fs db rest
          else it :: outstanding fs db rest
      | None => outstanding fs db rest
      end
  end.

(** Round-robin over [W] slots: the [k]-th outstanding item sits in slot
    [k mod W] at position [k / W], and the slots hold nothing else. *)
Definition round_robin (W : nat) (out : list work_item) (wl : workload_map)
    : Prop :=
  ∀ t j, slot_at wl t j
         = if decide (t < W)%nat then out !! (j * W + t)%nat else None.

(** No item sits at two slot positions. *)
Definition no_item_twice (wl : workload_map) : Prop :=
  ∀ t1 j1 t2 j2 it,
    slot_at wl t1 j1 = Some it → slot_at wl t2 j2 = Some it →
    t1 = t2 ∧ j1 = j2.

(** The number of slots the code cycles through. *)
Definition slots (ncpu : Z) : nat := Z.to_nat (Z.max 1 ((ncpu + 1) / 2)).

(** The number of slots the specification announces. *)
Definition slots_spec (ncpu : Z) : nat := Z.to_nat (Z.max 1 (ncpu / 2)).

(** The number of items over all slots. *)
Definition assigned_count (wl : workload_map) : nat :=
  map_fold (λ _ items n, (length items + n)%nat) 0%nat wl.


(** What the loop of [build_workload] maintains, once it has met the
    outstanding items [out]. *)
Definition bw_inv (W : nat) (out : list work_item) (st : bw_state) : Prop :=
  bw_thread_id st = (length out mod W)%nat ∧
  bw_total_todo st = length out ∧
  round_robin W out (bw_workload st).


(** ** The partition claims as the specification words them *)

(** The specification's partition completeness: the slots hold exactly the
    outstanding candidates, no item at two slot positions, dealt
    round-robin, and counted by the returned total. *)
Definition partition_claim (fs : filesystem) (db : database) (ncpu : Z)
    (pdf_files : list string) : Prop :=
  ∀ wl total,
    build_workload fs db ncpu pdf_files = Some (wl, total) →
    (∀ it, assigned wl it ↔ it ∈ outstanding fs db pdf_files) ∧
    no_item_twice wl ∧
    (∃ W, round_robin W (outstanding fs db pdf_files) wl) ∧
    total = assigned_count wl.

(** The specification's slot count: the deal is round-robin over
    [max(1, floor(ncpu / 2))] slots. *)
Definition slot_count_claim (fs : filesystem) (db : database) (ncpu : Z)
    (pdf_files : list string) : Prop :=
  ∀ wl total,
    build_workload fs db ncpu pdf_files = Some (wl, total) →
    round_robin (slots_spec ncpu) (outstanding fs db pdf_files) wl.

(** ** Example inputs *)

(** Three files on disk. *)
Definition example_fs : filesystem :=
  {[ "/docs/a.pdf" := StatResult (17000000005 # 10) 100;
     "/docs/b.pdf" := StatResult 1700000100 200;
     "/docs/c.pdf" := StatResult 1700000200 300 ]}.

(** A database that knows "/docs/a.pdf" as it is on disk and "/docs/b.pdf"
    with an older modification time. *)
Definition example_index : database :=
  {[ "/docs/a.pdf" := DocRecord 1700000000 100 ["alpha"];
     "/docs/b.pdf" := DocRecord 1600000000 200 ["beta"] ]}.


(* ===================================================================== *)
(** * The coordinator's own state and the database file                    *)
(* ===================================================================== *)

(** What the program prints.  A status line of the polling loop is kept as
    the numbers it shows rather than as formatted text. *)
Inductive printed :=
  | Text (line : string)
  | Progress (done total : nat) (percent per_minute time_remaining : Q).

(** The part of [self] the coordinator works on, with the file
    [database.db]: [co_db_file] lists the contents the file has had, the
    latest first. *)
Record coord := Coord {
  co_database : database;
  co_db_file : list database;
  co_pdfs_done : nat
}.

(** [save(self)]: the whole dictionary is written to [database.db.new],
    which is then renamed over [database.db]. *)
Definition save (c : coord) : coord :=
  Coord (co_database c) (co_database c :: co_db_file c) (co_pdfs_done c).

(** The keys of a dictionary in the order of a [for] loop over it.  Python
    iterates in insertion order; the order only shows in the order of the
    diagnostics of [cleanup]. *)
Definition dict_keys {V} (d : gmap string V) : list string :=
  (map_to_list d).*1.

(* ===================================================================== *)
(** * Reconciler ([PDFGrep.cleanup], [PDFGrep.path_in_paths])              *)
(* ===================================================================== *)

(** [path_in_paths(self, path, path_list)] *)
Fixpoint path_in_paths (path : string) (path_list : list string) : bool :=
  match path_list with
  | [] => false
  | item :: rest =>
      if decide (PyStr.take (String.length item) path = item) then true
      else path_in_paths path rest
  end.

(** The first loop of [cleanup]: the paths to remove and what is printed. *)
Fixpoint cleanup_scan (paths_to_index pdf_files paths_to_ignore : list string)
    (keys : list string) : list string * list printed :=
  match keys with
  | [] => ([], [])
  | path :: rest =>
      let '(to_remove, out) :=
        cleanup_scan paths_to_index pdf_files paths_to_ignore rest in
      if negb (path_in_paths path paths_to_index) then (to_remove, out)
      else if bool_decide (path ∉ pdf_files) then
        (path :: to_remove, Text ("cleanup, file deleted: " +:+ path) :: out)
      else if path_in_paths path paths_to_ignore then
        (path :: to_remove, Text ("cleanup, path ignored: " +:+ path) :: out)
      else (to_remove, out)
  end.

(** The second loop: [self.database.pop(path)] raises on a missing key. *)
Fixpoint pop_all (to_remove : list string) (db : database) : option database :=
  match to_remove with
  | [] => Some db
  | path :: rest =>
      match db !! path with
      | Some _ => pop_all rest (delete path db)
      | None => None
      end
  end.

(** [cleanup(self, paths_to_index, pdf_files, paths_to_ignore)] *)
Definition cleanup (paths_to_index pdf_files paths_to_ignore : list string)
    (c : coord) : option (coord * list printed) :=
  let '(to_remove, out) :=
    cleanup_scan paths_to_index pdf_files paths_to_ignore
      (dict_keys (co_database c)) in
  match pop_all to_remove (co_database c) with
  | Some db => Some (save (Coord db (co_db_file c) (co_pdfs_done c)), out)
  | None => None
  end.

(** The test of [path_in_paths] in words: one of the strings of the list
    starts the path.  It compares characters only: "/docs" starts
    "/docs2/x.pdf" as well as "/docs/a.pdf". *)
Definition has_prefix_in (prefixes : list string) (path : string) : Prop :=
  ∃ item rest, item ∈ prefixes ∧ path = item +:+ rest.

(** What [cleanup] drops. *)
Definition stale (paths_to_index pdf_files paths_to_ignore : list string)
    (path : string) : Prop :=
  has_prefix_in paths_to_index path ∧
  (path ∉ pdf_files ∨ has_prefix_in paths_to_ignore path).

(** ** The cleanup claim as the specification words it *)







(* ===================================================================== *)
(** * External collaborators                                               *)
(* ===================================================================== *)

(** What [convert_from_path(path)] of pdf2image does: it returns the page
    images, raises [PDFPageCountError] (password-protected or unreadable
    document), or raises something else. *)
Inductive convert_result (image : Type) :=
  | Converted (doc : list image)
  | PDFPageCountError (msg : string)
  | ConvertRaised.
Global Arguments Converted {image} doc.
Global Arguments PDFPageCountError {image} msg.
Global Arguments ConvertRaised {image}.

(** The libraries the worker and the coordinator call: pdf2image,
    pytesseract ([None] when it raises) and json ([None] when [json.loads]
    raises). *)
Class Collaborators := {
  image : Type;
  convert_from_path : string → convert_result image;
  image_to_string : image → option string;
  json_dumps : staging_obj → string;
  json_loads : string → option staging_obj
}.

(* ===================================================================== *)
(** * Workers and coordinator as one system                                *)
(* ===================================================================== *)

(** Where a worker stands in [workload_thread]. *)
Inductive worker_pc :=
  | AtItem                      (* at the head of [for item in workload] *)
  | Writing (pending : string)  (* [item_file] is open; [pending] has not
                                   reached the file yet *)
  | Exited                      (* the loop is over, [sys.exit()] *)
  | Died.                       (* an exception nobody catches *)

(** A forked child: the items it still has to do (the current one first),
    its counter [i], and where it stands. *)
Record worker := Worker {
  w_todo : list work_item;
  w_i : nat;
  w_pc : worker_pc
}.

(** The processes and what they share.  [sys_files] holds the staging
    files, keyed by the worker's directory [tmppath/<thread_id>] and the
    file name; the directories themselves are left out: [tmppath] is a
    fresh [mkdtemp], each worker makes its own directory before anything
    else, and a listing of a missing directory is as empty as that of an
    empty one.  [sys_workers] is the table of the children not yet reaped.
    The last three fields only record what happened: the number of calls to
    [convert_from_path] and [image_to_string], and the contents the
    coordinator has read from staging files, the latest first. *)
Record system := System {
  sys_files : gmap (nat * string) string;
  sys_workers : gmap nat worker;
  sys_stdout : list printed;
  sys_coord : coord;
  sys_converts : nat;
  sys_ocr_calls : nat;
  sys_read : list string
}.

(** ['%d.tmp' % (i)] and ['%d' % (i)] *)
Definition tmp_name (i : nat) : string := pretty i +:+ ".tmp".
Definition final_name (i : nat) : string := pretty i.

Definition staged (item : work_item) (text : list string) : staging_obj :=
  StagingObj (item_path item) (item_mtime item) (item_fsize item) text.

Section Pipeline.

Context `{Collaborators}.

(** [for page_number, page_data in enumerate(doc)]: what is printed, and
    the texts unless [image_to_string] raises. *)
Fixpoint ocr_pages (path : string) (doc : list image) (page_number : nat)
    : list printed * option (list string) :=
  match doc with
  | [] => ([], Some [])
  | page_data :: rest =>
      let line := Text ("indexing: " +:+ path +:+ " page "
                          +:+ pretty (page_number + 1)%nat +:+ " ...") in
      match image_to_string page_data with
      | None => ([line], None)
      | Some txt =>
          let '(out, text) := ocr_pages path rest (page_number + 1)%nat in
          (line :: out, (txt ::.) <$> text)
      end
  end.

(** The diagnostic of the [except PDFPageCountError] branch. *)
Definition cannot_index (path msg : string) : printed :=
  if PyStr.contains "Incorrect password" msg
  then Text ("cannot index: " +:+ path +:+ " - password protected")
  else Text ("cannot index: " +:+ path +:+ " - " +:+ msg).

Definition set_worker (t : nat) (w : worker) (s : system) : system :=
  System (sys_files s) (<[t := w]> (sys_workers s)) (sys_stdout s)
    (sys_coord s) (sys_converts s) (sys_ocr_calls s) (sys_read s).

Definition set_files (files : gmap (nat * string) string) (s : system)
    : system :=
  System files (sys_workers s) (sys_stdout s) (sys_coord s)
    (sys_converts s) (sys_ocr_calls s) (sys_read s).

Definition print (out : list printed) (s : system) : system :=
  System (sys_files s) (sys_workers s) (sys_stdout s ++ out) (sys_coord s)
    (sys_converts s) (sys_ocr_calls s) (sys_read s).

Definition count_calls (converts ocr_calls : nat) (s : system) : system :=
  System (sys_files s) (sys_workers s) (sys_stdout s) (sys_coord s)
    (sys_converts s + converts)%nat (sys_ocr_calls s + ocr_calls)%nat
    (sys_read s).

(** The next step of worker [t] in [workload_thread].  From the head of
    the loop one step runs the conversion and the OCR of the next item
    and, when both succeed, opens [item_file] for writing, which creates
    it empty.  While the file is open, a step lets some more of the
    serialised object reach the file ([chunk + 1] characters); once all
    of it is there the file is closed and the next step is the
    [os.rename].  No step for a worker that is gone. *)
Definition worker_step (t chunk : nat) (s : system) : option system :=
  match sys_workers s !! t with
  | None => None
  | Some w =>
      match w_pc w with
      | Exited | Died => None
      | AtItem =>
          match w_todo w with
          | [] => Some (set_worker t (Worker [] (w_i w) Exited) s)
          | item :: rest =>
              match convert_from_path (item_path item) with
              | PDFPageCountError msg =>
                  Some (set_worker t (Worker rest (w_i w) AtItem)
                          (print [cannot_index (item_path item) msg]
                             (count_calls 1 0 s)))
              | ConvertRaised =>
                  Some (set_worker t (Worker (item :: rest) (w_i w) Died)
                          (count_calls 1 0 s))
              | Converted doc =>
                  let '(out, text) := ocr_pages (item_path item) doc 0 in
                  let s := print out (count_calls 1 (length out) s) in
                  match text with
                  | None =>
                      Some (set_worker t (Worker (item :: rest) (w_i w) Died) s)
                  | Some text =>
                      Some (set_worker t
                              (Worker (item :: rest) (w_i w)
                                 (Writing (json_dumps (staged item text))))
                              (set_files
                                 (<[(t, tmp_name (w_i w)) := ""]> (sys_files s))
                                 s))
                  end
              end
          end
      | Writing pending =>
          match pending with
          | "" =>
              match sys_files s !! (t, tmp_name (w_i w)) with
              | None => Some (set_worker t (Worker (w_todo w) (w_i w) Died) s)
              | Some content =>
                  Some (set_worker t
                          (Worker (tail (w_todo w)) (w_i w + 1)%nat AtItem)
                          (set_files
                             (<[(t, final_name (w_i w)) := content]>
                                (delete (t, tmp_name (w_i w)) (sys_files s)))
                             s))
              end
          | _ =>
              Some (set_worker t
                      (Worker (w_todo w) (w_i w)
                         (Writing (PyStr.drop (S chunk) pending)))
                      (set_files
                         (alter (λ content,
                                   content +:+ PyStr.take (S chunk) pending)
                            (t, tmp_name (w_i w)) (sys_files s))
                         s))
          end
      end
  end.

(** The body of the loop of [process_results] for the file [name] of the
    directory of slot [t]: nothing when the file is not there (it was not
    listed), nothing to do when the name is not a number; [inr] when
    [json.loads] raises. *)
Definition merge_file (t : nat) (name : string) (s : system)
    : option (system + unit) :=
  match sys_files s !! (t, name) with
  | None => None
  | Some content =>
      if PyStr.isdigit name then
        (match json_loads content with
        | None => Some (inr ())
        | Some obj =>
            let c := sys_coord s in
            let database :=
              <[obj_path obj :=
                  DocRecord (obj_mtime obj) (obj_fsize obj) (obj_pages obj)]>
                (co_database c) in
            let c := save (Coord database (co_db_file c) (co_pdfs_done c)) in
            let c := Coord (co_database c) (co_db_file c)
                       (co_pdfs_done c + 1)%nat in
            Some (inl (System (delete (t, name) (sys_files s))
                         (sys_workers s) (sys_stdout s) c
                         (sys_converts s) (sys_ocr_calls s)
                         (content :: sys_read s)))
         end)
      else Some (inl s)
  end.

(** The loop of [process_results] over the listing that [glob.glob] gave. *)
Fixpoint process_listing (t : nat) (names : list string) (s : system)
    : system + unit :=
  match names with
  | [] => inl s
  | name :: rest =>
      match merge_file t name s with
      | None => process_listing t rest s
      | Some (inl s') => process_listing t rest s'
      | Some (inr e) => inr e
      end
  end.

(** [glob.glob('%s/%d/*' % (self.tmppath, thread_id))]: the names in the
    directory of slot [t].  The order of a directory listing is up to the
    file system. *)
Definition glob_dir (files : gmap (nat * string) string) (t : nat)
    : list string :=
  omap (λ '((t', name), _), if decide (t' = t) then Some name else None)
    (map_to_list files).

(** [process_results(self, thread_id)] *)
Definition process_results (thread_id : nat) (s : system) : system + unit :=
  process_listing thread_id (glob_dir (sys_files s) thread_id) s.

(** ** Interleavings *)

(** What can happen next: a worker takes a step, or the coordinator runs
    the body of the loop of [process_results] on one file. *)
Inductive action :=
  | WorkerStep (t chunk : nat)
  | MergeFile (t : nat) (name : string).

Definition step (a : action) (s : system) : option system :=
  match a with
  | WorkerStep t chunk => worker_step t chunk s
  | MergeFile t name =>
      match merge_file t name s with
      | Some (inl s') => Some s'
      | _ => None
      end
  end.

Fixpoint run (acts : list action) (s : system) : option system :=
  match acts with
  | [] => Some s
  | a :: rest =>
      match step a s with
      | Some s' => run rest s'
      | None => None
      end
  end.

Definition reachable (s0 s : system) : Prop := ∃ acts, run acts s0 = Some s.

(** The children right after the forks of [index]: one per key of
    [workload], at the head of its loop, the staging area empty, and
    [self.pdfs_done = 0]. *)
Definition spawn (workload : workload_map) (c : coord) : system :=
  System ∅ ((λ items, Worker items 0 AtItem) <$> workload) []
    (Coord (co_database c) (co_db_file c) 0) 0 0 [].

(** ** The polling loop of [index] *)

(** [os.waitpid(pid, 1)]: the child still runs, or it has ended and is
    reaped now, or there is no such child any more
    ([ChildProcessError]). *)
Inductive wait_result := StillRunning | Reaped | NoChild.

Definition waitpid (t : nat) (s : system) : wait_result * system :=
  match sys_workers s !! t with
  | None => (NoChild, s)
  | Some w =>
      match w_pc w with
      | Exited | Died =>
          (Reaped,
           System (sys_files s) (delete t (sys_workers s)) (sys_stdout s)
             (sys_coord s) (sys_converts s) (sys_ocr_calls s) (sys_read s))
      | _ => (StillRunning, s)
      end
  end.

(** The steps the workers take while the coordinator is busy elsewhere;
    a step of a worker that is gone is no step. *)
Definition run_workers (steps : list (nat * nat)) (s : system) : system :=
  foldl (λ s '(t, chunk), default s (worker_step t chunk s)) s steps.

(** [for thread_id in self.pids], with [threads_complete]; [sched] lists,
    for each turn of the loop, the worker steps taken since the previous
    turn.  [None] when [process_results] raises. *)
Fixpoint poll_pids (pids : list nat) (sched : list (list (nat * nat)))
    (s : system) (threads_complete : bool)
    : option (system * list (list (nat * nat)) * bool) :=
  match pids with
  | [] => Some (s, sched, threads_complete)
  | thread_id :: rest =>
      let s := run_workers (hd [] sched) s in
      let sched := tail sched in
      match waitpid thread_id s with
      | (NoChild, s) => poll_pids rest sched s threads_complete
      | (status, s) =>
          let threads_complete :=
            match status with
            | StillRunning => false
            | _ => threads_complete
            end in
          match process_results thread_id s with
          | inr _ => None
          | inl s => poll_pids rest sched s threads_complete
          end
      end
  end.

(** The two divisions of the loop whose divisor is not a constant:
    [self.pdfs_done / (total_todo / 100)] and [60 / per_item]. *)
Inductive div_site := PercentDone | PerMinute.

(** How the loop of [index] ends. *)
Inductive loop_outcome :=
  | Finished (s : system)
  | ZeroDivisionError (site : div_site) (s : system)
  | CoordinatorRaised
  | OutOfFuel (s : system).

(** [a / b] on floats, which raises when [b] is zero.  Floats are taken
    as rationals. *)
Definition py_truediv (a b : Q) : option Q :=
  if Qeq_bool b 0 then None else Some (a / b)%Q.

Definition nat_to_Q (n : nat) : Q := inject_Z (Z.of_nat n).

(** [while 1: ...] of [index]; [clock] gives [time.time() - start] at
    each tick. *)
Fixpoint index_loop (fuel : nat) (pids : list nat) (total_todo : nat)
    (clock : list Q) (sched : list (list (nat * nat))) (last_done : nat)
    (s : system) : loop_outcome :=
  match fuel with
  | O => OutOfFuel s
  | S fuel =>
      match poll_pids pids sched s true with
      | None => CoordinatorRaised
      | Some (s, sched, threads_complete) =>
          if threads_complete then Finished s
          else
            let elapsed := hd 0%Q clock in
            let pdfs_done := co_pdfs_done (sys_coord s) in
            let per_item :=
              if (0 <? pdfs_done)%nat then (elapsed / nat_to_Q pdfs_done)%Q
              else 0%Q in
            let time_remaining :=
              (per_item * (nat_to_Q total_todo - nat_to_Q pdfs_done))%Q in
            match py_truediv (nat_to_Q pdfs_done)
                    (nat_to_Q total_todo / 100)%Q with
            | None => ZeroDivisionError PercentDone s
            | Some percent_done =>
                if (last_done <? pdfs_done)%nat then
                  match py_truediv 60 per_item with
                  | None => ZeroDivisionError PerMinute s
                  | Some per_minute =>
                      index_loop fuel pids total_todo (tail clock) sched
                        pdfs_done
                        (print [Progress pdfs_done total_todo percent_done
                                  per_minute time_remaining] s)
                  end
                else
                  index_loop fuel pids total_todo (tail clock) sched
                    pdfs_done s
            end
      end
  end.

(** The keys of [self.pids], in the order the forks filled it. *)
Definition pids_of (workload : workload_map) : list nat :=
  merge_sort le (elements (dom workload)).

(** How [index] ends. *)
Inductive index_outcome :=
  | IndexDone (s : system)
  | IndexZeroDivision
  | IndexRaised
  | IndexOutOfFuel.

(** [index(self, paths_to_index, paths_to_ignore, cleanup)] from the point
    where [pdf_files] has been collected. *)
Definition index (fs : filesystem) (ncpu : Z)
    (paths_to_index pdf_files paths_to_ignore : list string)
    (do_cleanup : bool) (clock : list Q) (sched : list (list (nat * nat)))
    (fuel : nat) (c : coord) : index_outcome :=
  match build_workload fs (co_database c) ncpu pdf_files with
  | None => IndexRaised
  | Some (workload, total_todo) =>
      match index_loop fuel (pids_of workload) total_todo clock sched 0
              (spawn workload c) with
      | Finished s =>
          if do_cleanup then
            match cleanup paths_to_index pdf_files paths_to_ignore
                    (sys_coord s) with
            | Some (c', out) =>
                IndexDone (System (sys_files s) (sys_workers s)
                             (sys_stdout s ++ out) c' (sys_converts s)
                             (sys_ocr_calls s) (sys_read s))
            | None => IndexRaised
            end
          else IndexDone s
      | ZeroDivisionError _ _ => IndexZeroDivision
      | CoordinatorRaised => IndexRaised
      | OutOfFuel _ => IndexOutOfFuel
      end
  end.

End Pipeline.

(** ** Example collaborators *)

(** A serialisation that can be run: the object as a string of binary
    digits.  It stands in for [json] where a run of the model needs one;
    like [json] on objects of this shape, it is read back as written. *)
Fixpoint pos_to_bits (p : positive) : string :=
  match p with
  | xH => ""
  | xO p => String "0" (pos_to_bits p)
  | xI p => String "1" (pos_to_bits p)
  end.

Fixpoint bits_to_pos (s : string) : positive :=
  match s with
  | "" => xH
  | String c s =>
      if decide (c = "1"%char) then xI (bits_to_pos s) else xO (bits_to_pos s)
  end.

Definition bits_dumps (obj : staging_obj) : string :=
  pos_to_bits
    (encode (obj_path obj, obj_mtime obj, obj_fsize obj, obj_pages obj)).

Definition bits_loads (s : string) : option staging_obj :=
  (λ '(path, m, sz, pgs), StagingObj path m sz pgs) <$> decode (bits_to_pos s).

(** Page images are given by the text they show; "/docs/a.pdf" has one
    page, "/docs/c.pdf" two, "/docs/b.pdf" asks for a password and nothing
    else can be opened. *)
Definition example_collaborators : Collaborators := {|
  image := string;
  convert_from_path path :=
    if decide (path = "/docs/a.pdf")
    then Converted ["Hello World" +:+ String PyStr.LF "Foo"]
    else if decide (path = "/docs/c.pdf") then Converted ["one"; "two"]
    else if decide (path = "/docs/b.pdf")
    then PDFPageCountError "Unable to get page count. Incorrect password"
    else PDFPageCountError "Unable to get page count.";
  image_to_string img := Some img;
  json_dumps := bits_dumps;
  json_loads := bits_loads
|}.

(** Two slots: "/docs/b.pdf" then "/docs/a.pdf" for slot 0, "/docs/c.pdf"
    for slot 1. *)
Definition example_workload : workload_map :=
  {[ 0%nat := [WorkItem "/docs/b.pdf" 1700000100 200;
               WorkItem "/docs/a.pdf" 1700000000 100];
     1%nat := [WorkItem "/docs/c.pdf" 1700000200 300] ]}.

Definition example_coord : coord := Coord example_index [example_index] 0.


(** ** Vocabulary of the staging protocol *)

Section StagingVocabulary.

Context `{Collaborators}.

(** The texts of all pages, when every call of [image_to_string]
    returns. *)
Definition ocr_texts (doc : list image) : option (list string) :=
  mapM image_to_string doc.

(** An object holds the outcome of a successful run of the collaborators
    on its document: the pages are the OCR texts of the page images, in
    order. *)
Definition good_obj (obj : staging_obj) : Prop :=
  ∃ doc, convert_from_path (obj_path obj) = Converted doc ∧
         ocr_texts doc = Some (obj_pages obj).

(** A file content is complete when it is the whole serialisation of
    such an object. *)
Definition complete (content : string) : Prop :=
  ∃ obj, content = json_dumps obj ∧ good_obj obj.

(** What every interleaving keeps true of the staging area. *)
Record staging_inv (s : system) : Prop := StagingInv {
  inv_published :
    ∀ t name content,
      sys_files s !! (t, name) = Some content →
      PyStr.isdigit name = true → complete content;
  inv_writing :
    ∀ t w pending,
      sys_workers s !! t = Some w → w_pc w = Writing pending →
      ∃ item rest text content,
        w_todo w = item :: rest ∧
        sys_files s !! (t, tmp_name (w_i w)) = Some content ∧
        content +:+ pending = json_dumps (staged item text) ∧
        good_obj (staged item text);
  inv_read :
    ∀ content, content ∈ sys_read s → complete content
}.

End StagingVocabulary.


(** ** Vocabulary of the merge claims *)

Section MergeVocabulary.

Context `{Collaborators}.

(** A record holds the OCR texts of the pages of the document at
    [path], one per page and in the order of the pages. *)
Definition holds_ocr_texts (path : string) (r : doc_record) : Prop :=
  ∃ doc, convert_from_path path = Converted doc ∧
         Forall2 (λ img txt, image_to_string img = Some txt) doc (pages r).

(** Every record of [db] was already in [db0] or holds the OCR texts of
    its document. *)
Definition merged_from (db0 db : database) : Prop :=
  ∀ path, db !! path = db0 !! path ∨
          ∃ r, db !! path = Some r ∧ holds_ocr_texts path r.

(** What every interleaving keeps true of the coordinator, started with
    [c0]: the database is merged from the initial one, so is every
    content the database file has had since, and the file is in step
    with the dictionary as soon as one result was merged. *)
Record coord_inv (c0 : coord) (s : system) : Prop := CoordInv {
  inv_database : merged_from (co_database c0) (co_database (sys_coord s));
  inv_db_file :
    ∃ saved, co_db_file (sys_coord s) = saved ++ co_db_file c0 ∧
             Forall (merged_from (co_database c0)) saved ∧
             (saved = [] → co_database (sys_coord s) = co_database c0) ∧
             (saved ≠ [] → head saved = Some (co_database (sys_coord s)));
}.

(** An example of a state on the way: worker 0 has skipped
    "/docs/b.pdf" and opened its file for "/docs/a.pdf", worker 1 has
    written part of its file. *)
Definition example_actions : list action :=
  [WorkerStep 0 0; WorkerStep 0 0; WorkerStep 1 0; WorkerStep 1 40].

End MergeVocabulary.

Definition example_state : system :=
  default (spawn example_workload example_coord)
    (run (H := example_collaborators) example_actions
       (spawn example_workload example_coord)).


(** ** The claims about workers and coordinator *)

Section PipelineClaims.

Context `{Collaborators}.

(** The staging protocol in a state [s]: a worker that has the texts of
    an item creates its file under the temporary name; while it writes,
    the file is under the temporary name, which is not a number, and
    holds a prefix of the serialised object; once all of it is written
    the next step renames the file to the number [i]; every file whose
    name is a number is complete; the coordinator does nothing with any
    other file; and all it has ever read was complete. *)
Definition staging_protocol (s : system) : Prop :=
  (∀ t w item rest doc text chunk,
      sys_workers s !! t = Some w → w_pc w = AtItem →
      w_todo w = item :: rest →
      convert_from_path (item_path item) = Converted doc →
      ocr_texts doc = Some text →
      ∃ s', worker_step t chunk s = Some s' ∧
            sys_files s' = <[(t, tmp_name (w_i w)) := ""]> (sys_files s) ∧
            sys_workers s' !! t
            = Some (Worker (item :: rest) (w_i w)
                      (Writing (json_dumps (staged item text))))) ∧
  (∀ t w pending,
      sys_workers s !! t = Some w → w_pc w = Writing pending →
      ∃ item rest text content,
        w_todo w = item :: rest ∧
        sys_files s !! (t, tmp_name (w_i w)) = Some content ∧
        content +:+ pending = json_dumps (staged item text) ∧
        good_obj (staged item text) ∧
        PyStr.isdigit (tmp_name (w_i w)) = false ∧
        (pending = "" → ∀ chunk,
           ∃ s', worker_step t chunk s = Some s' ∧
                 sys_files s'
                 = <[(t, final_name (w_i w)) := json_dumps (staged item text)]>
                     (delete (t, tmp_name (w_i w)) (sys_files s)) ∧
                 sys_workers s' !! t
                 = Some (Worker rest (w_i w + 1) AtItem))) ∧
  (∀ t name content,
      sys_files s !! (t, name) = Some content →
      PyStr.isdigit name = true → complete content) ∧
  (∀ t name content,
      sys_files s !! (t, name) = Some content →
      PyStr.isdigit name = false → merge_file t name s = Some (inl s)) ∧
  (∀ content, content ∈ sys_read s → complete content).

(** Merging in a state [s] of a pass started with [c]: the merge of a
    published file stores, under the path of the object, the fingerprint
    and the pages of the object, which are the OCR texts of the pages of
    that document, and writes the database file; every record of the
    dictionary, and of every content the file has had since the start,
    was there at the start or holds the OCR texts of its document. *)
Definition merge_round_trip (c : coord) (s : system) : Prop :=
  (∀ t name content,
      sys_files s !! (t, name) = Some content →
      PyStr.isdigit name = true →
      ∃ obj s',
        content = json_dumps obj ∧
        merge_file t name s = Some (inl s') ∧
        co_database (sys_coord s') !! obj_path obj
        = Some (DocRecord (obj_mtime obj) (obj_fsize obj) (obj_pages obj)) ∧
        holds_ocr_texts (obj_path obj)
          (DocRecord (obj_mtime obj) (obj_fsize obj) (obj_pages obj)) ∧
        co_db_file (sys_coord s')
        = co_database (sys_coord s') :: co_db_file (sys_coord s)) ∧
  merged_from (co_database c) (co_database (sys_coord s)) ∧
  (∃ saved, co_db_file (sys_coord s) = saved ++ co_db_file c ∧
            Forall (merged_from (co_database c)) saved).

(** A worker at an item whose conversion raises [PDFPageCountError]:
    its next step prints the diagnostic, touches no file and no counter
    [i], and leaves it at the head of the loop with the rest of its
    batch. *)
Definition skips_failed_item (s : system) (t : nat) (w : worker)
    (item : work_item) (rest : list work_item) (msg : string) : Prop :=
  ∀ chunk,
    ∃ s', worker_step t chunk s = Some s' ∧
          sys_stdout s' = sys_stdout s ++ [cannot_index (item_path item) msg] ∧
          sys_files s' = sys_files s ∧
          sys_workers s' !! t = Some (Worker rest (w_i w) AtItem) ∧
          sys_coord s' = sys_coord s.

(** A document whose conversion fails is never merged: in every state of
    the pass its entry of the database is as at the start, so a candidate
    that was outstanding is outstanding again on the next pass. *)
Definition stays_unindexed (workload : workload_map) (c : coord)
    (path : string) : Prop :=
  ∀ s, reachable (spawn workload c) s →
    co_database (sys_coord s) !! path = co_database c !! path ∧
    (∀ name t content, sys_files s !! (t, name) = Some content →
       PyStr.isdigit name = true →
       ∀ obj, content = json_dumps obj → obj_path obj ≠ path) ∧
    ∀ fs pdf_files it,
      item_path it = path →
      it ∈ outstanding fs (co_database c) pdf_files →
      it ∈ outstanding fs (co_database (sys_coord s)) pdf_files.

End PipelineClaims.


(** ** More example inputs *)

(** Worker 1 has published its result for "/docs/c.pdf". *)
Definition example_published_state : system :=
  default (spawn example_workload example_coord)
    (run (H := example_collaborators)
       (example_actions ++ [WorkerStep 1 5000; WorkerStep 1 0])
       (spawn example_workload example_coord)).

(** A database that knows the three files of [example_fs] as they are. *)
Definition example_index_full : database :=
  {[ "/docs/a.pdf" := DocRecord 1700000000 100 ["alpha"];
     "/docs/b.pdf" := DocRecord 1700000100 200 ["beta"];
     "/docs/c.pdf" := DocRecord 1700000200 300 ["gamma"] ]}.

Definition example_coord_full : coord :=
  Coord example_index_full [example_index_full] 0.


(* ===================================================================== *)
(** * Command line ([PDFGrep.main])                                        *)
(* ===================================================================== *)

(** The local variables of [main] that the loop over [sys.argv] fills. *)
Record cli_state := Cli {
  cli_cleanup : bool;
  cli_index : bool;
  cli_index_paths : list string;
  cli_search : list string;
  cli_ignore : list string
}.

(** [for i in range(1, len(sys.argv))] over [sys.argv[1:]].  The flag
    [skip] makes the loop pass over the value of [--ignore];
    [sys.argv[i+1]] raises when [--ignore] is the last argument. *)
Fixpoint parse_args (args : list string) (st : cli_state) : option cli_state :=
  match args with
  | [] => Some st
  | arg :: rest =>
      if decide (arg = "-c") then
        parse_args rest
          (Cli true (cli_index st) (cli_index_paths st) (cli_search st)
             (cli_ignore st))
      else if decide (arg = "-i") then
        parse_args rest
          (Cli (cli_cleanup st) true (cli_index_paths st) (cli_search st)
             (cli_ignore st))
      else if decide (arg = "--ignore") then
        match rest with
        | [] => None
        | value :: rest' =>
            parse_args rest'
              (Cli (cli_cleanup st) (cli_index st) (cli_index_paths st)
                 (cli_search st) (cli_ignore st ++ [value]))
        end
      else if cli_index st then
        parse_args rest
          (Cli (cli_cleanup st) (cli_index st) (cli_index_paths st ++ [arg])
             (cli_search st) (cli_ignore st))
      else
        parse_args rest
          (Cli (cli_cleanup st) (cli_index st) (cli_index_paths st)
             (cli_search st ++ [arg]) (cli_ignore st))
  end.

(** What [main] goes on to do. *)
Inductive command :=
  | RunIndex (index_paths ignore : list string) (cleanup : bool)
  | RunSearch (search : list string)
  | Usage.

(** [main(self)], on [sys.argv[1:]]. *)
Definition main (args : list string) : option command :=
  match parse_args args (Cli false false [] [] []) with
  | None => None
  | Some st =>
      if cli_index st && negb (bool_decide (cli_index_paths st = [])) then
        Some (RunIndex (cli_index_paths st) (cli_ignore st) (cli_cleanup st))
      else if negb (bool_decide (cli_search st = [])) then
        Some (RunSearch (cli_search st))
      else Some Usage
  end.

(** The arguments that are neither a flag nor the value of [--ignore]. *)
Fixpoint non_flag_args (args : list string) : list string :=
  match args with
  | [] => []
  | arg :: rest =>
      if decide (arg = "-c") then non_flag_args rest
      else if decide (arg = "-i") then non_flag_args rest
      else if decide (arg = "--ignore") then
        match rest with
        | [] => []
        | _ :: rest' => non_flag_args rest'
        end
      else arg :: non_flag_args rest
  end.


(** The same collaborators with an OCR that raises on the second page of
    "/docs/c.pdf". *)
Definition example_collaborators_ocr_raises : Collaborators := {|
  image := string;
  convert_from_path := convert_from_path (Collaborators := example_collaborators);
  image_to_string img := if decide (img = "two") then None else Some img;
  json_dumps := bits_dumps;
  json_loads := bits_loads
|}.

(** ** The failure claim as the specification words it *)

Section FailureClaim.

Context `{Collaborators}.

(** A failure of the rasterizer or of the OCR on the document of an item:
    the rasterizer raises [PDFPageCountError], or the OCR raises on one of
    the pages. *)
Definition recoverable_failure (item : work_item) : Prop :=
  match convert_from_path (item_path item) with
  | Converted doc => ocr_texts doc = None
  | PDFPageCountError _ => True
  | ConvertRaised => False
  end.

(** The specification's containment of such a failure: the next step of
    the worker prints something, writes no file and leaves the worker at
    the head of its loop with the rest of its batch. *)
Definition failure_claim (s : system) (t : nat) : Prop :=
  ∀ w item rest chunk,
    sys_workers s !! t = Some w → w_pc w = AtItem → w_todo w = item :: rest →
    recoverable_failure item →
    ∃ s', worker_step t chunk s = Some s' ∧
          sys_stdout s' ≠ sys_stdout s ∧
          sys_files s' = sys_files s ∧
          sys_workers s' !! t = Some (Worker rest (w_i w) AtItem).

End FailureClaim.


(** ** Vocabulary of a whole pass *)

Section PassVocabulary.

Context `{Collaborators}.

(** The texts of an item, when its conversion and the OCR of all its
    pages succeed. *)
Definition item_texts (item : work_item) : option (list string) :=
  match convert_from_path (item_path item) with
  | Converted doc => ocr_texts doc
  | _ => None
  end.

(** The record that a merge stores for an item. *)
Definition item_record (item : work_item) (text : list string) : doc_record :=
  DocRecord (item_mtime item) (item_fsize item) text.

(** An item of slot [t] is settled when, if it has texts, its result is
    published in the directory of [t] or its record is in the database. *)
Definition settled (s : system) (t : nat) (item : work_item) : Prop :=
  ∀ text, item_texts item = Some text →
    (∃ name, PyStr.isdigit name = true ∧
             sys_files s !! (t, name) = Some (json_dumps (staged item text))) ∨
    co_database (sys_coord s) !! item_path item = Some (item_record item text).

(** The collaborators raise nothing but [PDFPageCountError] on the items
    of a workload. *)
Definition no_uncaught (wl : workload_map) : Prop :=
  ∀ t items item, wl !! t = Some items → item ∈ items →
    convert_from_path (item_path item) ≠ ConvertRaised ∧
    ∀ doc, convert_from_path (item_path item) = Converted doc →
           is_Some (ocr_texts doc).

(** A path occurs in a workload with one fingerprint only. *)
Definition one_snapshot_per_path (wl : workload_map) : Prop :=
  ∀ t1 t2 items1 items2 item1 item2,
    wl !! t1 = Some items1 → wl !! t2 = Some items2 →
    item1 ∈ items1 → item2 ∈ items2 →
    item_path item1 = item_path item2 → item1 = item2.

(** What a pass over the workload [wl], started with [c0], keeps true:
    - a published file of slot [t] is named by a number below the counter
      of the worker and holds the result of an item of the batch of [t];
    - a worker has settled the items of its batch that it has left behind,
      has not died, is done when it has exited, and while it writes, its
      temporary file and what is pending make up the result of its item;
    - a slot whose worker was reaped has all its items settled;
    - the database differs from the initial one only at the paths of
      items, where it holds the record of such an item. *)
Record pass_inv (wl : workload_map) (c0 : coord) (s : system) : Prop :=
  PassInv {
  pi_published :
    ∀ t name content,
      sys_files s !! (t, name) = Some content → PyStr.isdigit name = true →
      ∃ j items item text,
        name = final_name j ∧ wl !! t = Some items ∧ item ∈ items ∧
        item_texts item = Some text ∧
        content = json_dumps (staged item text) ∧
        ∀ w, sys_workers s !! t = Some w → (j < w_i w)%nat;
  pi_workers :
    ∀ t w, sys_workers s !! t = Some w →
      ∃ items done,
        wl !! t = Some items ∧ items = done ++ w_todo w ∧
        (∀ item, item ∈ done → settled s t item) ∧
        match w_pc w with
        | AtItem => True
        | Writing pending =>
            ∃ item rest text content,
              w_todo w = item :: rest ∧ item_texts item = Some text ∧
              sys_files s !! (t, tmp_name (w_i w)) = Some content ∧
              content +:+ pending = json_dumps (staged item text)
        | Exited => w_todo w = []
        | Died => False
        end;
  pi_reaped :
    ∀ t items, wl !! t = Some items → sys_workers s !! t = None →
      ∀ item, item ∈ items → settled s t item;
  pi_database :
    ∀ path,
      co_database (sys_coord s) !! path = co_database c0 !! path ∨
      ∃ t items item text,
        wl !! t = Some items ∧ item ∈ items ∧ item_path item = path ∧
        item_texts item = Some text ∧
        co_database (sys_coord s) !! path = Some (item_record item text);
  pi_no_stranger :
    ∀ t, wl !! t = None → sys_workers s !! t = None
}.

(** The directory of a slot without worker holds no published file. *)
Definition harvested (s : system) : Prop :=
  ∀ t name, sys_workers s !! t = None → PyStr.isdigit name = true →
            sys_files s !! (t, name) = None.

End PassVocabulary.


(** ** Vocabulary of two passes in a row *)

Section NextPassVocabulary.

Context `{Collaborators}.

(** On the candidates the collaborators raise nothing but
    [PDFPageCountError]. *)
Definition caught_on (paths : list string) : Prop :=
  ∀ p, p ∈ paths →
    convert_from_path p ≠ ConvertRaised ∧
    ∀ doc, convert_from_path p = Converted doc → is_Some (ocr_texts doc).

End NextPassVocabulary.

(** The schedule and the clock of an example pass over [example_fs] with
    [example_index]: "/docs/b.pdf" and "/docs/c.pdf" are outstanding. *)
Definition example_sched : list (list (nat * nat)) :=
  [[(0, 0); (1, 0)]; [(1, 5000); (1, 0)]; [(0, 0)]; [(1, 0)]]%nat.

Definition example_clock : list Q := [1 # 2; 1; 3 # 2; 2]%Q.

Definition example_pass_end : system :=
  match index (H := example_collaborators) example_fs 4 ["/docs"]
          ["/docs/a.pdf"; "/docs/b.pdf"; "/docs/c.pdf"] [] false
          example_clock example_sched 10 example_coord with
  | IndexDone s => s
  | _ => spawn ∅ example_coord
  end.


(* ===================================================================== *)
(** * Path discovery (the first loop of [PDFGrep.index])                   *)
(* ===================================================================== *)

(** [s.split(sep)] for a separator of one character. *)
Fixpoint split_on (sep : ascii) (s : string) : list string :=
  match s with
  | "" => [""]
  | String c t =>
      if decide (c = sep) then "" :: split_on sep t
      else match split_on sep t with
           | l :: ls => String c l :: ls
           | [] => [String c ""]
           end
  end.

(** The operating system as the discovery sees it: what
    [glob.glob('%s/**/*' % (index_path), recursive=True)] lists for a
    root, [os.path.abspath] and [os.path.exists]. *)
Class DirectoryView := {
  glob_under : string → list string;
  abspath : string → string;
  path_exists : string → bool
}.

Section Discovery.

Context `{DirectoryView}.
Variable lower : string → string.

(** [path.split('.')[-1].lower() != 'pdf'], negated. *)
Definition has_pdf_extension (path : string) : bool :=
  bool_decide (lower (default "" (last (split_on "." path))) = "pdf").

(** The inner loop over [paths_to_ignore], with its [break]. *)
Fixpoint ignored (path : string) (paths_to_ignore : list string) : bool :=
  match paths_to_ignore with
  | [] => false
  | path_to_ignore :: rest =>
      if decide (PyStr.take (String.length path_to_ignore) path
                 = path_to_ignore)
      then true
      else ignored path rest
  end.

(** The loop over what [glob.glob] lists for one root. *)
Fixpoint discover_listing (listing paths_to_ignore : list string)
    : list string :=
  match listing with
  | [] => []
  | path :: rest =>
      if negb (has_pdf_extension path) then
        discover_listing rest paths_to_ignore
      else
        let path := abspath path in
        if negb (path_exists path) then discover_listing rest paths_to_ignore
        else if ignored path paths_to_ignore then
          discover_listing rest paths_to_ignore
        else path :: discover_listing rest paths_to_ignore
  end.

(** The loop over [paths_to_index]: the list [pdf_files]. *)
Fixpoint discover (paths_to_index paths_to_ignore : list string)
    : list string :=
  match paths_to_index with
  | [] => []
  | index_path :: rest =>
      discover_listing (glob_under index_path) paths_to_ignore
        ++ discover rest paths_to_ignore
  end.

End Discovery.

(** An example of a directory: two documents and a text file under
    "/docs", one of the documents also under "/docs/old"; paths are
    absolute already and everything listed exists. *)
Definition example_directory : DirectoryView := {|
  glob_under root :=
    if decide (root = "/docs")
    then ["/docs/a.pdf"; "/docs/notes.txt"; "/docs/old"; "/docs/old/b.PDF"]
    else if decide (root = "/docs/old") then ["/docs/old/b.PDF"]
    else [];
  abspath path := path;
  path_exists path := true
|}.


(** ** Vocabulary of progress *)

Section ProgressVocabulary.

Context `{Collaborators}.

(** A worker that has left its loop or has died. *)
Definition ended (w : worker) : Prop := w_pc w = Exited ∨ w_pc w = Died.

(** Every child has ended. *)
Definition quiet (s : system) : Prop :=
  ∀ t w, sys_workers s !! t = Some w → ended w.

(** A bound on the steps an item takes: one when it has no texts; else
    the step that converts it and opens the file, at most one step per
    character of the serialised object, and the rename. *)
Definition item_budget (item : work_item) : nat :=
  match item_texts item with
  | Some text => 2 + String.length (json_dumps (staged item text))
  | None => 1
  end.

(** The same for a batch, with the step that leaves the loop. *)
Definition batch_budget (items : list work_item) : nat :=
  sum_list (item_budget <$> items) + 1.

(** A bound on the steps a worker still takes. *)
Definition worker_budget (w : worker) : nat :=
  match w_pc w with
  | AtItem => batch_budget (w_todo w)
  | Writing pending => String.length pending + 1 + batch_budget (tail (w_todo w))
  | Exited | Died => 0
  end.

(** A schedule that lets every worker of a workload run to its end, one
    worker after the other, before the first poll. *)
Definition steps_to_the_end (workload : workload_map) : list (nat * nat) :=
  '(t, items) ← map_to_list workload;
  replicate (batch_budget items) (t, 0%nat).

End ProgressVocabulary.


(** The children of the example have taken all their steps, one character
    per write. *)
Definition example_children_ended : system :=
  run_workers (H := example_collaborators) (steps_to_the_end (H := example_collaborators) example_workload)
    (spawn example_workload example_coord).

(** ** The first line of [build_workload] *)

(** How a call of [build_workload] ends. *)
Inductive build_outcome :=
  | Built (workload : workload_map) (total_todo : nat)
  | ValueError       (* [int(...)] on what [sysctl] printed *)
  | StatRaised.      (* [os.stat] on a candidate *)

(** [build_workload(self, pdf_files)] from its first line on.  [printed]
    is what [os.popen("/usr/sbin/sysctl -n hw.ncpu").read()] returned: the
    output of the command, empty when the command is not there or prints
    nothing; [rstrip] is [str.rstrip] and [to_int] is [int] on a text,
    [None] when it raises [ValueError].  The core count is read before any
    candidate is looked at. *)
Definition build_workload_from (rstrip : string → string)
    (to_int : string → option Z) (printed : string) (fs : filesystem)
    (db : database) (pdf_files : list string) : build_outcome :=
  match to_int (rstrip printed) with
  | None => ValueError
  | Some ncpu =>
      match build_workload fs db ncpu pdf_files with
      | None => StatRaised
      | Some (workload, total_todo) => Built workload total_todo
      end
  end.

(** ** The states of a pass *)

(** From the forks on, the children take steps and the coordinator merges
    a staging file, polls a child with [os.waitpid], which reaps it when
    it has ended, or prints a progress line.  These are the states the
    loop of [index] goes through. *)
Inductive pass_state `{Collaborators} (s0 : system) : system → Prop :=
  | pass_start : pass_state s0 s0
  | pass_step a s s' : pass_state s0 s → step a s = Some s' → pass_state s0 s'
  | pass_poll t s : pass_state s0 s → pass_state s0 (waitpid t s).2
  | pass_print out s : pass_state s0 s → pass_state s0 (print out s).

(** The children of the example have ended and child 0 has been reaped. *)
Definition example_one_reaped : system :=
  (waitpid 0 example_children_ended).2.

(* ===================================================================== *)
(** * Properties                                                           *)
(* ===================================================================== *)

(** ** Python strings *)

Module PyStrFacts.
Import PyStr.

Lemma startswith_spec p s :
  startswith p s = true ↔ ∃ t, s = p +:+ t.
Proof.
  revert s. induction p as [|a p IH]; intros s; simpl.
  - split; [eauto|done].
  - destruct s as [|b s].
    + split; [done|]. intros [t Ht]. discriminate.
    + case_decide as Hab.
      * subst b. rewrite IH. split.
        -- intros [t ->]. by exists t.
        -- intros [t Ht]. exists t.
           change (String a p +:+ t) with (String a (p +:+ t)) in Ht.
           congruence.
      * split; [done|]. intros [t Ht].
        change (String a p +:+ t) with (String a (p +:+ t)) in Ht.
        congruence.
Qed.


Lemma split_lf_nonempty s : split_lf s ≠ [].
Proof.
  induction s as [|c t IH]; simpl; [done|].
  case_decide; [done|]. by destruct (split_lf t).
Qed.

Lemma join_split_lf s : join (String LF "") (split_lf s) = s.
Proof.
  induction s as [|c t IH]; simpl; [done|].
  case_decide as Hc.
  - subst c. pose proof (split_lf_nonempty t) as Hne.
    destruct (split_lf t) as [|l ls] eqn:E; [done|].
    simpl in *. by rewrite IH.
  - pose proof (split_lf_nonempty t) as Hne.
    destruct (split_lf t) as [|l ls] eqn:E; [done|].
    destruct ls as [|l' ls]; simpl in *; by rewrite <- IH.
Qed.

Lemma startswith_take p s :
  startswith p s = true ↔ take (String.length p) s = p.
Proof.
  revert s. induction p as [|a p IH]; intros [|b s]; simpl; try done.
  case_decide as Hab.
  - subst b. rewrite IH. split; [by intros ->|congruence].
  - split; [done|congruence].
Qed.

End PyStrFacts.

(** ** Search engine *)

Section SearchFacts.

Variable lower : string → string.

Lemma elem_of_search_lines q path pagen lines i h :
  h ∈ search_lines lower q path pagen lines i ↔
  ∃ j line, lines !! j = Some line ∧ line_matches lower q line = true ∧
            h = Hit path (pagen + 1) (i + j) line.
Proof.
  revert i. induction lines as [|l rest IH]; intros i; simpl.
  - rewrite elem_of_nil. split; [done|]. by intros (j & line & ? & _).
  - rewrite elem_of_app, IH. split.
    + intros [Hh|(j & line & Hj & Hm & ->)].
      * destruct (line_matches lower q l) eqn:Hm.
        -- apply list_elem_of_singleton in Hh as ->.
           exists 0%nat, l. by rewrite Nat.add_0_r.
        -- by apply elem_of_nil in Hh.
      * exists (S j), line. split_and!; [done..|]. f_equal. lia.
    + intros ([|j] & line & Hj & Hm & ->); simpl in Hj.
      * left. injection Hj as ->. rewrite Hm, Nat.add_0_r.
        by apply list_elem_of_singleton.
      * right. exists j, line. split_and!; [done..|]. f_equal. lia.
Qed.

Lemma elem_of_search_pages q path pgs pagen h :
  h ∈ search_pages lower q path pgs pagen ↔
  ∃ k page j line,
    pgs !! k = Some page ∧ PyStr.split_lf page !! j = Some line ∧
    line_matches lower q line = true ∧
    h = Hit path (pagen + k + 1) j line.
Proof.
  revert pagen. induction pgs as [|p rest IH]; intros pagen; simpl.
  - rewrite elem_of_nil. split; [done|]. by intros (k & page & j & line & ? & _).
  - rewrite elem_of_app, IH, elem_of_search_lines. split.
    + intros [(j & line & Hj & Hm & ->)|(k & page & j & line & Hk & Hj & Hm & ->)].
      * exists 0%nat, p, j, line. split_and!; [done..|]. f_equal. lia.
      * exists (S k), page, j, line. split_and!; [done..|]. f_equal. lia.
    + intros ([|k] & page & j & line & Hk & Hj & Hm & ->); simpl in Hk.
      * left. injection Hk as ->. exists j, line.
        split_and!; [done..|]. f_equal. lia.
      * right. exists k, page, j, line. split_and!; [done..|]. f_equal. lia.
Qed.

Lemma elem_of_search_docs db q paths h :
  h ∈ search_docs lower db q paths ↔
  ∃ path r, path ∈ paths ∧ db !! path = Some r ∧
            h ∈ search_pages lower q path (pages r) 0.
Proof.
  induction paths as [|p rest IH]; simpl.
  - rewrite elem_of_nil. split; [done|]. intros (? & ? & H & _).
    by apply elem_of_nil in H.
  - rewrite elem_of_app, IH. split.
    + intros [Hh|(path & r & Hin & Hr & Hh)].
      * destruct (db !! p) as [r|] eqn:Hr; [|by apply elem_of_nil in Hh].
        exists p, r. split_and!; [left|done..].
      * exists path, r. split_and!; [by right|done..].
    + intros (path & r & Hin & Hr & Hh).
      apply elem_of_cons in Hin as [->|Hin].
      * left. by rewrite Hr.
      * right. by exists path, r.
Qed.





End SearchFacts.

Lemma elem_of_sorted_keys {V} (db : gmap string V) path :
  path ∈ sorted_keys db ↔ is_Some (db !! path).
Proof.
  unfold sorted_keys. rewrite merge_sort_Permutation, elem_of_elements.
  apply elem_of_dom.
Qed.


(** ** Command line *)

(** The loop of [main] sorts the plain arguments, in their order, into
    [search] until [-i] is met and into [index_paths] afterwards. *)
Lemma parse_args_spec n args st st' :
  (length args ≤ n)%nat →
  (cli_index st = false → cli_index_paths st = []) →
  parse_args args st = Some st' →
  (cli_index st' = false → cli_index_paths st' = []) ∧
  cli_search st' ++ cli_index_paths st'
  = cli_search st ++ cli_index_paths st ++ non_flag_args args.
Proof.
  revert args st. induction n as [|n IH]; intros [|arg rest] st Hlen Hst;
    simpl in *; try lia.
  - intros [= <-]. by rewrite !app_nil_r.
  - intros [= <-]. by rewrite !app_nil_r.
  - repeat case_decide.
    + intros Hp. apply IH in Hp; [done|lia|done].
    + intros Hp. apply IH in Hp; [done|lia|done].
    + destruct rest as [|value rest']; [done|].
      intros Hp. apply IH in Hp; [done|simpl in *; lia|done].
    + destruct (cli_index st) eqn:Hidx.
      * intros Hp. apply IH in Hp as [Hp1 Hp2]; [|lia|done].
        split; [done|]. simpl in Hp2. rewrite Hp2.
        by rewrite <- !app_assoc.
      * intros Hp. apply IH in Hp as [Hp1 Hp2]; [|lia|simpl; auto].
        split; [done|]. simpl in Hp2. rewrite Hp2, Hst by done.
        by rewrite <- !app_assoc.
Qed.



(** ** Workload partitioner *)

Lemma threads_reached ncpu (tid : nat) :
  Qle_bool (threads_of ncpu) (inject_Z (Z.of_nat tid)) = true ↔
  ncpu ≤ 2 * Z.of_nat tid.
Proof.
  rewrite Qle_bool_iff. unfold threads_of, Qle, Qdiv, Qmult, Qinv. simpl.
  lia.
Qed.

Lemma slots_pos ncpu : (1 ≤ slots ncpu)%nat.
Proof. unfold slots. lia. Qed.

(** The reset of [thread_id] is the successor modulo [slots ncpu]. *)
Lemma next_thread_id ncpu (n : nat) :
  (if Qle_bool (threads_of ncpu) (inject_Z (Z.of_nat (n mod slots ncpu + 1)))
   then 0%nat else (n mod slots ncpu + 1)%nat)
  = ((n + 1) mod slots ncpu)%nat.
Proof.
  pose proof (slots_pos ncpu) as HW.
  assert (Z.of_nat (slots ncpu) = Z.max 1 ((ncpu + 1) / 2)) as HWz.
  { unfold slots. lia. }
  pose proof (Nat.mod_upper_bound n (slots ncpu) ltac:(lia)) as Hlt.
  pose proof (Nat.div_mod_eq n (slots ncpu)) as Hn.
  destruct (Qle_bool _ _) eqn:Hq.
  - apply threads_reached in Hq.
    assert (n mod slots ncpu + 1 = slots ncpu)%nat as Htop.
    { apply Nat.le_antisymm; [lia|].
      apply Nat2Z.inj_le. rewrite HWz.
      apply Z.max_lub; [lia|].
      assert ((ncpu + 1) / 2 < Z.of_nat (n mod slots ncpu + 1) + 1); [|lia].
      apply Z.div_lt_upper_bound; lia. }
    apply Nat.mod_unique with (q := S (n / slots ncpu)); lia.
  - assert (¬ ncpu ≤ 2 * Z.of_nat (n mod slots ncpu + 1)) as Hq'.
    { rewrite <- threads_reached. congruence. }
    assert (n mod slots ncpu + 1 < slots ncpu)%nat as Hbelow.
    { apply Nat2Z.inj_lt. rewrite HWz.
      apply Z.max_lt_iff. right.
      assert (Z.of_nat (n mod slots ncpu + 1) + 1 ≤ (ncpu + 1) / 2); [|lia].
      apply Z.div_le_lower_bound; lia. }
    apply Nat.mod_unique with (q := (n / slots ncpu)%nat); lia.
Qed.

Lemma slot_at_default (wl : workload_map) t j :
  slot_at wl t j = default [] (wl !! t) !! j.
Proof. unfold slot_at. by destruct (wl !! t). Qed.

(** Appending the next outstanding item to the slot of the current
    [thread_id] keeps the slots a round-robin deal. *)
Lemma round_robin_push W out (wl : workload_map) it :
  (1 ≤ W)%nat →
  round_robin W out wl →
  round_robin W (out ++ [it])
    (<[(length out mod W)%nat :=
         default [] (wl !! (length out mod W)%nat) ++ [it]]> wl).
Proof.
  intros HW Hrr t j.
  set (n := length out). set (tid := (n mod W)%nat).
  pose proof (Nat.mod_upper_bound n W ltac:(lia)) as Htid.
  pose proof (Nat.div_mod_eq n W) as Hn.
  set (q := (n / W)%nat) in *. fold tid in Htid, Hn.
  set (l := default [] (wl !! tid)).
  assert (∀ j', l !! j' = out !! (j' * W + tid)%nat) as Hl.
  { intros j'. unfold l. rewrite <- slot_at_default, Hrr. by case_decide. }
  assert (length l = q) as Hlen.
  { apply Nat.le_antisymm.
    - apply Nat.nlt_ge. intros Hlt.
      apply lookup_lt_is_Some_2 in Hlt as [x Hx]. rewrite Hl in Hx.
      apply lookup_lt_Some in Hx. fold n in Hx. lia.
    - destruct q as [|q']; [lia|].
      assert (is_Some (l !! q')) as Hs.
      { rewrite Hl. apply lookup_lt_is_Some_2. fold n. lia. }
      apply lookup_lt_is_Some_1 in Hs. lia. }
  unfold slot_at. destruct (decide (tid = t)) as [<-|Hne].
  - rewrite lookup_insert_eq. rewrite decide_True by done.
    destruct (Nat.lt_trichotomy j q) as [Hj|[->|Hj]].
    + rewrite lookup_app_l by lia.
      rewrite lookup_app_l by (fold n; nia). apply Hl.
    + rewrite lookup_app_r by lia. rewrite lookup_app_r by (fold n; lia).
      rewrite Hlen. fold n. by replace (q * W + tid - n)%nat with (q - q)%nat by lia.
    + rewrite !lookup_ge_None_2; [done| |];
        rewrite length_app; simpl; fold n; nia.
  - rewrite lookup_insert_ne by done. specialize (Hrr t j).
    unfold slot_at in Hrr. rewrite Hrr. case_decide as Ht; [|done].
    assert ((j * W + t)%nat ≠ n) as Hidx.
    { intros Heq. apply Hne. unfold tid. rewrite <- Heq.
      rewrite Nat.add_comm, Nat.Div0.mod_add. by rewrite Nat.mod_small. }
    destruct (decide (j * W + t < n)%nat).
    + by rewrite lookup_app_l.
    + rewrite !lookup_ge_None_2; [done| |]; rewrite ?length_app; simpl; fold n; lia.
Qed.

Lemma outstanding_app fs db l1 l2 :
  outstanding fs db (l1 ++ l2) = outstanding fs db l1 ++ outstanding fs db l2.
Proof.
  induction l1 as [|p l1 IH]; simpl; [done|].
  destruct (snapshot fs p) as [it|]; [|done].
  destruct (unchanged _ _ _ _); [done|]. by rewrite IH.
Qed.

(** One iteration of the loop extends the invariant by the candidate it
    looked at. *)
Lemma build_workload_body_inv fs db ncpu out st path st' :
  bw_inv (slots ncpu) out st →
  build_workload_body fs db (threads_of ncpu) st path = Some st' →
  bw_inv (slots ncpu) (out ++ outstanding fs db [path]) st'.
Proof.
  intros (Htid & Htot & Hrr). unfold build_workload_body. simpl.
  unfold snapshot. destruct (fs !! path) as [s|]; [|done]. simpl.
  destruct (unchanged _ _ _ _).
  { intros [= <-]. by rewrite app_nil_r. }
  intros [= <-]. destruct st as [tid wl tot]; simpl in *. subst tid tot.
  split_and!; simpl.
  - rewrite length_app. simpl. apply next_thread_id.
  - rewrite length_app. simpl. done.
  - pose proof (round_robin_push (slots ncpu) out wl
      (WorkItem path (py_int (st_mtime s)) (st_size s)) (slots_pos ncpu) Hrr) as Hp.
    destruct (wl !! (length out mod slots ncpu)%nat) as [l|] eqn:Hl; simpl in *.
    + by rewrite Hl.
    + rewrite lookup_insert_eq. simpl. by rewrite insert_insert_eq.
Qed.

Lemma build_workload_loop_inv fs db ncpu pdf_files out st st' :
  bw_inv (slots ncpu) out st →
  build_workload_loop fs db (threads_of ncpu) pdf_files st = Some st' →
  bw_inv (slots ncpu) (out ++ outstanding fs db pdf_files) st'.
Proof.
  revert out st. induction pdf_files as [|p rest IH]; intros out st Hinv; simpl.
  - intros [= <-]. by rewrite app_nil_r.
  - destruct (build_workload_body _ _ _ _ _) as [st1|] eqn:Hb; [|done].
    intros Hloop. eapply build_workload_body_inv in Hb; [|done].
    eapply IH in Hloop; [|done].
    rewrite <- app_assoc in Hloop.
    by rewrite <- (outstanding_app fs db [p] rest) in Hloop.
Qed.

(** The loop runs to its end when every candidate can still be read. *)
Lemma build_workload_loop_total fs db threads pdf_files st :
  Forall (λ p, is_Some (fs !! p)) pdf_files →
  is_Some (build_workload_loop fs db threads pdf_files st).
Proof.
  intros Hall. revert st. induction Hall as [|p rest [s Hs] _ IH]; intros st; simpl.
  - eauto.
  - unfold build_workload_body. rewrite Hs.
    destruct (unchanged _ _ _ _); apply IH.
Qed.

(** [build_workload] deals the outstanding items round-robin over
    [slots ncpu] slots and counts them. *)
Lemma build_workload_round_robin fs db ncpu pdf_files wl total :
  build_workload fs db ncpu pdf_files = Some (wl, total) →
  round_robin (slots ncpu) (outstanding fs db pdf_files) wl ∧
  total = length (outstanding fs db pdf_files).
Proof.
  unfold build_workload.
  destruct (build_workload_loop _ _ _ _ _) as [st|] eqn:Hloop; [|done].
  intros [= <- <-].
  eapply (build_workload_loop_inv _ _ _ _ []) in Hloop as (_ & Htot & Hrr).
  - done.
  - split_and!; simpl.
    + by rewrite Nat.Div0.mod_0_l.
    + done.
    + intros t j. unfold slot_at. rewrite lookup_empty.
      case_decide; [|done]. by rewrite lookup_nil.
Qed.

Lemma elem_of_outstanding fs db pdf_files it :
  it ∈ outstanding fs db pdf_files ↔
  ∃ path, path ∈ pdf_files ∧ snapshot fs path = Some it ∧
          unchanged db path (item_mtime it) (item_fsize it) = false.
Proof.
  induction pdf_files as [|p rest IH]; simpl.
  - rewrite elem_of_nil. split; [done|]. intros (? & H & _).
    by apply elem_of_nil in H.
  - destruct (snapshot fs p) as [it'|] eqn:Hs.
    + destruct (unchanged db p _ _) eqn:Hu.
      * rewrite IH. split.
        -- intros (path & Hin & H). exists path. split; [by right|done].
        -- intros (path & Hin & Hsn & Hun).
           apply elem_of_cons in Hin as [->|Hin]; [|by exists path].
           congruence.
      * rewrite elem_of_cons, IH. split.
        -- intros [->|(path & Hin & H)].
           ++ exists p. split_and!; [left|done..].
           ++ exists path. split; [by right|done].
        -- intros (path & Hin & Hsn & Hun).
           apply elem_of_cons in Hin as [->|Hin]; [left; congruence|].
           right. by exists path.
    + rewrite IH. split.
      * intros (path & Hin & H). exists path. split; [by right|done].
      * intros (path & Hin & Hsn & Hun).
        apply elem_of_cons in Hin as [->|Hin]; [congruence|by exists path].
Qed.

Lemma unchanged_true db path m sz :
  unchanged db path m sz = true ↔
  ∃ r, db !! path = Some r ∧ mtime r = m ∧ fsize r = sz.
Proof.
  unfold unchanged. destruct (db !! path) as [r|].
  - rewrite andb_true_iff, !bool_decide_eq_true. split.
    + intros [? ?]. by exists r.
    + by intros (? & [= <-] & ? & ?).
  - split; [done|]. by intros (? & ? & _).
Qed.

Lemma snapshot_path fs path it : snapshot fs path = Some it → item_path it = path.
Proof. unfold snapshot. destruct (fs !! path); [|done]. by intros [= <-]. Qed.

(** Under a round-robin deal the assigned items are the outstanding ones. *)
Lemma round_robin_assigned W out wl it :
  (1 ≤ W)%nat → round_robin W out wl → assigned wl it ↔ it ∈ out.
Proof.
  intros HW Hrr. split.
  - intros (t & j & Hs). rewrite Hrr in Hs. case_decide; [|done].
    by eapply list_elem_of_lookup_2.
  - intros (k & Hk)%list_elem_of_lookup_1.
    exists (k mod W)%nat, (k / W)%nat. rewrite Hrr.
    rewrite decide_True by (apply Nat.mod_upper_bound; lia).
    by replace (k / W * W + k mod W)%nat with k
      by (pose proof (Nat.div_mod_eq k W); lia).
Qed.

(** Two slot positions of a round-robin deal show the same position of the
    outstanding list only when they are the same. *)
Lemma round_robin_no_item_twice W out wl :
  (1 ≤ W)%nat → NoDup out → round_robin W out wl → no_item_twice wl.
Proof.
  intros HW Hnd Hrr t1 j1 t2 j2 it H1 H2.
  rewrite Hrr in H1, H2. repeat case_decide; try done.
  pose proof (NoDup_lookup _ _ _ _ Hnd H1 H2) as Heq.
  assert (j1 = j2) by nia. subst j2. split; [lia|done].
Qed.

Lemma outstanding_NoDup fs db pdf_files :
  NoDup pdf_files → NoDup (outstanding fs db pdf_files).
Proof.
  induction 1 as [|p rest Hp Hnd IH]; simpl; [constructor|].
  destruct (snapshot fs p) as [it|] eqn:Hs; [|done].
  destruct (unchanged _ _ _ _); [done|].
  constructor; [|done].
  intros (path & Hin & Hs' & _)%elem_of_outstanding.
  apply snapshot_path in Hs, Hs'. congruence.
Qed.

(** ** The number of assigned items *)

Lemma assigned_count_insert (wl : workload_map) t l :
  assigned_count (<[t := l]> wl)
  = (length l + assigned_count (delete t wl))%nat.
Proof.
  unfold assigned_count. rewrite <- insert_delete_eq.
  rewrite map_fold_insert_L; [done| |apply lookup_delete_eq].
  intros; lia.
Qed.

Lemma assigned_count_lookup (wl : workload_map) t :
  assigned_count wl
  = (length (default [] (wl !! t)) + assigned_count (delete t wl))%nat.
Proof.
  destruct (wl !! t) as [l|] eqn:Hl; simpl.
  - rewrite <- (insert_id wl t l Hl) at 1. apply assigned_count_insert.
  - by rewrite delete_id.
Qed.

Lemma assigned_count_push (wl : workload_map) t it :
  assigned_count (<[t := default [] (wl !! t) ++ [it]]> wl)
  = S (assigned_count wl).
Proof.
  rewrite assigned_count_insert, (assigned_count_lookup wl t), length_app.
  simpl. lia.
Qed.

Lemma build_workload_body_count fs db threads st path st' :
  build_workload_body fs db threads st path = Some st' →
  (bw_total_todo st = assigned_count (bw_workload st) →
   bw_total_todo st' = assigned_count (bw_workload st')) ∧
  ((∀ t l, bw_workload st !! t = Some l → l ≠ []) →
   ∀ t l, bw_workload st' !! t = Some l → l ≠ []).
Proof.
  unfold build_workload_body. destruct (fs !! path) as [s|]; [|done]. simpl.
  destruct (unchanged _ _ _ _); [by intros [= <-]|].
  intros [= <-]. simpl.
  assert (∀ it,
    <[bw_thread_id st := default [] (match bw_workload st !! bw_thread_id st with
        | Some _ => bw_workload st
        | None => <[bw_thread_id st := []]> (bw_workload st) end !! bw_thread_id st) ++ [it]]>
      (match bw_workload st !! bw_thread_id st with
        | Some _ => bw_workload st
        | None => <[bw_thread_id st := []]> (bw_workload st) end)
    = <[bw_thread_id st := default [] (bw_workload st !! bw_thread_id st) ++ [it]]>
        (bw_workload st)) as Hsame.
  { intros it. destruct (bw_workload st !! bw_thread_id st) eqn:Hl.
    - by rewrite Hl.
    - rewrite lookup_insert_eq. simpl. by rewrite insert_insert_eq. }
  rewrite Hsame. split.
  - intros ->. rewrite assigned_count_push. lia.
  - intros Hne t l. rewrite lookup_insert. case_decide.
    + intros [= <-] Hnil. by apply app_nil in Hnil as [_ ?].
    + apply Hne.
Qed.

Lemma build_workload_loop_count fs db threads pdf_files st st' :
  build_workload_loop fs db threads pdf_files st = Some st' →
  (bw_total_todo st = assigned_count (bw_workload st) →
   bw_total_todo st' = assigned_count (bw_workload st')) ∧
  ((∀ t l, bw_workload st !! t = Some l → l ≠ []) →
   ∀ t l, bw_workload st' !! t = Some l → l ≠ []).
Proof.
  revert st. induction pdf_files as [|p rest IH]; intros st; simpl.
  - by intros [= <-].
  - destruct (build_workload_body _ _ _ _ _) as [st1|] eqn:Hb; [|done].
    intros Hloop. apply build_workload_body_count in Hb as [Hb1 Hb2].
    apply IH in Hloop as [Hl1 Hl2]. split.
    + intros H0. apply Hl1, Hb1, H0.
    + intros H0. apply Hl2, Hb2, H0.
Qed.

Lemma build_workload_count fs db ncpu pdf_files wl total :
  build_workload fs db ncpu pdf_files = Some (wl, total) →
  total = assigned_count wl ∧ ∀ t l, wl !! t = Some l → l ≠ [].
Proof.
  unfold build_workload.
  destruct (build_workload_loop _ _ _ _ _) as [st|] eqn:Hloop; [|done].
  intros [= <- <-]. apply build_workload_loop_count in Hloop as [H1 H2].
  split; [by apply H1|]. apply H2. simpl. intros t l. by rewrite lookup_empty.
Qed.

Lemma build_workload_total fs db ncpu pdf_files :
  Forall (λ p, is_Some (fs !! p)) pdf_files →
  ∃ wl total, build_workload fs db ncpu pdf_files = Some (wl, total).
Proof.
  intros Hall. unfold build_workload.
  destruct (build_workload_loop_total fs db (threads_of ncpu) pdf_files
              (BwState 0 ∅ 0) Hall) as [st ->].
  eauto.
Qed.

(** C2. The partitioner leaves a candidate out of the work exactly when the
    database holds a record for its path whose stored (mtime, size) equals
    the current one; any other candidate is assigned, with its current
    fingerprint as snapshot. *)
Theorem skipped_iff_identical_fingerprint
    (fs : filesystem) (db : database) (ncpu : Z) (pdf_files : list string) :
  Forall (λ p, is_Some (fs !! p)) pdf_files →
  ∃ wl total,
    build_workload fs db ncpu pdf_files = Some (wl, total) ∧
    ∀ path s, path ∈ pdf_files → fs !! path = Some s →
      ((∀ it, assigned wl it → item_path it ≠ path) ↔
       (∃ r, db !! path = Some r ∧
             mtime r = py_int (st_mtime s) ∧ fsize r = st_size s)) ∧
      ((¬ ∃ r, db !! path = Some r ∧
               mtime r = py_int (st_mtime s) ∧ fsize r = st_size s) →
       assigned wl (WorkItem path (py_int (st_mtime s)) (st_size s))).
Proof.
  intros Hall.
  destruct (build_workload_total fs db ncpu pdf_files Hall) as (wl & total & Hbw).
  exists wl, total. split; [done|].
  apply build_workload_round_robin in Hbw as [Hrr _].
  pose proof (λ it, round_robin_assigned _ _ _ it (slots_pos ncpu) Hrr) as Hasg.
  intros path s Hin Hs.
  assert (snapshot fs path = Some (WorkItem path (py_int (st_mtime s)) (st_size s)))
    as Hsnap by (unfold snapshot; by rewrite Hs).
  rewrite <- unchanged_true.
  assert (unchanged db path (py_int (st_mtime s)) (st_size s) ≠ true →
          assigned wl (WorkItem path (py_int (st_mtime s)) (st_size s))) as Hout.
  { intros Hu. apply Hasg, elem_of_outstanding. exists path.
    split_and!; [done..|]. simpl. by destruct (unchanged _ _ _ _). }
  split; [split|done].
  - intros Hnone.
    destruct (unchanged db path _ _) eqn:Hu; [done|].
    exfalso. eapply Hnone; [apply Hout; congruence|done].
  - intros Hu it Hit Hpath.
    apply Hasg, elem_of_outstanding in Hit as (path' & _ & Hs' & Hu').
    pose proof (snapshot_path _ _ _ Hs') as Hp. rewrite Hpath in Hp. subst path'.
    rewrite Hsnap in Hs'. injection Hs' as <-. simpl in Hu'. congruence.
Qed.

Lemma skipped_iff_identical_fingerprint_witness :
  ∃ wl total,
    build_workload example_fs example_index 8
      ["/docs/a.pdf"; "/docs/b.pdf"; "/docs/c.pdf"] = Some (wl, total) ∧
    ∀ path s,
      path ∈ ["/docs/a.pdf"; "/docs/b.pdf"; "/docs/c.pdf"] →
      example_fs !! path = Some s →
      ((∀ it, assigned wl it → item_path it ≠ path) ↔
       (∃ r, example_index !! path = Some r ∧
             mtime r = py_int (st_mtime s) ∧ fsize r = st_size s)) ∧
      ((¬ ∃ r, example_index !! path = Some r ∧
               mtime r = py_int (st_mtime s) ∧ fsize r = st_size s) →
       assigned wl (WorkItem path (py_int (st_mtime s)) (st_size s))).
Proof.
  apply (skipped_iff_identical_fingerprint example_fs example_index 8).
  repeat constructor; vm_compute; eauto.
Defined.

(** The slots in use are the first [min (slots ncpu) total] ones. *)
Lemma build_workload_dom fs db ncpu pdf_files wl total :
  build_workload fs db ncpu pdf_files = Some (wl, total) →
  ∀ t, is_Some (wl !! t) ↔ (t < slots ncpu ∧ t < total)%nat.
Proof.
  intros Hbw t.
  pose proof (build_workload_count _ _ _ _ _ _ Hbw) as [_ Hne].
  apply build_workload_round_robin in Hbw as [Hrr ->].
  specialize (Hrr t 0%nat). unfold slot_at in Hrr. simpl in Hrr. split.
  - intros [l Hl]. rewrite Hl in Hrr. specialize (Hne t l Hl).
    destruct l as [|it l]; [done|]. simpl in Hrr.
    case_decide; [|done]. split; [done|].
    symmetry in Hrr. by apply lookup_lt_Some in Hrr.
  - intros [Ht Hlen]. rewrite decide_True in Hrr by done.
    apply lookup_lt_is_Some_2 in Hlen as [it Hit]. rewrite Hit in Hrr.
    destruct (wl !! t); [eauto|done].
Qed.

(** No outstanding work, no slot. *)
Lemma build_workload_nothing_todo fs db ncpu pdf_files wl :
  build_workload fs db ncpu pdf_files = Some (wl, 0%nat) → wl = ∅.
Proof.
  intros Hbw. apply map_empty. intros t. apply eq_None_not_Some.
  rewrite (build_workload_dom _ _ _ _ _ _ Hbw). lia.
Qed.

(** C3, as the code has it. When every candidate can be read, the
    partitioner returns; the items in the slots are exactly the snapshots of
    the candidates whose fingerprint is absent from the database or differs
    from the stored one; the k-th such candidate of the list sits in slot
    [k mod W] at position [k / W] and the slots hold nothing else, so each
    occurrence of a candidate is assigned once; when no path is listed
    twice, no item sits at two slot positions; and the returned total is the
    number of assigned items. *)
Theorem partition_deals_outstanding_round_robin
    (fs : filesystem) (db : database) (ncpu : Z) (pdf_files : list string) :
  Forall (λ p, is_Some (fs !! p)) pdf_files →
  ∃ wl total,
    build_workload fs db ncpu pdf_files = Some (wl, total) ∧
    (∀ it, assigned wl it ↔
           ∃ path s, path ∈ pdf_files ∧ fs !! path = Some s ∧
             it = WorkItem path (py_int (st_mtime s)) (st_size s) ∧
             ¬ ∃ r, db !! path = Some r ∧
                    mtime r = py_int (st_mtime s) ∧ fsize r = st_size s) ∧
    round_robin (slots ncpu) (outstanding fs db pdf_files) wl ∧
    (NoDup pdf_files → no_item_twice wl) ∧
    total = length (outstanding fs db pdf_files) ∧
    total = assigned_count wl.
Proof.
  intros Hall.
  destruct (build_workload_total fs db ncpu pdf_files Hall) as (wl & total & Hbw).
  exists wl, total. split; [done|].
  pose proof (build_workload_count _ _ _ _ _ _ Hbw) as [Hcount _].
  apply build_workload_round_robin in Hbw as [Hrr Htot].
  split_and!; [|done| |done..].
  - intros it. rewrite (round_robin_assigned _ _ _ it (slots_pos ncpu) Hrr).
    rewrite elem_of_outstanding. split.
    + intros (path & Hin & Hs & Hu). unfold snapshot in Hs.
      destruct (fs !! path) as [s|] eqn:Hfs; [|done]. injection Hs as <-.
      exists path, s. split_and!; [done..|]. simpl in Hu.
      rewrite <- unchanged_true. congruence.
    + intros (path & s & Hin & Hfs & -> & Hu). exists path.
      unfold snapshot. rewrite Hfs. split_and!; [done..|]. simpl.
      rewrite <- unchanged_true in Hu. by destruct (unchanged _ _ _ _).
  - intros Hnd. eapply round_robin_no_item_twice; [apply slots_pos| |done].
    by apply outstanding_NoDup.
Qed.

Lemma partition_deals_outstanding_round_robin_witness :
  ∃ wl total,
    build_workload example_fs example_index 4
      ["/docs/a.pdf"; "/docs/b.pdf"; "/docs/c.pdf"] = Some (wl, total) ∧
    (∀ it, assigned wl it ↔
           ∃ path s, path ∈ ["/docs/a.pdf"; "/docs/b.pdf"; "/docs/c.pdf"] ∧
             example_fs !! path = Some s ∧
             it = WorkItem path (py_int (st_mtime s)) (st_size s) ∧
             ¬ ∃ r, example_index !! path = Some r ∧
                    mtime r = py_int (st_mtime s) ∧ fsize r = st_size s) ∧
    round_robin (slots 4)
      (outstanding example_fs example_index
         ["/docs/a.pdf"; "/docs/b.pdf"; "/docs/c.pdf"]) wl ∧
    (NoDup ["/docs/a.pdf"; "/docs/b.pdf"; "/docs/c.pdf"] → no_item_twice wl) ∧
    total = length (outstanding example_fs example_index
                      ["/docs/a.pdf"; "/docs/b.pdf"; "/docs/c.pdf"]) ∧
    total = assigned_count wl.
Proof.
  apply (partition_deals_outstanding_round_robin example_fs example_index 4).
  repeat constructor; vm_compute; eauto.
Defined.

(** C3, as the specification words it, fails when a path is listed twice
    (two overlapping roots): both occurrences are dealt, to two slots. *)
Lemma partition_claim_fails_on_repeated_candidate :
  ¬ partition_claim example_fs ∅ 4 ["/docs/a.pdf"; "/docs/a.pdf"].
Proof.
  intros Hclaim.
  destruct (build_workload example_fs ∅ 4 ["/docs/a.pdf"; "/docs/a.pdf"])
    as [[wl total]|] eqn:Hbw; [|by vm_compute in Hbw].
  destruct (Hclaim wl total Hbw) as (_ & Htwice & _).
  vm_compute in Hbw. injection Hbw as <- <-.
  destruct (Htwice 0 0 1 0 (WorkItem "/docs/a.pdf" 1700000000 100))%nat
    as [Hslot _]; [reflexivity..|discriminate].
Qed.

(** C4, as the code has it. The deal is round-robin over
    [W = max(1, ceil(ncpu / 2))] slots, the least [W >= 1] with
    [ncpu <= 2 W]; the slots in use are those below [min(W, total)]; and [W]
    is the specification's [max(1, floor(ncpu / 2))] exactly when [ncpu] is
    even or at most 1. *)
Theorem slot_count_is_half_rounded_up
    (fs : filesystem) (db : database) (ncpu : Z) (pdf_files : list string)
    (wl : workload_map) (total : nat) :
  build_workload fs db ncpu pdf_files = Some (wl, total) →
  let W := Z.to_nat (Z.max 1 ((ncpu + 1) / 2)) in
  round_robin W (outstanding fs db pdf_files) wl ∧
  (∀ t, is_Some (wl !! t) ↔ (t < W ∧ t < total)%nat) ∧
  ((1 ≤ W)%nat ∧ ncpu ≤ 2 * Z.of_nat W ∧
   ∀ W' : nat, (1 ≤ W')%nat → ncpu ≤ 2 * Z.of_nat W' → (W ≤ W')%nat) ∧
  (W = slots_spec ncpu ↔ ncpu mod 2 = 0 ∨ ncpu ≤ 1).
Proof.
  intros Hbw W. fold (slots ncpu) in W. subst W. split_and!.
  - by apply build_workload_round_robin in Hbw as [Hrr _].
  - by apply (build_workload_dom _ _ _ _ _ _ Hbw).
  - apply slots_pos.
  - unfold slots. Z.div_mod_to_equations. lia.
  - intros W' HW' Hncpu. unfold slots. Z.div_mod_to_equations. lia.
  - unfold slots, slots_spec. Z.div_mod_to_equations. lia.
Qed.

Lemma slot_count_is_half_rounded_up_witness :
  let wl : workload_map :=
    {[ 0%nat := [WorkItem "/docs/a.pdf" 1700000000 100;
                 WorkItem "/docs/c.pdf" 1700000200 300];
       1%nat := [WorkItem "/docs/b.pdf" 1700000100 200] ]} in
  let W := Z.to_nat (Z.max 1 ((3 + 1) / 2)) in
  round_robin W
    (outstanding example_fs ∅ ["/docs/a.pdf"; "/docs/b.pdf"; "/docs/c.pdf"]) wl ∧
  (∀ t, is_Some (wl !! t) ↔ (t < W ∧ t < 3)%nat) ∧
  ((1 ≤ W)%nat ∧ 3 ≤ 2 * Z.of_nat W ∧
   ∀ W' : nat, (1 ≤ W')%nat → 3 ≤ 2 * Z.of_nat W' → (W ≤ W')%nat) ∧
  (W = slots_spec 3 ↔ 3 mod 2 = 0 ∨ 3 ≤ 1).
Proof.
  apply (slot_count_is_half_rounded_up example_fs ∅ 3
           ["/docs/a.pdf"; "/docs/b.pdf"; "/docs/c.pdf"]).
  vm_compute. reflexivity.
Defined.

(** C4, as the specification words it, fails for three cores: the code
    deals over two slots, [max(1, floor(3 / 2))] is one. *)
Lemma slot_count_claim_fails_for_three_cores :
  ¬ slot_count_claim example_fs ∅ 3 ["/docs/a.pdf"; "/docs/b.pdf"].
Proof.
  intros Hclaim.
  destruct (build_workload example_fs ∅ 3 ["/docs/a.pdf"; "/docs/b.pdf"])
    as [[wl total]|] eqn:Hbw; [|by vm_compute in Hbw].
  pose proof (Hclaim wl total Hbw 1%nat 0%nat) as Hslot.
  vm_compute in Hbw. injection Hbw as <- <-.
  vm_compute in Hslot. discriminate.
Qed.

(** ** Reconciler *)

Lemma path_in_paths_spec path path_list :
  path_in_paths path path_list = true ↔ has_prefix_in path_list path.
Proof.
  unfold has_prefix_in. induction path_list as [|item rest IH]; simpl.
  - split; [done|]. intros (? & ? & H & _). by apply elem_of_nil in H.
  - case_decide as Htake.
    + split; [|done]. intros _.
      apply PyStrFacts.startswith_take, PyStrFacts.startswith_spec in Htake
        as [t Ht].
      exists item, t. split; [left|done].
    + rewrite IH. split.
      * intros (it & t & Hin & Ht). exists it, t. split; [by right|done].
      * intros (it & t & Hin & Ht).
        apply elem_of_cons in Hin as [->|Hin]; [|by exists it, t].
        destruct Htake.
        apply PyStrFacts.startswith_take, PyStrFacts.startswith_spec. eauto.
Qed.

Lemma cleanup_scan_spec roots files ignore keys path :
  path ∈ (cleanup_scan roots files ignore keys).1 ↔
  path ∈ keys ∧ stale roots files ignore path.
Proof.
  unfold stale. rewrite <- !path_in_paths_spec.
  induction keys as [|k rest IH]; simpl.
  - rewrite !elem_of_nil. tauto.
  - destruct (cleanup_scan roots files ignore rest) as [to_remove out] eqn:Hscan.
    simpl in IH. rewrite elem_of_cons.
    destruct (path_in_paths k roots) eqn:Hroot; simpl.
    + case_bool_decide as Hfile; simpl.
      * rewrite elem_of_cons, IH.
        split; [intros [->|?]|intros [[->|?] ?]]; tauto.
      * destruct (path_in_paths k ignore) eqn:Hign; simpl.
        -- rewrite elem_of_cons, IH.
           split; [intros [->|?]|intros [[->|?] ?]]; tauto.
        -- rewrite IH. split; [tauto|].
           intros [[->|?] (? & [?|?])]; [done|congruence|tauto..].
    + rewrite IH. split; [tauto|].
      intros [[->|?] (? & ?)]; [congruence|tauto].
Qed.

Lemma cleanup_scan_NoDup roots files ignore keys :
  NoDup keys → NoDup (cleanup_scan roots files ignore keys).1.
Proof.
  induction 1 as [|k rest Hk Hnd IH]; simpl; [constructor|].
  pose proof (cleanup_scan_spec roots files ignore rest k) as Hspec.
  destruct (cleanup_scan roots files ignore rest) as [to_remove out].
  simpl in *.
  assert (k ∉ to_remove) by (rewrite Hspec; tauto).
  repeat (case_match; simpl); try done; by constructor.
Qed.

(** Popping distinct keys of the dictionary never raises and deletes
    exactly those keys. *)
Lemma pop_all_spec to_remove (db : database) :
  NoDup to_remove → (∀ p, p ∈ to_remove → is_Some (db !! p)) →
  ∃ db', pop_all to_remove db = Some db' ∧
         ∀ p, db' !! p = if decide (p ∈ to_remove) then None else db !! p.
Proof.
  intros Hnd. revert db.
  induction Hnd as [|k rest Hk Hnd IH]; intros db Hin; cbn [pop_all].
  - exists db. split; [done|]. intros p.
    case_decide as Hp; [by apply elem_of_nil in Hp|done].
  - destruct (Hin k) as [r Hr]; [left|]. rewrite Hr.
    destruct (IH (delete k db)) as (db' & Hpop & Hlook).
    { intros p Hp. rewrite lookup_delete_ne by (intros ->; done).
      apply Hin. by right. }
    exists db'. split; [done|]. intros p. rewrite Hlook.
    destruct (decide (p = k)) as [->|Hne].
    + rewrite decide_False by done. rewrite lookup_delete_eq.
      by rewrite decide_True by left.
    + rewrite lookup_delete_ne by done.
      destruct (decide (p ∈ rest)).
      * by rewrite decide_True by (by right).
      * rewrite decide_False; [done|]. by intros [?|?]%elem_of_cons.
Qed.

Lemma elem_of_dict_keys {V} (d : gmap string V) path :
  path ∈ dict_keys d ↔ is_Some (d !! path).
Proof.
  unfold dict_keys. rewrite list_elem_of_fmap. split.
  - intros ([k v] & -> & Hin). apply elem_of_map_to_list in Hin. eauto.
  - intros [v Hv]. exists (path, v). split; [done|].
    by apply elem_of_map_to_list.
Qed.

(** [cleanup] never raises: the keys it pops are distinct keys of the
    dictionary. *)
Lemma cleanup_returns paths_to_index pdf_files paths_to_ignore (c : coord) :
  is_Some (cleanup paths_to_index pdf_files paths_to_ignore c).
Proof.
  unfold cleanup.
  pose proof (cleanup_scan_spec paths_to_index pdf_files paths_to_ignore
                (dict_keys (co_database c))) as Hspec.
  pose proof (cleanup_scan_NoDup paths_to_index pdf_files paths_to_ignore
                (dict_keys (co_database c))) as Hnd.
  destruct (cleanup_scan _ _ _ _) as [to_remove out]. simpl in *.
  destruct (pop_all_spec to_remove (co_database c)) as (db' & -> & _); [| |done].
  - apply Hnd. unfold dict_keys. apply NoDup_fst_map_to_list.
  - intros p [Hp _]%Hspec. by apply elem_of_dict_keys.
Qed.




(** ** Names of staging files *)

Module NameFacts.
Import PyStr.

Lemma take_drop n s : take n s +:+ drop n s = s.
Proof.
  revert s. induction n as [|n IH]; intros [|c s]; simpl; try done.
  change (String c (take n s) +:+ drop n s)
    with (String c (take n s +:+ drop n s)).
  by rewrite IH.
Qed.

Lemma app_assoc (a b c : string) : (a +:+ b) +:+ c = a +:+ (b +:+ c).
Proof.
  induction a as [|x a IH]; [done|].
  change (String x ((a +:+ b) +:+ c) = String x (a +:+ (b +:+ c))).
  by rewrite IH.
Qed.

Lemma app_empty_r (a : string) : a +:+ "" = a.
Proof.
  induction a as [|x a IH]; [done|].
  change (String x (a +:+ "") = String x a). by rewrite IH.
Qed.

Lemma pretty_N_char_digit x : is_digit_char (pretty_N_char x) = true.
Proof. unfold pretty_N_char. by repeat case_match. Qed.

Lemma all_digits_pretty_N_go x s :
  all_digits (pretty_N_go x s) = all_digits s.
Proof.
  revert s. induction (N.lt_wf_0 x) as [x _ IH]; intros s.
  destruct (decide (x = 0)%N) as [->|Hx]; [by rewrite pretty_N_go_0|].
  rewrite pretty_N_go_step by lia.
  rewrite IH by (apply N.div_lt; lia). simpl.
  by rewrite pretty_N_char_digit.
Qed.

Lemma pretty_N_go_nonempty x s : s ≠ "" → pretty_N_go x s ≠ "".
Proof.
  revert s. induction (N.lt_wf_0 x) as [x _ IH]; intros s Hs.
  destruct (decide (x = 0)%N) as [->|Hx]; [by rewrite pretty_N_go_0|].
  rewrite pretty_N_go_step by lia. apply IH; [apply N.div_lt; lia|done].
Qed.

Lemma pretty_nat_digits (i : nat) :
  pretty i ≠ "" ∧ all_digits (pretty i) = true.
Proof.
  unfold pretty, pretty_nat, pretty, pretty_N.
  case_decide as Hi; [done|].
  rewrite all_digits_pretty_N_go. split; [|done].
  rewrite pretty_N_go_step by lia. by apply pretty_N_go_nonempty.
Qed.

Lemma isdigit_final_name i : isdigit (final_name i) = true.
Proof.
  unfold final_name. destruct (pretty_nat_digits i) as [Hne Hd].
  unfold isdigit. by destruct (pretty i).
Qed.

Lemma isdigit_tmp_name i : isdigit (tmp_name i) = false.
Proof.
  unfold tmp_name.
  assert (∀ a, all_digits (a +:+ ".tmp") = false) as Hall.
  { induction a as [|c a IH]; [done|].
    change (is_digit_char c && all_digits (a +:+ ".tmp") = false).
    rewrite IH. apply andb_false_r. }
  specialize (Hall (pretty i)). unfold isdigit.
  by destruct (pretty i +:+ ".tmp").
Qed.

Lemma tmp_name_not_published i name : isdigit name = true → tmp_name i ≠ name.
Proof. intros Hd <-. by rewrite isdigit_tmp_name in Hd. Qed.

End NameFacts.

(** ** The staging protocol *)

Section StagingFacts.

Context `{Collaborators}.

Lemma ocr_pages_texts path doc n :
  (ocr_pages path doc n).2 = ocr_texts doc.
Proof.
  revert n. induction doc as [|img doc IH]; intros n; simpl; [done|].
  unfold ocr_texts. simpl. destruct (image_to_string img) as [txt|]; [|done].
  specialize (IH (n + 1)%nat). destruct (ocr_pages path doc (n + 1)) as [out text].
  simpl in *. rewrite IH. unfold ocr_texts. by destruct (mapM _ _).
Qed.

(** The invariant only looks at the files, the workers and what was
    read. *)
Lemma staging_inv_ext s s' :
  sys_files s' = sys_files s → sys_workers s' = sys_workers s →
  sys_read s' = sys_read s → staging_inv s → staging_inv s'.
Proof.
  intros Hf Hw Hr [Hpub Hwr Hrd]. split.
  - intros t name content. rewrite Hf. apply Hpub.
  - intros t w pending. rewrite Hw, Hf. apply Hwr.
  - intros content. rewrite Hr. apply Hrd.
Qed.

(** A worker that moves on without touching a file. *)
Lemma staging_inv_idle s t w :
  (∀ pending, w_pc w ≠ Writing pending) →
  staging_inv s → staging_inv (set_worker t w s).
Proof.
  intros Hidle [Hpub Hwr Hrd]. split; simpl; [done| |done].
  intros t' w' pending. rewrite lookup_insert. case_decide as Ht.
  - intros [= <-] Hpc. by destruct (Hidle pending).
  - apply Hwr.
Qed.

(** [open(item_file, 'w')] after a successful conversion. *)
Lemma staging_inv_open s t i item rest text :
  good_obj (staged item text) →
  staging_inv s →
  staging_inv
    (set_worker t (Worker (item :: rest) i (Writing (json_dumps (staged item text))))
       (set_files (<[(t, tmp_name i) := ""]> (sys_files s)) s)).
Proof.
  intros Hgood [Hpub Hwr Hrd]. split; simpl; [| |done].
  - intros t' name content. rewrite lookup_insert. case_decide as Hk.
    + injection Hk as <- <-. intros _ Hd.
      by rewrite NameFacts.isdigit_tmp_name in Hd.
    + apply Hpub.
  - intros t' w' pending. rewrite lookup_insert. case_decide as Ht.
    + subst t'. intros [= <-] [= <-]. simpl.
      exists item, rest, text, "". rewrite lookup_insert_eq. done.
    + intros Hw' Hpc. destruct (Hwr t' w' pending Hw' Hpc)
        as (it & rs & tx & content & Htodo & Hfile & Hcont & Hg).
      exists it, rs, tx, content. split_and!; [done| |done..].
      rewrite lookup_insert_ne; [done|]. intros [= ? _]. done.
Qed.

(** Some more of the object reaches the open file. *)
Lemma staging_inv_write s t w pending chunk :
  sys_workers s !! t = Some w → w_pc w = Writing pending →
  staging_inv s →
  staging_inv
    (set_worker t
       (Worker (w_todo w) (w_i w) (Writing (PyStr.drop (S chunk) pending)))
       (set_files
          (alter (λ content, content +:+ PyStr.take (S chunk) pending)
             (t, tmp_name (w_i w)) (sys_files s)) s)).
Proof.
  intros Hw Hpc [Hpub Hwr Hrd]. split; simpl; [| |done].
  - intros t' name content. rewrite lookup_alter. case_decide as Hk.
    + injection Hk as <- <-. intros _ Hd.
      by rewrite NameFacts.isdigit_tmp_name in Hd.
    + apply Hpub.
  - intros t' w' pending'. rewrite lookup_insert. case_decide as Ht.
    + subst t'. intros [= <-] [= <-]. simpl.
      destruct (Hwr t w pending Hw Hpc)
        as (it & rs & tx & content & Htodo & Hfile & Hcont & Hg).
      exists it, rs, tx, (content +:+ PyStr.take (S chunk) pending).
      split_and!; [done| | |done].
      * rewrite lookup_alter_eq, Hfile. done.
      * by rewrite NameFacts.app_assoc, NameFacts.take_drop.
    + intros Hw' Hpc'. destruct (Hwr t' w' pending' Hw' Hpc')
        as (it & rs & tx & content & Htodo & Hfile & Hcont & Hg).
      exists it, rs, tx, content. split_and!; [done| |done..].
      rewrite lookup_alter_ne; [done|]. intros [= ? _]. done.
Qed.

(** [os.rename] of the closed file to its final name. *)
Lemma staging_inv_rename s t w content :
  sys_workers s !! t = Some w → w_pc w = Writing "" →
  sys_files s !! (t, tmp_name (w_i w)) = Some content →
  staging_inv s →
  staging_inv
    (set_worker t (Worker (tail (w_todo w)) (w_i w + 1) AtItem)
       (set_files
          (<[(t, final_name (w_i w)) := content]>
             (delete (t, tmp_name (w_i w)) (sys_files s))) s)).
Proof.
  intros Hw Hpc Hfile [Hpub Hwr Hrd]. split; simpl; [| |done].
  - intros t' name content'. rewrite lookup_insert. case_decide as Hk.
    + injection Hk as <- <-. intros [= <-] _.
      destruct (Hwr t w "" Hw Hpc)
        as (it & rs & tx & content' & Htodo & Hfile' & Hcont & Hg).
      rewrite Hfile in Hfile'. injection Hfile' as <-.
      rewrite NameFacts.app_empty_r in Hcont. by exists (staged it tx).
    + rewrite lookup_delete. case_decide; [done|]. apply Hpub.
  - intros t' w' pending'. rewrite lookup_insert. case_decide as Ht.
    + intros [= <-]. done.
    + intros Hw' Hpc'. destruct (Hwr t' w' pending' Hw' Hpc')
        as (it & rs & tx & content' & Htodo & Hfile' & Hcont & Hg).
      exists it, rs, tx, content'. split_and!; [done| |done..].
      rewrite lookup_insert_ne by (intros [= ? _]; done).
      rewrite lookup_delete_ne by (intros [= ? _]; done). done.
Qed.

(** A step of a worker keeps the invariant. *)
Lemma worker_step_inv t chunk s s' :
  staging_inv s → worker_step t chunk s = Some s' → staging_inv s'.
Proof.
  intros Hinv. unfold worker_step.
  destruct (sys_workers s !! t) as [w|] eqn:Hw; [|done].
  destruct (w_pc w) as [|pending| |] eqn:Hpc; [| |done..].
  - destruct (w_todo w) as [|item rest] eqn:Htodo.
    { intros [= <-]. by apply staging_inv_idle. }
    destruct (convert_from_path (item_path item)) as [doc|msg|] eqn:Hconv.
    + pose proof (ocr_pages_texts (item_path item) doc 0) as Htexts.
      destruct (ocr_pages (item_path item) doc 0) as [out [text|]];
        simpl in Htexts; intros [= <-].
      * apply (staging_inv_open (print out (count_calls 1 (length out) s))
                 t (w_i w) item rest text).
        -- exists doc. done.
        -- by apply (staging_inv_ext s).
      * apply staging_inv_idle; [done|].
        by apply (staging_inv_ext s).
    + intros [= <-]. apply staging_inv_idle; [done|].
      by apply (staging_inv_ext s).
    + intros [= <-]. apply staging_inv_idle; [done|].
      by apply (staging_inv_ext s).
  - destruct pending as [|c pending].
    + destruct (sys_files s !! (t, tmp_name (w_i w))) as [content|] eqn:Hfile;
        intros [= <-].
      * by apply staging_inv_rename.
      * by apply staging_inv_idle.
    + intros [= <-]. by apply (staging_inv_write s t w (String c pending) chunk).
Qed.

(** The coordinator only consumes published files. *)
Lemma merge_file_inv t name s s' :
  staging_inv s → merge_file t name s = Some (inl s') → staging_inv s'.
Proof.
  intros [Hpub Hwr Hrd]. unfold merge_file.
  destruct (sys_files s !! (t, name)) as [content|] eqn:Hfile; [|done].
  destruct (PyStr.isdigit name) eqn:Hd; [|by intros [= <-]].
  destruct (json_loads content) as [obj|]; [|done].
  intros [= <-]. split; simpl.
  - intros t' name' content'. rewrite lookup_delete.
    case_decide; [done|]. apply Hpub.
  - intros t' w pending Hw Hpc.
    destruct (Hwr t' w pending Hw Hpc)
      as (it & rs & tx & content' & Htodo & Hfile' & Hcont & Hg).
    exists it, rs, tx, content'. split_and!; [done| |done..].
    rewrite lookup_delete_ne; [done|]. intros [= -> ->].
    by rewrite NameFacts.isdigit_tmp_name in Hd.
  - intros content' [->|Hin]%elem_of_cons; [by eapply Hpub|by apply Hrd].
Qed.

Lemma step_inv a s s' : staging_inv s → step a s = Some s' → staging_inv s'.
Proof.
  intros Hinv. destruct a as [t chunk|t name]; simpl.
  - by apply worker_step_inv.
  - destruct (merge_file t name s) as [[s1|]|] eqn:Hm; [|done..].
    intros [= <-]. by eapply merge_file_inv.
Qed.

Lemma run_inv acts s s' : staging_inv s → run acts s = Some s' → staging_inv s'.
Proof.
  revert s. induction acts as [|a acts IH]; intros s Hinv; simpl.
  - by intros [= <-].
  - destruct (step a s) as [s1|] eqn:Hstep; [|done].
    apply IH. by eapply step_inv.
Qed.

Lemma spawn_inv workload c : staging_inv (spawn workload c).
Proof.
  split; simpl.
  - intros t name content. by rewrite lookup_empty.
  - intros t w pending. rewrite lookup_fmap.
    destruct (workload !! t); simpl; [|done]. by intros [= <-].
  - intros content Hin. by apply elem_of_nil in Hin.
Qed.

Lemma reachable_inv workload c s :
  reachable (spawn workload c) s → staging_inv s.
Proof. intros [acts Hrun]. eapply run_inv; [apply spawn_inv|done]. Qed.

End StagingFacts.

(** ** Merging *)

Section MergeFacts.

Context `{Collaborators}.
Hypothesis json_roundtrip : ∀ obj, json_loads (json_dumps obj) = Some obj.

Lemma good_obj_holds obj :
  good_obj obj →
  holds_ocr_texts (obj_path obj)
    (DocRecord (obj_mtime obj) (obj_fsize obj) (obj_pages obj)).
Proof.
  intros (doc & Hconv & Htexts). exists doc. split; [done|].
  simpl. by apply mapM_Some.
Qed.

Lemma merged_from_insert db0 db path r :
  merged_from db0 db → holds_ocr_texts path r →
  merged_from db0 (<[path := r]> db).
Proof.
  intros Hm Hr p. destruct (decide (path = p)) as [<-|Hne].
  - right. exists r. by rewrite lookup_insert_eq.
  - rewrite lookup_insert_ne by done. apply Hm.
Qed.

(** What a merge of a published file does. *)
Lemma merge_file_published t name content s :
  staging_inv s →
  sys_files s !! (t, name) = Some content → PyStr.isdigit name = true →
  ∃ obj, content = json_dumps obj ∧ good_obj obj ∧
    merge_file t name s =
      Some (inl (System (delete (t, name) (sys_files s)) (sys_workers s)
                   (sys_stdout s)
                   (Coord
                      (<[obj_path obj :=
                           DocRecord (obj_mtime obj) (obj_fsize obj)
                             (obj_pages obj)]> (co_database (sys_coord s)))
                      (<[obj_path obj :=
                           DocRecord (obj_mtime obj) (obj_fsize obj)
                             (obj_pages obj)]> (co_database (sys_coord s))
                         :: co_db_file (sys_coord s))
                      (co_pdfs_done (sys_coord s) + 1))
                   (sys_converts s) (sys_ocr_calls s)
                   (content :: sys_read s))).
Proof.
  intros Hinv Hfile Hd.
  destruct (inv_published s Hinv t name content Hfile Hd) as (obj & -> & Hgood).
  exists obj. split_and!; [done..|].
  unfold merge_file. by rewrite Hfile, Hd, json_roundtrip.
Qed.

Lemma merge_file_coord_inv c0 t name s s' :
  staging_inv s → coord_inv c0 s →
  merge_file t name s = Some (inl s') → coord_inv c0 s'.
Proof.
  intros Hinv [Hdb (saved & Hfile & Hsaved & Hnil & Hhead)] Hmerge.
  destruct (sys_files s !! (t, name)) as [content|] eqn:Hf;
    [|unfold merge_file in Hmerge; by rewrite Hf in Hmerge].
  destruct (PyStr.isdigit name) eqn:Hd.
  - destruct (merge_file_published t name content s Hinv Hf Hd)
      as (obj & -> & Hgood & Heq).
    rewrite Heq in Hmerge. injection Hmerge as <-.
    pose proof (merged_from_insert _ _ _ _ Hdb (good_obj_holds obj Hgood)) as Hnew.
    split; simpl; [done|].
    eexists (_ :: saved). rewrite Hfile. split_and!; [done| |done|done].
    by constructor.
  - unfold merge_file in Hmerge. rewrite Hf, Hd in Hmerge.
    injection Hmerge as <-. split; [done|]. by exists saved.
Qed.

Lemma worker_step_coord t chunk s s' :
  worker_step t chunk s = Some s' → sys_coord s' = sys_coord s.
Proof.
  unfold worker_step. intros Hstep.
  repeat (case_match; simplify_eq/=); done.
Qed.

Lemma step_coord_inv c0 a s s' :
  staging_inv s → coord_inv c0 s → step a s = Some s' → coord_inv c0 s'.
Proof.
  intros Hinv Hc. destruct a as [t chunk|t name]; simpl.
  - intros Hstep%worker_step_coord. destruct Hc as [Hdb Hfile].
    split; by rewrite Hstep.
  - destruct (merge_file t name s) as [[s1|]|] eqn:Hm; [|done..].
    intros [= <-]. by eapply merge_file_coord_inv.
Qed.

Lemma run_coord_inv c0 acts s s' :
  staging_inv s → coord_inv c0 s → run acts s = Some s' → coord_inv c0 s'.
Proof.
  revert s. induction acts as [|a acts IH]; intros s Hinv Hc; simpl.
  - by intros [= <-].
  - destruct (step a s) as [s1|] eqn:Hstep; [|done].
    apply IH; [by eapply step_inv|by eapply step_coord_inv].
Qed.

Lemma reachable_coord_inv workload c s :
  reachable (spawn workload c) s → coord_inv c s.
Proof.
  intros [acts Hrun]. eapply run_coord_inv; [apply spawn_inv| |done].
  split; simpl.
  - intros p. by left.
  - exists []. split_and!; [done|constructor|done|done].
Qed.

End MergeFacts.

(** ** The stand-in serialisation *)

Lemma bits_to_pos_to_bits p : bits_to_pos (pos_to_bits p) = p.
Proof. induction p as [p IH|p IH|]; simpl; [by rewrite IH..|done]. Qed.

Lemma bits_roundtrip obj : bits_loads (bits_dumps obj) = Some obj.
Proof.
  unfold bits_loads, bits_dumps. rewrite bits_to_pos_to_bits, decode_encode.
  by destruct obj.
Qed.

(** ** Claims about workers and coordinator *)

(** C6. In every state that workers and coordinator can reach, a worker
    writes the serialised record under the temporary name and publishes it
    by renaming the finished file to its sequence number, every file named
    by a number holds a whole record, the coordinator merges no other
    file, and what it has read was never a partly written result. *)
Theorem coordinator_never_sees_partial_result `{Collaborators}
    (workload : workload_map) (c : coord) (s : system) :
  reachable (spawn workload c) s → staging_protocol s.
Proof.
  intros Hreach. pose proof (reachable_inv _ _ _ Hreach) as Hinv.
  destruct Hinv as [Hpub Hwr Hrd]. split_and!; [| |done| |done].
  - intros t w item rest doc text chunk Hw Hpc Htodo Hconv Htexts.
    unfold worker_step. rewrite Hw, Hpc, Htodo, Hconv.
    pose proof (ocr_pages_texts (item_path item) doc 0) as Hocr.
    destruct (ocr_pages (item_path item) doc 0) as [out text']. simpl in Hocr.
    rewrite Hocr, Htexts. eexists. split_and!; [done..|].
    simpl. by rewrite lookup_insert_eq.
  - intros t w pending Hw Hpc.
    destruct (Hwr t w pending Hw Hpc)
      as (item & rest & text & content & Htodo & Hfile & Hcont & Hgood).
    exists item, rest, text, content.
    split_and!; [done..|apply NameFacts.isdigit_tmp_name|].
    intros -> chunk. rewrite NameFacts.app_empty_r in Hcont. subst content.
    unfold worker_step. rewrite Hw, Hpc, Hfile, Htodo.
    eexists. split_and!; [done..|]. simpl. by rewrite lookup_insert_eq.
  - intros t name content Hfile Hd. unfold merge_file. by rewrite Hfile, Hd.
Qed.

Lemma coordinator_never_sees_partial_result_witness :
  reachable (H := example_collaborators)
    (spawn example_workload example_coord) example_state ∧
  staging_protocol (H := example_collaborators) example_state.
Proof.
  assert (reachable (H := example_collaborators)
            (spawn example_workload example_coord) example_state) as Hreach.
  { exists example_actions. vm_compute. reflexivity. }
  split; [exact Hreach|].
  exact (coordinator_never_sees_partial_result (H := example_collaborators)
           example_workload example_coord example_state Hreach).
Defined.

(** C7. With a serialisation that is read back as written, whatever the
    interleaving, the merge of a published staging file stores under the
    document's path the pages of the object, and these are the texts that
    the OCR returned for the page images of that document, one per page
    and in the same order; the database is written to its file at once;
    and every record of the database that was not there before the pass
    holds the OCR texts of its document. *)
Theorem merged_pages_are_the_ocr_texts `{Collaborators}
    (workload : workload_map) (c : coord) (s : system) :
  (∀ obj, json_loads (json_dumps obj) = Some obj) →
  reachable (spawn workload c) s →
  merge_round_trip c s.
Proof.
  intros Hjson Hreach.
  pose proof (reachable_inv _ _ _ Hreach) as Hinv.
  destruct (reachable_coord_inv Hjson _ _ _ Hreach)
    as [Hdb (saved & Hfile & Hsaved & _)].
  split_and!; [|done|by exists saved].
  intros t name content Hf Hd.
  destruct (merge_file_published Hjson t name content s Hinv Hf Hd)
    as (obj & -> & Hgood & Heq).
  eexists obj, _. split_and!; [done|exact Heq|..]; simpl.
  - by rewrite lookup_insert_eq.
  - by apply good_obj_holds.
  - done.
Qed.

Lemma merged_pages_are_the_ocr_texts_witness :
  (∀ obj, bits_loads (bits_dumps obj) = Some obj) ∧
  reachable (H := example_collaborators)
    (spawn example_workload example_coord) example_published_state ∧
  merge_round_trip (H := example_collaborators) example_coord
    example_published_state.
Proof.
  assert (reachable (H := example_collaborators)
            (spawn example_workload example_coord) example_published_state)
    as Hreach.
  { exists (example_actions ++ [WorkerStep 1 5000; WorkerStep 1 0]).
    vm_compute. reflexivity. }
  split_and!; [exact bits_roundtrip|exact Hreach|].
  exact (merged_pages_are_the_ocr_texts (H := example_collaborators)
           example_workload example_coord example_published_state
           bits_roundtrip Hreach).
Defined.

Section FailureFacts.

Context `{Collaborators}.
Hypothesis json_roundtrip : ∀ obj, json_loads (json_dumps obj) = Some obj.

Lemma json_dumps_inj obj1 obj2 : json_dumps obj1 = json_dumps obj2 → obj1 = obj2.
Proof.
  intros Heq. pose proof (json_roundtrip obj1) as H1.
  rewrite Heq, json_roundtrip in H1. congruence.
Qed.

Lemma unchanged_same_entry (db1 db2 : database) path m sz :
  db1 !! path = db2 !! path → unchanged db1 path m sz = unchanged db2 path m sz.
Proof. unfold unchanged. by intros ->. Qed.

(** A path whose conversion does not succeed is never merged. *)
Lemma unconverted_stays_unindexed workload c path :
  (∀ doc, convert_from_path path ≠ Converted doc) →
  stays_unindexed workload c path.
Proof.
  intros Hfail s Hreach.
  pose proof (reachable_inv _ _ _ Hreach) as Hinv.
  destruct (reachable_coord_inv json_roundtrip _ _ _ Hreach) as [Hdb _].
  assert (co_database (sys_coord s) !! path = co_database c !! path) as Hsame.
  { destruct (Hdb path) as [?|(r & _ & doc & Hconv & _)]; [done|].
    by destruct (Hfail doc). }
  split_and!; [done| |].
  - intros name t content Hfile Hd obj -> <-.
    destruct (inv_published s Hinv t name _ Hfile Hd) as (obj' & Heq & doc & Hconv & _).
    apply json_dumps_inj in Heq as <-. by destruct (Hfail doc).
  - intros fs pdf_files it Hpath.
    rewrite !elem_of_outstanding. intros (p & Hin & Hsnap & Hun).
    exists p. split_and!; [done..|].
    pose proof (snapshot_path _ _ _ Hsnap) as Hp. rewrite Hpath in Hp. subst p.
    by rewrite (unchanged_same_entry _ (co_database c)).
Qed.

End FailureFacts.

(** C8, as the code has it. The failure that the worker contains is the
    [PDFPageCountError] of the conversion, the one exception its [try]
    catches.  When the conversion of an item raises it, the
    worker prints the diagnostic line, writes no staging file and does not
    advance its counter, and goes on with the rest of its batch; no state
    of the pass has a staging record or a merged record for that document,
    so its entry of the database is as before the pass and a candidate
    that was outstanding is outstanding again on the next pass. *)
Theorem recoverable_failure_skips_the_item `{Collaborators}
    (workload : workload_map) (c : coord) (s : system) (t : nat) (w : worker)
    (item : work_item) (rest : list work_item) (msg : string) :
  (∀ obj, json_loads (json_dumps obj) = Some obj) →
  reachable (spawn workload c) s →
  sys_workers s !! t = Some w → w_pc w = AtItem → w_todo w = item :: rest →
  convert_from_path (item_path item) = PDFPageCountError msg →
  skips_failed_item s t w item rest msg ∧
  stays_unindexed workload c (item_path item).
Proof.
  intros Hjson Hreach Hw Hpc Htodo Hconv. split.
  - intros chunk. unfold worker_step. rewrite Hw, Hpc, Htodo, Hconv.
    eexists. split_and!; [done..| |done]. simpl. by rewrite lookup_insert_eq.
  - apply unconverted_stays_unindexed; [done|]. intros doc. by rewrite Hconv.
Qed.

Lemma recoverable_failure_skips_the_item_witness :
  let s := spawn example_workload example_coord in
  let w := Worker [WorkItem "/docs/b.pdf" 1700000100 200;
                   WorkItem "/docs/a.pdf" 1700000000 100] 0 AtItem in
  (∀ obj, bits_loads (bits_dumps obj) = Some obj) ∧
  reachable (H := example_collaborators) s s ∧
  sys_workers s !! 0%nat = Some w ∧
  skips_failed_item (H := example_collaborators) s 0 w
    (WorkItem "/docs/b.pdf" 1700000100 200)
    [WorkItem "/docs/a.pdf" 1700000000 100]
    "Unable to get page count. Incorrect password" ∧
  stays_unindexed (H := example_collaborators) example_workload example_coord
    "/docs/b.pdf".
Proof.
  intros s w.
  assert (reachable (H := example_collaborators) s s) as Hreach by (by exists []).
  assert (sys_workers s !! 0%nat = Some w) as Hw by (vm_compute; reflexivity).
  split_and!; [exact bits_roundtrip|exact Hreach|exact Hw|..];
    apply (recoverable_failure_skips_the_item (H := example_collaborators)
             example_workload example_coord s 0 w
             (WorkItem "/docs/b.pdf" 1700000100 200)
             [WorkItem "/docs/a.pdf" 1700000000 100]
             "Unable to get page count. Incorrect password"
             bits_roundtrip Hreach Hw eq_refl eq_refl eq_refl).
Defined.

(** C8, as the specification words it, fails for a failure of the OCR:
    [image_to_string] is called outside the [try], so the worker does not
    go on with the rest of its batch; it dies at the item. *)
Lemma failure_claim_fails_when_the_ocr_raises :
  ¬ failure_claim (H := example_collaborators_ocr_raises)
      (spawn example_workload example_coord) 1.
Proof.
  intros Hclaim.
  destruct (Hclaim (Worker [WorkItem "/docs/c.pdf" 1700000200 300] 0 AtItem)
              (WorkItem "/docs/c.pdf" 1700000200 300) [] 0%nat)
    as (s' & Hstep & _ & _ & Hw);
    [vm_compute; reflexivity|reflexivity|reflexivity|vm_compute; reflexivity|].
  vm_compute in Hstep. injection Hstep as <-.
  vm_compute in Hw. discriminate.
Qed.

(** ** A pass without work *)

Lemma outstanding_nil_of_unchanged fs (db : database) pdf_files :
  (∀ path, path ∈ pdf_files →
     ∃ st r, fs !! path = Some st ∧ db !! path = Some r ∧
             mtime r = py_int (st_mtime st) ∧ fsize r = st_size st) →
  outstanding fs db pdf_files = [].
Proof.
  induction pdf_files as [|p rest IH]; intros Hall; simpl; [done|].
  destruct (Hall p) as (st & r & Hst & Hr & Hm & Hsz); [left|].
  unfold snapshot. rewrite Hst. simpl.
  assert (unchanged db p (py_int (st_mtime st)) (st_size st) = true) as ->.
  { apply unchanged_true. by exists r. }
  apply IH. intros path Hin. apply Hall. by right.
Qed.

Lemma build_workload_of_unchanged fs (db : database) ncpu pdf_files :
  (∀ path, path ∈ pdf_files →
     ∃ st r, fs !! path = Some st ∧ db !! path = Some r ∧
             mtime r = py_int (st_mtime st) ∧ fsize r = st_size st) →
  build_workload fs db ncpu pdf_files = Some (∅, 0%nat).
Proof.
  intros Hall.
  destruct (build_workload_total fs db ncpu pdf_files) as (wl & total & Hbw).
  { apply Forall_forall. intros p Hp.
    destruct (Hall p Hp) as (st & _ & Hst & _). eauto. }
  pose proof (build_workload_round_robin _ _ _ _ _ _ Hbw) as [_ Htot].
  rewrite (outstanding_nil_of_unchanged _ _ _ Hall) in Htot. simpl in Htot.
  subst total. by rewrite (build_workload_nothing_todo _ _ _ _ _ Hbw) in Hbw.
Qed.

Section IdleFacts.

Context `{Collaborators}.

(** Without children nothing can happen. *)
Lemma spawn_empty_stuck c s : reachable (spawn ∅ c) s → s = spawn ∅ c.
Proof.
  intros [[|a acts] Hrun]; simpl in Hrun; [congruence|].
  destruct a as [t chunk|t name]; simpl in Hrun.
  - unfold worker_step in Hrun. simpl in Hrun.
    by rewrite fmap_empty, lookup_empty in Hrun.
  - unfold merge_file in Hrun. simpl in Hrun.
    by rewrite lookup_empty in Hrun.
Qed.

Lemma pids_of_empty : pids_of ∅ = [].
Proof. unfold pids_of. by rewrite dom_empty_L, elements_empty. Qed.

(** With no child to poll the loop is left in its first turn. *)
Lemma index_loop_no_pids fuel total_todo clock sched last_done s :
  index_loop (S fuel) [] total_todo clock sched last_done s = Finished s.
Proof. done. Qed.

Lemma percent_divisor_nonzero (total_todo : nat) :
  total_todo ≠ 0%nat → Qeq_bool (nat_to_Q total_todo / 100) 0 = false.
Proof.
  intros Hne. destruct (Qeq_bool _ _) eqn:Hq; [|done].
  apply Qeq_bool_eq in Hq.
  unfold nat_to_Q, Qeq, Qdiv, Qmult, Qinv, inject_Z in Hq. simpl in Hq. lia.
Qed.

(** With something to do, [total_todo / 100] is not zero. *)
Lemma index_loop_percent_defined fuel pids total_todo clock sched last_done
    s s' :
  total_todo ≠ 0%nat →
  index_loop fuel pids total_todo clock sched last_done s
  ≠ ZeroDivisionError PercentDone s'.
Proof.
  intros Hne. revert clock sched last_done s.
  induction fuel as [|fuel IH]; intros clock sched last_done s; simpl; [done|].
  destruct (poll_pids pids sched s true) as [[[s1 sched1] complete]|]; [|done].
  destruct complete; [done|].
  unfold py_truediv at 1. rewrite percent_divisor_nonzero by done.
  destruct (last_done <? co_pdfs_done (sys_coord s1))%nat; [|apply IH].
  destruct (py_truediv 60 _); [apply IH|done].
Qed.

(** A pass over unchanged documents ends at once, whatever the rest. *)
Lemma index_of_unchanged fs ncpu roots pdf_files ignore do_cleanup clock
    sched fuel (c : coord) :
  build_workload fs (co_database c) ncpu pdf_files = Some (∅, 0%nat) →
  ∃ s, index fs ncpu roots pdf_files ignore do_cleanup clock sched (S fuel) c
       = IndexDone s ∧
       sys_converts s = 0%nat ∧ sys_ocr_calls s = 0%nat ∧
       sys_workers s = ∅ ∧ sys_files s = ∅.
Proof.
  intros Hbw. unfold index. rewrite Hbw, pids_of_empty, index_loop_no_pids.
  destruct do_cleanup.
  - destruct (cleanup_returns roots pdf_files ignore (sys_coord (spawn ∅ c)))
      as [[c' out] ->].
    eexists. split; [done|]. simpl. by rewrite fmap_empty.
  - eexists. split; [done|]. simpl. by rewrite fmap_empty.
Qed.

End IdleFacts.

(** C9. When every candidate has a database record with its current
    (mtime, size), the partitioner returns the empty workload and the count
    0; then no worker exists, no state of the pass has seen a call of the
    converter or of the OCR, and [index] ends at once with none made. *)
Theorem unchanged_documents_need_no_ocr `{Collaborators}
    (fs : filesystem) (c : coord) (ncpu : Z) (pdf_files : list string) :
  (∀ path, path ∈ pdf_files →
     ∃ st r, fs !! path = Some st ∧ co_database c !! path = Some r ∧
             mtime r = py_int (st_mtime st) ∧ fsize r = st_size st) →
  build_workload fs (co_database c) ncpu pdf_files = Some (∅, 0%nat) ∧
  (∀ s, reachable (spawn ∅ c) s →
        sys_workers s = ∅ ∧ sys_converts s = 0%nat ∧ sys_ocr_calls s = 0%nat) ∧
  (∀ roots ignore do_cleanup clock sched fuel,
     ∃ s, index fs ncpu roots pdf_files ignore do_cleanup clock sched (S fuel) c
          = IndexDone s ∧
          sys_converts s = 0%nat ∧ sys_ocr_calls s = 0%nat).
Proof.
  intros Hall.
  pose proof (build_workload_of_unchanged fs _ ncpu pdf_files Hall) as Hbw.
  split_and!; [done| |].
  - intros s ->%spawn_empty_stuck. simpl. by rewrite fmap_empty.
  - intros roots ignore do_cleanup clock sched fuel.
    destruct (index_of_unchanged fs ncpu roots pdf_files ignore do_cleanup
                clock sched fuel c Hbw) as (s & Hs & Hc & Ho & _).
    by exists s.
Qed.

Lemma unchanged_documents_need_no_ocr_witness :
  let files := ["/docs/a.pdf"; "/docs/b.pdf"; "/docs/c.pdf"] in
  build_workload example_fs (co_database example_coord_full) 8 files
    = Some (∅, 0%nat) ∧
  (∀ s, reachable (H := example_collaborators) (spawn ∅ example_coord_full) s →
        sys_workers s = ∅ ∧ sys_converts s = 0%nat ∧ sys_ocr_calls s = 0%nat) ∧
  (∀ roots ignore do_cleanup clock sched fuel,
     ∃ s, index (H := example_collaborators) example_fs 8 roots files ignore
            do_cleanup clock sched (S fuel) example_coord_full
          = IndexDone s ∧
          sys_converts s = 0%nat ∧ sys_ocr_calls s = 0%nat).
Proof.
  apply (unchanged_documents_need_no_ocr (H := example_collaborators)
           example_fs example_coord_full 8).
  intros path Hin.
  repeat (apply elem_of_cons in Hin as [->|Hin];
          [eexists _, _; vm_compute; repeat split; reflexivity|]).
  by apply elem_of_nil in Hin.
Defined.

(** C10. When the partitioner returns the count 0, the workload is empty:
    no child is forked, [self.pids] is empty and the first turn of the
    polling loop leaves it, before any of the throughput, ETA and
    percentage computations.  Whatever the count, the loop never ends in a
    division by zero at [self.pdfs_done / (total_todo / 100)]: that
    expression is only reached when the count is positive. *)
Theorem no_work_ends_the_loop_before_the_divisions `{Collaborators}
    (fs : filesystem) (db : database) (ncpu : Z) (pdf_files : list string)
    (wl : workload_map) (total : nat) (c : coord) :
  build_workload fs db ncpu pdf_files = Some (wl, total) →
  (total = 0%nat →
     sys_workers (spawn wl c) = ∅ ∧ pids_of wl = [] ∧
     ∀ fuel clock sched last_done,
       index_loop (S fuel) (pids_of wl) total clock sched last_done (spawn wl c)
       = Finished (spawn wl c)) ∧
  (∀ fuel clock sched s',
     index_loop fuel (pids_of wl) total clock sched 0 (spawn wl c)
     ≠ ZeroDivisionError PercentDone s').
Proof.
  intros Hbw. split.
  - intros ->. apply build_workload_nothing_todo in Hbw as ->.
    rewrite pids_of_empty. split_and!; [|done|].
    + simpl. by rewrite fmap_empty.
    + intros fuel clock sched last_done. apply index_loop_no_pids.
  - intros fuel clock sched s'. destruct (decide (total = 0%nat)) as [->|Hne].
    + apply build_workload_nothing_todo in Hbw as ->. rewrite pids_of_empty.
      by destruct fuel.
    + by apply index_loop_percent_defined.
Qed.

Lemma no_work_ends_the_loop_before_the_divisions_witness :
  let wl : workload_map := ∅ in
  (0%nat = 0%nat →
     sys_workers (spawn wl example_coord_full) = ∅ ∧ pids_of wl = [] ∧
     ∀ fuel clock sched last_done,
       index_loop (H := example_collaborators) (S fuel) (pids_of wl) 0 clock
         sched last_done (spawn wl example_coord_full)
       = Finished (spawn wl example_coord_full)) ∧
  (∀ fuel clock sched s',
     index_loop (H := example_collaborators) fuel (pids_of wl) 0 clock sched 0
       (spawn wl example_coord_full)
     ≠ ZeroDivisionError PercentDone s').
Proof.
  apply (no_work_ends_the_loop_before_the_divisions (H := example_collaborators)
           example_fs example_index_full 8
           ["/docs/a.pdf"; "/docs/b.pdf"; "/docs/c.pdf"]).
  vm_compute. reflexivity.
Defined.

(* ===================================================================== *)
(** * Further properties of the code                                       *)
(* ===================================================================== *)

(** ** Command line *)

Lemma last_cons_is_Some {A} (x : A) (l : list A) y :
  last l = Some y → last (x :: l) = Some y.
Proof. destruct l; [done|]. done. Qed.

Lemma parse_args_raises n args st :
  (length args ≤ n)%nat →
  parse_args args st = None → last args = Some "--ignore".
Proof.
  revert args st. induction n as [|n IH]; intros [|arg rest] st Hlen;
    simpl in *; try lia; try done.
  repeat case_decide.
  - intros Hp. apply last_cons_is_Some. eapply IH; [|done]. lia.
  - intros Hp. apply last_cons_is_Some. eapply IH; [|done]. lia.
  - destruct rest as [|value rest']; [by subst|].
    intros Hp. do 2 apply last_cons_is_Some.
    eapply IH; [|done]. simpl in *. lia.
  - destruct (cli_index st); intros Hp; apply last_cons_is_Some;
      (eapply IH; [|done]); lia.
Qed.

Lemma parse_args_dangling pre st :
  "--ignore" ∉ pre → parse_args (pre ++ ["--ignore"]) st = None.
Proof.
  revert st. induction pre as [|arg pre IH]; intros st Hnot; simpl; [done|].
  apply not_elem_of_cons in Hnot as [Hne Hnot].
  repeat case_decide; try done; try by apply IH.
  destruct (cli_index st); by apply IH.
Qed.

(** X1. [main] raises (the [IndexError] of [sys.argv[i+1]]) only when the
    last argument is [--ignore], and it does raise when that is the only
    [--ignore] of the command line. *)
Theorem main_raises_only_on_trailing_ignore :
  (∀ args, main args = None → last args = Some "--ignore") ∧
  (∀ pre, "--ignore" ∉ pre → main (pre ++ ["--ignore"]) = None).
Proof.
  split.
  - intros args. unfold main.
    destruct (parse_args args _) as [st|] eqn:Hp.
    + by repeat case_match.
    + intros _. by eapply (parse_args_raises (length args)).
  - intros pre Hnot. unfold main. by rewrite parse_args_dangling.
Qed.

(** X2. When [main] does not raise, it prints the usage exactly when the
    command line has no plain argument, and it indexes only with at least
    one root, the roots being the last plain arguments (those before [-i]
    are dropped). *)
Theorem main_dispatch (args : list string) :
  (main args = Some Usage ↔ main args ≠ None ∧ non_flag_args args = []) ∧
  (∀ index_paths ignore cleanup,
     main args = Some (RunIndex index_paths ignore cleanup) →
     index_paths ≠ [] ∧
     ∃ dropped, non_flag_args args = dropped ++ index_paths).
Proof.
  unfold main.
  destruct (parse_args args _) as [st|] eqn:Hp;
    [|split; [split; [done|by intros [? _]]|done]].
  apply (parse_args_spec (length args)) in Hp as [Hidx Happ]; [|done..].
  simpl in Happ. rewrite <- Happ.
  destruct (cli_index_paths st) as [|p ps] eqn:Hps;
    destruct (cli_search st) as [|w ws] eqn:Hws;
    destruct (cli_index st) eqn:Hi; simpl;
    repeat (case_bool_decide; simpl); try done;
    try (by specialize (Hidx eq_refl)).
  all: split; [split; [try done; by intros; split|by intros [_ ?]]|].
  all: try done.
  all: intros index_paths ignore cleanup [= <- <- <-]; split; [done|].
  - by exists [].
  - by exists (w :: ws).
Qed.

(** ** Workload partitioner *)

Lemma build_workload_loop_raises fs db threads pdf_files st :
  (∃ p, p ∈ pdf_files ∧ fs !! p = None) →
  build_workload_loop fs db threads pdf_files st = None.
Proof.
  revert st. induction pdf_files as [|path rest IH]; intros st (p & Hin & Hp).
  - by apply elem_of_nil in Hin.
  - simpl. destruct (build_workload_body fs db threads st path) as [st1|] eqn:Hb;
      [|done].
    apply IH. apply elem_of_cons in Hin as [->|Hin]; [|eauto].
    unfold build_workload_body in Hb. by rewrite Hp in Hb.
Qed.

(** X3. [build_workload] raises in two places only.  It raises
    [ValueError] exactly when what [sysctl] printed is no integer for
    [int], whatever the candidates; otherwise it raises out of [os.stat]
    exactly when [os.stat] fails on one of the candidates, whether or not
    that candidate is known to the database; and it returns exactly when
    the count is read and every candidate can be read. *)
Theorem build_workload_raises_on_the_count_or_on_stat
    (rstrip : string → string) (to_int : string → option Z) (printed : string)
    (fs : filesystem) (db : database) (pdf_files : list string) :
  (build_workload_from rstrip to_int printed fs db pdf_files = ValueError
   ↔ to_int (rstrip printed) = None) ∧
  (build_workload_from rstrip to_int printed fs db pdf_files = StatRaised
   ↔ is_Some (to_int (rstrip printed)) ∧ ∃ p, p ∈ pdf_files ∧ fs !! p = None) ∧
  ((∃ wl total,
      build_workload_from rstrip to_int printed fs db pdf_files = Built wl total)
   ↔ is_Some (to_int (rstrip printed)) ∧
     Forall (λ p, is_Some (fs !! p)) pdf_files).
Proof.
  unfold build_workload_from.
  destruct (to_int (rstrip printed)) as [ncpu|]; last first.
  { split_and!.
    - done.
    - split; [done|]. by intros [[? ?] _].
    - split; [by intros (? & ? & ?)|]. by intros [[? ?] _]. }
  assert (is_Some (Some ncpu)) as Hcount by eauto.
  destruct (decide (Forall (λ p, is_Some (fs !! p)) pdf_files)) as [Hall|Hex].
  - destruct (build_workload_total fs db ncpu pdf_files Hall)
      as (wl & total & ->).
    split_and!.
    + done.
    + split; [done|]. intros (_ & p & Hin & Hp). rewrite Forall_forall in Hall.
      destruct (Hall p Hin) as [st Hst]. congruence.
    + split; [done|]. intros _. by exists wl, total.
  - assert (∃ p, p ∈ pdf_files ∧ fs !! p = None) as Hp.
    { apply not_Forall_Exists in Hex; [|apply _].
      apply Exists_exists in Hex as (p & Hin & Hp).
      exists p. split; [done|]. by apply eq_None_not_Some. }
    assert (build_workload fs db ncpu pdf_files = None) as ->
      by (unfold build_workload; by rewrite build_workload_loop_raises).
    split_and!.
    + done.
    + done.
    + split; [by intros (? & ? & ?)|]. by intros [_ ?].
Qed.

Lemma round_robin_slot_length W out (wl : workload_map) t j :
  round_robin W out wl → (t < W)%nat →
  (j < length (default [] (wl !! t)))%nat ↔ (j * W + t < length out)%nat.
Proof.
  intros Hrr Ht. specialize (Hrr t j). rewrite slot_at_default in Hrr.
  rewrite decide_True in Hrr by done.
  rewrite <- !lookup_lt_is_Some. by rewrite Hrr.
Qed.

(** X4. The deal is balanced: of two slots in use the earlier one has as
    many items as the later one or one more, and the slots from
    [slots ncpu] on stay empty. *)
Theorem workload_is_balanced
    (fs : filesystem) (db : database) (ncpu : Z) (pdf_files : list string)
    (wl : workload_map) (total : nat) :
  build_workload fs db ncpu pdf_files = Some (wl, total) →
  (∀ t1 t2, (t1 ≤ t2)%nat → (t2 < slots ncpu)%nat →
     (length (default [] (wl !! t2)) ≤ length (default [] (wl !! t1))
      ≤ length (default [] (wl !! t2)) + 1)%nat) ∧
  (∀ t, (slots ncpu ≤ t)%nat → wl !! t = None).
Proof.
  intros Hbw. split.
  - apply build_workload_round_robin in Hbw as [Hrr _].
    intros t1 t2 Hle Ht2.
    set (L1 := length (default [] (wl !! t1))).
    set (L2 := length (default [] (wl !! t2))).
    set (W := slots ncpu) in *. set (n := length (outstanding fs db pdf_files)) in *.
    assert (∀ j, (j < L1)%nat ↔ (j * W + t1 < n)%nat) as H1
      by (intros j; apply round_robin_slot_length; [done|lia]).
    assert (∀ j, (j < L2)%nat ↔ (j * W + t2 < n)%nat) as H2
      by (intros j; by apply round_robin_slot_length).
    split.
    + apply Nat.nlt_ge. intros Hlt.
      assert (L1 * W + t2 < n)%nat as Hn by (by apply H2).
      assert (L1 < L1)%nat; [apply H1|]; lia.
    + apply Nat.nlt_ge. intros Hlt.
      assert ((L1 - 1) * W + t1 < n)%nat as Hn by (apply H1; lia).
      assert (¬ (L2 * W + t2 < n)%nat) as Hn2 by (rewrite <- H2; lia).
      nia.
  - intros t Ht. apply eq_None_not_Some.
    rewrite (build_workload_dom _ _ _ _ _ _ Hbw). lia.
Qed.

Lemma workload_is_balanced_witness :
  let wl : workload_map :=
    {[ 0%nat := [WorkItem "/docs/a.pdf" 1700000000 100;
                 WorkItem "/docs/c.pdf" 1700000200 300];
       1%nat := [WorkItem "/docs/b.pdf" 1700000100 200] ]} in
  (∀ t1 t2, (t1 ≤ t2)%nat → (t2 < slots 3)%nat →
     (length (default [] (wl !! t2)) ≤ length (default [] (wl !! t1))
      ≤ length (default [] (wl !! t2)) + 1)%nat) ∧
  (∀ t, (slots 3 ≤ t)%nat → wl !! t = None).
Proof.
  apply (workload_is_balanced example_fs ∅ 3
           ["/docs/a.pdf"; "/docs/b.pdf"; "/docs/c.pdf"] _ 3%nat).
  vm_compute. reflexivity.
Defined.

(** ** Workers *)

(** What a step of a worker can do to the state. *)
Lemma worker_step_cases `{Collaborators} t chunk s s' w :
  sys_workers s !! t = Some w →
  worker_step t chunk s = Some s' →
  sys_coord s' = sys_coord s ∧
  sys_read s' = sys_read s ∧
  (∃ w', sys_workers s' = <[t := w']> (sys_workers s)) ∧
  (sys_files s' = sys_files s ∨
   sys_files s' = <[(t, tmp_name (w_i w)) := ""]> (sys_files s) ∨
   (∃ f, sys_files s' = alter f (t, tmp_name (w_i w)) (sys_files s)) ∨
   (∃ content,
      sys_files s' = <[(t, final_name (w_i w)) := content]>
                       (delete (t, tmp_name (w_i w)) (sys_files s)))).
Proof.
  intros Hw Hstep. unfold worker_step in Hstep. rewrite Hw in Hstep.
  repeat (case_match; simplify_eq/=);
    (split_and!; [done|done|by eexists|]); eauto 6.
Qed.

(** X5. A step of worker [t] leaves alone the database, its file and the
    counter of merged documents, the other workers, every file of another
    worker's directory, and in its own directory every file but [i.tmp]
    and [i], [i] being its counter before the step. *)
Theorem worker_step_touches_only_its_own_files `{Collaborators}
    (t chunk : nat) (s s' : system) (w : worker) :
  sys_workers s !! t = Some w →
  worker_step t chunk s = Some s' →
  sys_coord s' = sys_coord s ∧
  sys_read s' = sys_read s ∧
  (∀ t', t' ≠ t → sys_workers s' !! t' = sys_workers s !! t') ∧
  (∀ t' name,
     t' ≠ t ∨ (name ≠ tmp_name (w_i w) ∧ name ≠ final_name (w_i w)) →
     sys_files s' !! (t', name) = sys_files s !! (t', name)).
Proof.
  intros Hw Hstep. unfold worker_step in Hstep. rewrite Hw in Hstep.
  assert (∀ t' name,
            t' ≠ t ∨ (name ≠ tmp_name (w_i w) ∧ name ≠ final_name (w_i w)) →
            (t, tmp_name (w_i w)) ≠ (t', name) ∧
            (t, final_name (w_i w)) ≠ (t', name)) as Hkeys.
  { intros t' name [?|[? ?]]; split; intros [= ? ?]; congruence. }
  repeat (case_match; simplify_eq/=);
    (split_and!; [done|done|by intros t' ?; rewrite lookup_insert_ne|]);
    intros t' name [Hk1 Hk2]%Hkeys; try done.
  - by rewrite lookup_insert_ne.
  - rewrite lookup_insert_ne by done. by rewrite lookup_delete_ne.
  - by rewrite lookup_alter_ne.
Qed.

Lemma worker_step_touches_only_its_own_files_witness :
  let s := spawn example_workload example_coord in
  let w := Worker [WorkItem "/docs/c.pdf" 1700000200 300] 0 AtItem in
  ∃ s',
    sys_workers s !! 1%nat = Some w ∧
    worker_step (H := example_collaborators) 1 0 s = Some s' ∧
    sys_coord s' = sys_coord s ∧
    sys_read s' = sys_read s ∧
    (∀ t', t' ≠ 1%nat → sys_workers s' !! t' = sys_workers s !! t') ∧
    (∀ t' name,
       t' ≠ 1%nat ∨ (name ≠ tmp_name (w_i w) ∧ name ≠ final_name (w_i w)) →
       sys_files s' !! (t', name) = sys_files s !! (t', name)).
Proof.
  intros s w.
  destruct (worker_step (H := example_collaborators) 1 0 s) as [s'|] eqn:Hstep;
    [|by vm_compute in Hstep].
  assert (sys_workers s !! 1%nat = Some w) as Hw by (vm_compute; reflexivity).
  exists s'. split; [exact Hw|]. split; [reflexivity|].
  exact (worker_step_touches_only_its_own_files (H := example_collaborators)
           1 0 s s' w Hw Hstep).
Defined.

Section DeadWorkerFacts.

Context `{Collaborators}.

(** Nothing moves a worker that has died, and nothing adds a file to its
    directory. *)
Lemma step_dead_worker a s s' t w :
  sys_workers s !! t = Some w → w_pc w = Died →
  step a s = Some s' →
  sys_workers s' !! t = Some w ∧
  ∀ name content, sys_files s' !! (t, name) = Some content →
                  sys_files s !! (t, name) = Some content.
Proof.
  intros Hw Hpc. destruct a as [t' chunk|t' name']; simpl.
  - intros Hstep. destruct (decide (t' = t)) as [->|Hne].
    { unfold worker_step in Hstep. by rewrite Hw, Hpc in Hstep. }
    destruct (sys_workers s !! t') as [w'|] eqn:Hw';
      [|unfold worker_step in Hstep; by rewrite Hw' in Hstep].
    destruct (worker_step_cases t' chunk s s' w' Hw' Hstep)
      as (_ & _ & [w'' Hworkers] & Hfiles).
    split; [by rewrite Hworkers, lookup_insert_ne|].
    intros name content.
    destruct Hfiles as [->|[->|[[f ->]|[content' ->]]]]; [done|..].
    + rewrite lookup_insert_ne; [done|]. by intros [= ? _].
    + rewrite lookup_alter_ne; [done|]. by intros [= ? _].
    + rewrite lookup_insert_ne by (by intros [= ? _]).
      rewrite lookup_delete_ne; [done|]. by intros [= ? _].
  - unfold merge_file.
    destruct (sys_files s !! (t', name')) as [content'|]; [|done].
    destruct (PyStr.isdigit name'); [|by intros [= <-]].
    destruct (json_loads content'); [|done].
    intros [= <-]. simpl. split; [done|].
    intros name content. rewrite lookup_delete. by case_decide.
Qed.

Lemma run_dead_worker acts s s' t w :
  sys_workers s !! t = Some w → w_pc w = Died →
  run acts s = Some s' →
  sys_workers s' !! t = Some w ∧
  ∀ name content, sys_files s' !! (t, name) = Some content →
                  sys_files s !! (t, name) = Some content.
Proof.
  revert s. induction acts as [|a acts IH]; intros s Hw Hpc; simpl.
  - by intros [= <-].
  - destruct (step a s) as [s1|] eqn:Hstep; [|done].
    destruct (step_dead_worker a s s1 t w Hw Hpc Hstep) as [Hw1 Hf1].
    intros Hrun. destruct (IH s1 Hw1 Hpc Hrun) as [Hw' Hf'].
    split; [done|]. intros name content Hs'. by apply Hf1, Hf'.
Qed.

End DeadWorkerFacts.

(** X6. An exception of [image_to_string] is caught nowhere: the worker
    dies at that item, having written no file for it, and whatever happens
    afterwards it stays dead with the rest of its batch undone, and no file
    is ever added to its directory. *)
Theorem ocr_exception_ends_the_worker `{Collaborators}
    (s : system) (t chunk : nat) (w : worker) (item : work_item)
    (rest : list work_item) (doc : list image) :
  sys_workers s !! t = Some w → w_pc w = AtItem → w_todo w = item :: rest →
  convert_from_path (item_path item) = Converted doc →
  ocr_texts doc = None →
  ∃ s', worker_step t chunk s = Some s' ∧
        sys_files s' = sys_files s ∧
        ∀ acts s'', run acts s' = Some s'' →
          sys_workers s'' !! t = Some (Worker (item :: rest) (w_i w) Died) ∧
          ∀ name content, sys_files s'' !! (t, name) = Some content →
                          sys_files s !! (t, name) = Some content.
Proof.
  intros Hw Hpc Htodo Hconv Hocr.
  unfold worker_step. rewrite Hw, Hpc, Htodo, Hconv.
  pose proof (ocr_pages_texts (item_path item) doc 0) as Htexts.
  destruct (ocr_pages (item_path item) doc 0) as [out text]. simpl in Htexts.
  rewrite Htexts, Hocr. eexists. split_and!; [done..|].
  intros acts s'' Hrun.
  eapply run_dead_worker in Hrun; [exact Hrun| |done].
  simpl. by rewrite lookup_insert_eq.
Qed.

Lemma ocr_exception_ends_the_worker_witness :
  let s := spawn example_workload example_coord in
  let item := WorkItem "/docs/c.pdf" 1700000200 300 in
  sys_workers s !! 1%nat = Some (Worker [item] 0 AtItem) ∧
  ocr_texts (H := example_collaborators_ocr_raises) ["one"; "two"] = None ∧
  ∃ s', worker_step (H := example_collaborators_ocr_raises) 1 0 s = Some s' ∧
        sys_files s' = sys_files s ∧
        ∀ acts s'',
          run (H := example_collaborators_ocr_raises) acts s' = Some s'' →
          sys_workers s'' !! 1%nat = Some (Worker [item] 0 Died) ∧
          ∀ name content, sys_files s'' !! (1%nat, name) = Some content →
                          sys_files s !! (1%nat, name) = Some content.
Proof.
  intros s item.
  assert (sys_workers s !! 1%nat = Some (Worker [item] 0 AtItem)) as Hw
    by (vm_compute; reflexivity).
  split; [exact Hw|]. split; [reflexivity|].
  exact (ocr_exception_ends_the_worker (H := example_collaborators_ocr_raises)
           s 1 0 (Worker [item] 0 AtItem) item [] ["one"; "two"]
           Hw eq_refl eq_refl eq_refl eq_refl).
Defined.

(** ** A whole pass *)

Section PassFacts.

Context `{Collaborators}.
Hypothesis json_roundtrip : ∀ obj, json_loads (json_dumps obj) = Some obj.
Variable wl : workload_map.
Variable c0 : coord.
Hypothesis wl_no_uncaught : no_uncaught wl.
Hypothesis wl_one_snapshot : one_snapshot_per_path wl.

Lemma final_name_inj i j : final_name i = final_name j → i = j.
Proof. unfold final_name. apply pretty_nat_inj. Qed.

Lemma settled_mono s s' t item :
  (∀ name content, PyStr.isdigit name = true →
     sys_files s !! (t, name) = Some content →
     sys_files s' !! (t, name) = Some content) →
  co_database (sys_coord s') = co_database (sys_coord s) →
  settled s t item → settled s' t item.
Proof.
  intros Hfiles Hdb Hs text Htext.
  destruct (Hs text Htext) as [(name & Hd & Hf)|Hrec].
  - left. exists name. split; [done|]. by apply Hfiles.
  - right. by rewrite Hdb.
Qed.

(** The frame of a step of worker [t]: what is to be checked of the new
    state of [t] and of the files for the invariant to go through. *)
Lemma pass_inv_worker_update s s' t w w' :
  pass_inv wl c0 s →
  sys_workers s !! t = Some w →
  sys_coord s' = sys_coord s →
  sys_workers s' = <[t := w']> (sys_workers s) →
  (∀ t' name content,
     sys_files s' !! (t', name) = Some content → PyStr.isdigit name = true →
     sys_files s !! (t', name) = Some content ∨
     (t' = t ∧ name = final_name (w_i w) ∧ (w_i w < w_i w')%nat ∧
      ∃ items item text,
        wl !! t = Some items ∧ item ∈ items ∧ item_texts item = Some text ∧
        content = json_dumps (staged item text))) →
  (∀ t' name content, PyStr.isdigit name = true →
     sys_files s !! (t', name) = Some content →
     sys_files s' !! (t', name) = Some content) →
  (∀ t' name, t' ≠ t →
     sys_files s' !! (t', name) = sys_files s !! (t', name)) →
  (w_i w ≤ w_i w')%nat →
  (∃ items done,
     wl !! t = Some items ∧ items = done ++ w_todo w' ∧
     (∀ item, item ∈ done → settled s' t item) ∧
     match w_pc w' with
     | AtItem => True
     | Writing pending =>
         ∃ item rest text content,
           w_todo w' = item :: rest ∧ item_texts item = Some text ∧
           sys_files s' !! (t, tmp_name (w_i w')) = Some content ∧
           content +:+ pending = json_dumps (staged item text)
     | Exited => w_todo w' = []
     | Died => False
     end) →
  pass_inv wl c0 s'.
Proof.
  intros [Hpub Hwk Hreap Hdb Hstr] Hw Hcoord Hworkers Hnew Hkeep Hother Hi Hw'.
  assert (∀ t' item, settled s t' item → settled s' t' item) as Hsettled.
  { intros t' item. apply settled_mono; [by intros; apply Hkeep|by rewrite Hcoord]. }
  split.
  - intros t' name content Hfile Hd.
    destruct (Hnew t' name content Hfile Hd)
      as [Hold|(-> & -> & Hlt & items & item & text & Hwl & Hin & Htext & ->)].
    + destruct (Hpub t' name content Hold Hd)
        as (j & items & item & text & -> & Hwl & Hin & Htext & -> & Hj).
      exists j, items, item, text. split_and!; [done..|].
      intros w0. rewrite Hworkers, lookup_insert. case_decide as Ht.
      * subst t'. intros [= <-]. specialize (Hj w Hw). lia.
      * apply Hj.
    + exists (w_i w), items, item, text. split_and!; [done..|].
      intros w0. rewrite Hworkers, lookup_insert_eq. by intros [= <-].
  - intros t' w0. rewrite Hworkers, lookup_insert. case_decide as Ht.
    + subst t'. intros [= <-]. exact Hw'.
    + intros Hw0. destruct (Hwk t' w0 Hw0) as (items & done & Hwl & Hsplit & Hdone & Hpc).
      exists items, done. split_and!; [done..|by intros; apply Hsettled, Hdone|].
      destruct (w_pc w0); try done.
      destruct Hpc as (item & rest & text & content & ? & ? & Hfile & ?).
      exists item, rest, text, content. split_and!; [done..| |done].
      by rewrite Hother.
  - intros t' items Hwl. rewrite Hworkers, lookup_insert. case_decide; [done|].
    intros Hnone item Hin. by eapply Hsettled, Hreap.
  - intros path. rewrite Hcoord. apply Hdb.
  - intros t' Hwl. rewrite Hworkers, lookup_insert. case_decide as Ht.
    + subst t'. specialize (Hstr t Hwl). congruence.
    + by apply Hstr.
Qed.

(** The invariant only looks at the files, the workers and the
    database. *)
Lemma pass_inv_ext s s' :
  sys_files s' = sys_files s → sys_workers s' = sys_workers s →
  co_database (sys_coord s') = co_database (sys_coord s) →
  pass_inv wl c0 s → pass_inv wl c0 s'.
Proof.
  intros Hf Hw Hc [Hpub Hwk Hreap Hdb Hstr].
  assert (∀ t item, settled s t item → settled s' t item) as Hsettled.
  { intros t item. apply settled_mono; [by rewrite Hf|done]. }
  split.
  - intros t name content. rewrite Hf, Hw. apply Hpub.
  - intros t w. rewrite Hw. intros Hw0.
    destruct (Hwk t w Hw0) as (items & done & ? & ? & Hdone & Hpc).
    exists items, done. split_and!; [done..|by intros; apply Hsettled, Hdone|].
    by rewrite Hf.
  - intros t items Hwl. rewrite Hw. intros Hnone item Hin.
    by eapply Hsettled, Hreap.
  - intros path. rewrite Hc. apply Hdb.
  - intros t. rewrite Hw. apply Hstr.
Qed.

(** A published file is not in the way of the next temporary or final
    name of its worker. *)
Lemma published_not_next s t w name content :
  pass_inv wl c0 s → sys_workers s !! t = Some w →
  sys_files s !! (t, name) = Some content → PyStr.isdigit name = true →
  name ≠ tmp_name (w_i w) ∧ name ≠ final_name (w_i w).
Proof.
  intros Hinv Hw Hfile Hd. split.
  - intros ->. by rewrite NameFacts.isdigit_tmp_name in Hd.
  - intros ->.
    destruct (pi_published _ _ _ Hinv t _ content Hfile Hd)
      as (j & _ & _ & _ & Hname & _ & _ & _ & _ & Hj).
    apply final_name_inj in Hname as <-. specialize (Hj w Hw). lia.
Qed.

Lemma item_texts_converted item doc text :
  convert_from_path (item_path item) = Converted doc →
  ocr_texts doc = text → item_texts item = text.
Proof. unfold item_texts. by intros -> ->. Qed.

(** A step of a worker keeps the invariant of the pass. *)
Lemma worker_step_pass_inv t chunk s s' :
  pass_inv wl c0 s → worker_step t chunk s = Some s' → pass_inv wl c0 s'.
Proof.
  intros Hinv Hstep.
  destruct (sys_workers s !! t) as [w|] eqn:Hw;
    [|unfold worker_step in Hstep; by rewrite Hw in Hstep].
  destruct (pi_workers _ _ _ Hinv t w Hw)
    as (items & done & Hwl & Hsplit & Hdone & Hpc).
  pose proof (λ name content, published_not_next s t w name content Hinv Hw)
    as Hfree.
  unfold worker_step in Hstep. rewrite Hw in Hstep.
  destruct (w_pc w) as [|pending| |] eqn:Epc; [| |done..].
  - destruct (w_todo w) as [|item rest] eqn:Htodo.
    { injection Hstep as <-.
      apply (pass_inv_worker_update s _ t w (Worker [] (w_i w) Exited));
        simpl; try done; [by left|].
      by exists items, done. }
    assert (item ∈ items) as Hitem.
    { rewrite Hsplit. apply elem_of_app. right. left. }
    destruct (wl_no_uncaught t items item Hwl Hitem) as [Hraise Hocr].
    destruct (convert_from_path (item_path item)) as [doc|msg|] eqn:Hconv;
      [| |done].
    + pose proof (ocr_pages_texts (item_path item) doc 0) as Htexts.
      destruct (Hocr doc eq_refl) as [text Htext].
      destruct (ocr_pages (item_path item) doc 0) as [out text'].
      simpl in Htexts. rewrite Htext in Htexts. subst text'.
      injection Hstep as <-.
      apply (pass_inv_worker_update (print out (count_calls 1 (length out) s)) _ t w
               (Worker (item :: rest) (w_i w)
                  (Writing (json_dumps (staged item text)))));
        simpl; try done.
      * by apply (pass_inv_ext s).
      * intros t' name content. rewrite lookup_insert. case_decide as Hk.
        -- injection Hk as <- <-. intros _ Hd.
           by rewrite NameFacts.isdigit_tmp_name in Hd.
        -- by left.
      * intros t' name content Hd Hfile. rewrite lookup_insert_ne; [done|].
        intros [= <- <-]. by rewrite NameFacts.isdigit_tmp_name in Hd.
      * intros t' name Hne. rewrite lookup_insert_ne; [done|]. by intros [= ? _].
      * exists items, done. split_and!; [done..| |].
        -- intros it Hit. eapply settled_mono; [| |by apply Hdone]; [|done].
           simpl. intros name content Hd Hfile. rewrite lookup_insert_ne; [done|].
           intros [= <-]. by rewrite NameFacts.isdigit_tmp_name in Hd.
        -- exists item, rest, text, "". rewrite lookup_insert_eq.
           split_and!; [done|by eapply item_texts_converted|done|done].
    + injection Hstep as <-.
      apply (pass_inv_worker_update
               (print [cannot_index (item_path item) msg] (count_calls 1 0 s))
               _ t w (Worker rest (w_i w) AtItem)); simpl; try done.
      * by apply (pass_inv_ext s).
      * by left.
      * exists items, (done ++ [item]). split_and!; [done| | |done].
        -- by rewrite <- app_assoc.
        -- intros it [Hit|Hit]%elem_of_app; [by apply Hdone|].
           apply list_elem_of_singleton in Hit as ->.
           intros text. unfold item_texts. by rewrite Hconv.
  - destruct Hpc as (item & rest & text & content & Htodo & Htext & Hfile & Hcont).
    destruct pending as [|c pending].
    + rewrite Hfile in Hstep. injection Hstep as <-.
      rewrite NameFacts.app_empty_r in Hcont. subst content.
      assert (item ∈ items) as Hitem.
      { rewrite Hsplit, Htodo. apply elem_of_app. right. left. }
      apply (pass_inv_worker_update s _ t w
               (Worker (tail (w_todo w)) (w_i w + 1) AtItem));
        simpl; try done; try lia.
      * intros t' name content. rewrite lookup_insert. case_decide as Hk.
        -- injection Hk as <- <-. intros [= <-] _. right.
           split_and!; [done|done|lia|]. by exists items, item, text.
        -- rewrite lookup_delete. case_decide; [done|]. by left.
      * intros t' name content Hd Hf.
        destruct (decide (t' = t)) as [->|Hne].
        -- destruct (Hfree name content Hf Hd) as [Hn1 Hn2].
           rewrite lookup_insert_ne by (intros [= ?]; done).
           by rewrite lookup_delete_ne by (intros [= ?]; done).
        -- rewrite lookup_insert_ne by (intros [= ? _]; done).
           by rewrite lookup_delete_ne by (intros [= ? _]; done).
      * intros t' name Hne.
        rewrite lookup_insert_ne by (intros [= ? _]; done).
        by rewrite lookup_delete_ne by (intros [= ? _]; done).
      * exists items, (done ++ [item]). rewrite Htodo. simpl.
        split_and!; [done|by rewrite <- app_assoc, Hsplit, Htodo| |done].
        intros it [Hit|Hit]%elem_of_app;
          [|apply list_elem_of_singleton in Hit as ->].
        -- eapply settled_mono; [| |by apply Hdone]; [|done]. simpl.
           intros name content Hd Hf.
           destruct (Hfree name content Hf Hd) as [Hn1 Hn2].
           rewrite lookup_insert_ne by (intros [= ?]; done).
           by rewrite lookup_delete_ne by (intros [= ?]; done).
        -- intros text' Htext'. left. exists (final_name (w_i w)).
           split; [apply NameFacts.isdigit_final_name|].
           simpl. rewrite lookup_insert_eq. congruence.
    + injection Hstep as <-.
      apply (pass_inv_worker_update s _ t w
               (Worker (w_todo w) (w_i w)
                  (Writing (PyStr.drop (S chunk) (String c pending)))));
        simpl; try done.
      * intros t' name content'. rewrite lookup_alter. case_decide as Hk.
        -- injection Hk as <- <-. intros _ Hd.
           by rewrite NameFacts.isdigit_tmp_name in Hd.
        -- by left.
      * intros t' name content' Hd Hf. rewrite lookup_alter_ne; [done|].
        intros [= <- <-]. by rewrite NameFacts.isdigit_tmp_name in Hd.
      * intros t' name Hne. rewrite lookup_alter_ne; [done|]. by intros [= ? _].
      * exists items, done. split_and!; [done..| |].
        -- intros it Hit. eapply settled_mono; [| |by apply Hdone]; [|done].
           simpl. intros name content' Hd Hf. rewrite lookup_alter_ne; [done|].
           intros [= <-]. by rewrite NameFacts.isdigit_tmp_name in Hd.
        -- exists item, rest, text,
             (content +:+ PyStr.take (S chunk) (String c pending)).
           split_and!; [done..| |].
           ++ by rewrite lookup_alter_eq, Hfile.
           ++ rewrite NameFacts.app_assoc, <- Hcont. f_equal.
              exact (NameFacts.take_drop (S chunk) (String c pending)).
Qed.

Lemma staged_inj item1 text1 item2 text2 :
  json_dumps (staged item1 text1) = json_dumps (staged item2 text2) →
  item1 = item2 ∧ text1 = text2.
Proof.
  intros Heq. pose proof (json_roundtrip (staged item1 text1)) as H1.
  rewrite Heq, json_roundtrip in H1.
  destruct item1, item2. unfold staged in H1. simpl in H1. by simplify_eq.
Qed.

(** The merge of a file keeps the invariant of the pass, and under the
    invariant [json.loads] does not raise. *)
Lemma merge_file_pass_inv t name s :
  pass_inv wl c0 s →
  (merge_file t name s = None ∧ sys_files s !! (t, name) = None) ∨
  ∃ s', merge_file t name s = Some (inl s') ∧ pass_inv wl c0 s' ∧
        sys_workers s' = sys_workers s ∧
        (∀ k content, sys_files s' !! k = Some content →
                      sys_files s !! k = Some content) ∧
        (PyStr.isdigit name = true → sys_files s' !! (t, name) = None).
Proof.
  intros Hinv. unfold merge_file.
  destruct (sys_files s !! (t, name)) as [content|] eqn:Hfile; [right|by left].
  destruct (PyStr.isdigit name) eqn:Hd; [|by exists s].
  destruct (pi_published _ _ _ Hinv t name content Hfile Hd)
    as (j & items0 & item0 & text0 & -> & Hwl0 & Hin0 & Htext0 & -> & Hj).
  rewrite json_roundtrip. eexists. split; [done|]. simpl.
  split_and!; [|done| |by rewrite lookup_delete_eq].
  2:{ intros k content. rewrite lookup_delete. by case_decide. }
  destruct Hinv as [Hpub Hwk Hreap Hdb Hstr].
  set (s' := System _ _ _ _ _ _ _).
  assert (∀ t' items item, wl !! t' = Some items → item ∈ items →
            settled s t' item → settled s' t' item) as Hsettled.
  { intros t' items item Hwl Hin Hs text Htext.
    destruct (Hs text Htext) as [(name' & Hd' & Hf')|Hrec].
    - destruct (decide ((t, final_name j) = (t', name'))) as [Hk|Hk].
      + injection Hk as <- <-. rewrite Hfile in Hf'. injection Hf' as Heq.
        apply staged_inj in Heq as [<- <-]. right. simpl.
        by rewrite lookup_insert_eq.
      + left. exists name'. split; [done|]. simpl. by rewrite lookup_delete_ne.
    - right. simpl. destruct (decide (item_path item0 = item_path item)) as [Hp|Hp].
      + pose proof (wl_one_snapshot _ _ _ _ _ _ Hwl0 Hwl Hin0 Hin Hp) as <-.
        rewrite lookup_insert_eq. unfold item_record. simpl. congruence.
      + by rewrite lookup_insert_ne. }
  split.
  - intros t' name' content'. simpl. rewrite lookup_delete.
    case_decide; [done|]. apply Hpub.
  - intros t' w Hw. simpl in Hw.
    destruct (Hwk t' w Hw) as (items & done & Hwl & Hsplit & Hdone & Hpc).
    exists items, done. split_and!; [done..| |].
    + intros item Hin. eapply Hsettled; [done| |by apply Hdone].
      rewrite Hsplit. apply elem_of_app. by left.
    + destruct (w_pc w); try done.
      destruct Hpc as (item & rest & text & content & ? & ? & Hf & ?).
      exists item, rest, text, content. split_and!; [done..| |done].
      simpl. rewrite lookup_delete_ne; [done|]. intros [= _ Hn].
      pose proof (NameFacts.isdigit_tmp_name (w_i w)) as Hnd.
      rewrite <- Hn in Hnd. congruence.
  - intros t' items Hwl Hnone item Hin.
    eapply Hsettled; [done..|]. by eapply Hreap.
  - intros path. simpl.
    destruct (decide (item_path item0 = path)) as [<-|Hp].
    + right. exists t, items0, item0, text0.
      split_and!; [done..|]. by rewrite lookup_insert_eq.
    + rewrite lookup_insert_ne by done. apply Hdb.
  - done.
Qed.

Lemma process_listing_pass t names s :
  pass_inv wl c0 s →
  ∃ s', process_listing t names s = inl s' ∧ pass_inv wl c0 s' ∧
        sys_workers s' = sys_workers s ∧
        (∀ k content, sys_files s' !! k = Some content →
                      sys_files s !! k = Some content) ∧
        (∀ name, name ∈ names → PyStr.isdigit name = true →
                 sys_files s' !! (t, name) = None).
Proof.
  revert s. induction names as [|name rest IH]; intros s Hinv; simpl.
  - exists s. split_and!; [done..|]. intros name Hin. by apply elem_of_nil in Hin.
  - destruct (merge_file_pass_inv t name s Hinv)
      as [[-> Hnone]|(s1 & -> & Hinv1 & Hw1 & Hsub1 & Hdel1)].
    + destruct (IH s Hinv) as (s' & -> & Hinv' & Hw' & Hsub' & Hdel').
      exists s'. split_and!; [done..|].
      intros n [->|Hin]%elem_of_cons Hd; [|by apply Hdel'].
      destruct (sys_files s' !! (t, name)) eqn:Hf; [|done].
      apply Hsub' in Hf. congruence.
    + destruct (IH s1 Hinv1) as (s' & -> & Hinv' & Hw' & Hsub' & Hdel').
      exists s'. split_and!; [done|done|congruence|by intros; apply Hsub1, Hsub'|].
      intros n [->|Hin]%elem_of_cons Hd; [|by apply Hdel'].
      destruct (sys_files s' !! (t, name)) eqn:Hf; [|done].
      apply Hsub' in Hf. rewrite Hdel1 in Hf; done.
Qed.

Lemma elem_of_glob_dir (files : gmap (nat * string) string) t name content :
  files !! (t, name) = Some content → name ∈ glob_dir files t.
Proof.
  intros Hf. unfold glob_dir. apply list_elem_of_omap.
  exists ((t, name), content). split; [by apply elem_of_map_to_list|].
  by rewrite decide_True.
Qed.

(** [process_results] does not raise and leaves no published file in the
    directory it harvests. *)
Lemma process_results_pass t s :
  pass_inv wl c0 s →
  ∃ s', process_results t s = inl s' ∧ pass_inv wl c0 s' ∧
        sys_workers s' = sys_workers s ∧
        (∀ k content, sys_files s' !! k = Some content →
                      sys_files s !! k = Some content) ∧
        (∀ name, PyStr.isdigit name = true → sys_files s' !! (t, name) = None).
Proof.
  intros Hinv. unfold process_results.
  destruct (process_listing_pass t (glob_dir (sys_files s) t) s Hinv)
    as (s' & -> & Hinv' & Hw' & Hsub & Hdel).
  exists s'. split_and!; [done..|].
  intros name Hd. destruct (sys_files s' !! (t, name)) eqn:Hf; [|done].
  rewrite <- Hf. apply Hdel; [|done].
  eapply elem_of_glob_dir. by apply Hsub in Hf.
Qed.

Lemma worker_step_harvested t chunk s s' :
  worker_step t chunk s = Some s' → harvested s →
  harvested s' ∧
  ∀ t', sys_workers s !! t' = None → sys_workers s' !! t' = None.
Proof.
  intros Hstep Hh.
  destruct (sys_workers s !! t) as [w|] eqn:Hw;
    [|unfold worker_step in Hstep; by rewrite Hw in Hstep].
  destruct (worker_step_cases t chunk s s' w Hw Hstep)
    as (_ & _ & [w' Hworkers] & Hfiles).
  assert (∀ t', sys_workers s' !! t' = None ↔ sys_workers s !! t' = None ∧ t' ≠ t)
    as Hnone.
  { intros t'. rewrite Hworkers, lookup_insert. case_decide as Ht.
    - subst t'. split; [done|]. by intros [_ ?].
    - split; [done|]. by intros [? _]. }
  split.
  - intros t' name [Hn Hne]%Hnone Hd. specialize (Hh t' name Hn Hd).
    destruct Hfiles as [->|[->|[[f ->]|[content ->]]]]; [done|..].
    + rewrite lookup_insert_ne; [done|]. by intros [= ? _].
    + rewrite lookup_alter_ne; [done|]. by intros [= ? _].
    + rewrite lookup_insert_ne by (by intros [= ? _]).
      rewrite lookup_delete_ne; [done|]. by intros [= ? _].
  - intros t' Hn. apply Hnone. split; [done|]. intros ->. congruence.
Qed.

Lemma run_workers_pass steps s :
  pass_inv wl c0 s → harvested s →
  pass_inv wl c0 (run_workers steps s) ∧ harvested (run_workers steps s) ∧
  ∀ t, sys_workers s !! t = None → sys_workers (run_workers steps s) !! t = None.
Proof.
  unfold run_workers. revert s.
  induction steps as [|[t chunk] steps IH]; intros s Hinv Hh; simpl; [done|].
  destruct (worker_step t chunk s) as [s1|] eqn:Hstep; simpl; [|by apply IH].
  destruct (worker_step_harvested t chunk s s1 Hstep Hh) as [Hh1 Hn1].
  destruct (IH s1) as (Hinv' & Hh' & Hn'); [by eapply worker_step_pass_inv|done|].
  split_and!; [done..|]. intros t' Ht'. by apply Hn', Hn1.
Qed.

(** Reaping a worker that has ended. *)
Lemma waitpid_pass t s :
  pass_inv wl c0 s →
  match waitpid t s with
  | (NoChild, s') => s' = s ∧ sys_workers s !! t = None
  | (StillRunning, s') => s' = s
  | (Reaped, s') =>
      pass_inv wl c0 s' ∧ sys_files s' = sys_files s ∧
      sys_workers s' = delete t (sys_workers s)
  end.
Proof.
  intros Hinv. unfold waitpid.
  destruct (sys_workers s !! t) as [w|] eqn:Hw; [|done].
  assert (w_pc w = Exited ∨ w_pc w = Died →
          pass_inv wl c0
            (System (sys_files s) (delete t (sys_workers s)) (sys_stdout s)
               (sys_coord s) (sys_converts s) (sys_ocr_calls s) (sys_read s)))
    as Hreaped.
  { intros Hpc. destruct Hinv as [Hpub Hwk Hreap Hdb Hstr]. split; simpl.
    - intros t' name content Hf Hd.
      destruct (Hpub t' name content Hf Hd)
        as (j & items & item & text & ? & ? & ? & ? & ? & Hj).
      exists j, items, item, text. split_and!; [done..|].
      intros w0 Hw0. apply Hj.
      by apply lookup_delete_Some in Hw0 as [_ ?].
    - intros t' w0 [Hne Hw0]%lookup_delete_Some. by apply Hwk.
    - intros t' items Hwl Hnone item Hin.
      destruct (decide (t' = t)) as [->|Hne];
        [|rewrite lookup_delete_ne in Hnone by done; by eapply Hreap].
      destruct (Hwk t w Hw) as (items' & done & Hwl' & Hsplit & Hdone & Hw_pc).
      rewrite Hwl in Hwl'. injection Hwl' as <-.
      destruct Hpc as [Hpc|Hpc]; rewrite Hpc in Hw_pc; [|done].
      rewrite Hw_pc, app_nil_r in Hsplit. subst done. by apply Hdone.
    - done.
    - intros t' Hwl. destruct (decide (t' = t)) as [->|Hne].
      + apply lookup_delete_eq.
      + rewrite lookup_delete_ne by done. by apply Hstr. }
  destruct (w_pc w); auto.
Qed.

(** One turn of [for thread_id in self.pids]: it does not raise, and when
    it leaves [threads_complete] set, no polled worker is left. *)
Lemma poll_pids_pass pids sched s complete :
  pass_inv wl c0 s → harvested s →
  ∃ s' sched' complete',
    poll_pids pids sched s complete = Some (s', sched', complete') ∧
    pass_inv wl c0 s' ∧ harvested s' ∧
    (∀ t, sys_workers s !! t = None → sys_workers s' !! t = None) ∧
    (complete' = true →
       complete = true ∧ ∀ t, t ∈ pids → sys_workers s' !! t = None).
Proof.
  revert sched s complete.
  induction pids as [|t rest IH]; intros sched s complete Hinv Hh; simpl.
  { exists s, sched, complete. split_and!; [done..|].
    intros ->. split; [done|]. intros t Ht. by apply elem_of_nil in Ht. }
  destruct (run_workers_pass (hd [] sched) s Hinv Hh) as (Hinv1 & Hh1 & Hn1).
  set (s1 := run_workers (hd [] sched) s) in *.
  pose proof (waitpid_pass t s1 Hinv1) as Hwait.
  destruct (waitpid t s1) as [[| |] s2].
  - (* the child still runs *)
    subst s2.
    destruct (process_results_pass t s1 Hinv1)
      as (s3 & -> & Hinv3 & Hw3 & Hsub3 & _).
    assert (harvested s3) as Hh3.
    { intros t' name Hn Hd. rewrite Hw3 in Hn.
      destruct (sys_files s3 !! (t', name)) eqn:Hf; [|done].
      apply Hsub3 in Hf. by rewrite (Hh1 t' name Hn Hd) in Hf. }
    destruct (IH (tail sched) s3 false Hinv3 Hh3)
      as (s' & sched' & complete' & -> & Hinv' & Hh' & Hn' & Hc').
    exists s', sched', complete'. split_and!; [done..| |].
    + intros t' Ht'. apply Hn'. rewrite Hw3. by apply Hn1.
    + intros Hc. by destruct (Hc' Hc).
  - (* the child has ended and is reaped *)
    destruct Hwait as (Hinv2 & Hf2 & Hw2).
    destruct (process_results_pass t s2 Hinv2)
      as (s3 & -> & Hinv3 & Hw3 & Hsub3 & Hdel3).
    assert (harvested s3) as Hh3.
    { intros t' name Hn Hd. destruct (decide (t' = t)) as [->|Hne];
        [by apply Hdel3|].
      rewrite Hw3, Hw2, lookup_delete_ne in Hn by done.
      destruct (sys_files s3 !! (t', name)) eqn:Hf; [|done].
      apply Hsub3 in Hf. rewrite Hf2 in Hf. by rewrite (Hh1 t' name Hn Hd) in Hf. }
    destruct (IH (tail sched) s3 complete Hinv3 Hh3)
      as (s' & sched' & complete' & -> & Hinv' & Hh' & Hn' & Hc').
    exists s', sched', complete'. split_and!; [done..| |].
    + intros t' Ht'. apply Hn'. rewrite Hw3, Hw2.
      apply lookup_delete_None. right. by apply Hn1.
    + intros Hc. destruct (Hc' Hc) as [-> Hrest]. split; [done|].
      intros t' [->|Hin]%elem_of_cons; [|by apply Hrest].
      apply Hn'. rewrite Hw3, Hw2. apply lookup_delete_eq.
  - (* no such child any more *)
    destruct Hwait as [-> Hnone].
    destruct (IH (tail sched) s1 complete Hinv1 Hh1)
      as (s' & sched' & complete' & -> & Hinv' & Hh' & Hn' & Hc').
    exists s', sched', complete'. split_and!; [done..| |].
    + intros t' Ht'. by apply Hn', Hn1.
    + intros Hc. destruct (Hc' Hc) as [-> Hrest]. split; [done|].
      intros t' [->|Hin]%elem_of_cons; [by apply Hn'|by apply Hrest].
Qed.

(** The loop of [index] never ends on an exception of [process_results],
    and when it is left, no polled worker is left and nothing published
    remains to be merged. *)
Lemma index_loop_pass fuel pids total_todo clock sched last_done s :
  pass_inv wl c0 s → harvested s →
  index_loop fuel pids total_todo clock sched last_done s ≠ CoordinatorRaised ∧
  ∀ s', index_loop fuel pids total_todo clock sched last_done s = Finished s' →
        pass_inv wl c0 s' ∧ harvested s' ∧
        ∀ t, t ∈ pids → sys_workers s' !! t = None.
Proof.
  revert clock sched last_done s.
  induction fuel as [|fuel IH]; intros clock sched last_done s Hinv Hh; simpl;
    [done|].
  destruct (poll_pids_pass pids sched s true Hinv Hh)
    as (s1 & sched1 & complete1 & -> & Hinv1 & Hh1 & _ & Hc1).
  destruct complete1.
  { split; [done|]. intros s' [= <-]. split_and!; [done..|]. by apply Hc1. }
  destruct (py_truediv _ _) as [percent|]; [|done].
  destruct (last_done <? co_pdfs_done (sys_coord s1))%nat; [|by apply IH].
  destruct (py_truediv 60 _) as [rate|]; [|done].
  apply IH; [by apply (pass_inv_ext s1)|done].
Qed.

Lemma spawn_pass_inv : pass_inv wl c0 (spawn wl c0) ∧ harvested (spawn wl c0).
Proof.
  split; [split|]; simpl.
  - intros t name content. by rewrite lookup_empty.
  - intros t w. rewrite lookup_fmap.
    destruct (wl !! t) as [items|] eqn:Hwl; simpl; [|done]. intros [= <-].
    exists items, []. split_and!; [done..| |done].
    intros item Hin. by apply elem_of_nil in Hin.
  - intros t items Hwl. by rewrite lookup_fmap, Hwl.
  - intros path. by left.
  - intros t Hwl. by rewrite lookup_fmap, Hwl.
  - intros t name _ _. apply lookup_empty.
Qed.

Lemma elem_of_pids_of (workload : workload_map) t :
  t ∈ pids_of workload ↔ is_Some (workload !! t).
Proof.
  unfold pids_of. rewrite merge_sort_Permutation, elem_of_elements.
  apply elem_of_dom.
Qed.

(** At the end of the loop every item that has texts is in the database
    with its fingerprint and its texts, every other path is as at the
    start, and no worker and no published file is left. *)
Lemma index_loop_finished fuel total_todo clock sched last_done s :
  index_loop fuel (pids_of wl) total_todo clock sched last_done (spawn wl c0)
  = Finished s →
  (∀ t items item text,
     wl !! t = Some items → item ∈ items → item_texts item = Some text →
     co_database (sys_coord s) !! item_path item = Some (item_record item text)) ∧
  (∀ path,
     (∀ t items item, wl !! t = Some items → item ∈ items →
                      item_path item = path → item_texts item = None) →
     co_database (sys_coord s) !! path = co_database c0 !! path) ∧
  sys_workers s = ∅ ∧
  (∀ t name, PyStr.isdigit name = true → sys_files s !! (t, name) = None).
Proof.
  intros Hloop. destruct spawn_pass_inv as [Hinv0 Hh0].
  destruct (index_loop_pass fuel (pids_of wl) total_todo clock sched last_done
              (spawn wl c0) Hinv0 Hh0) as [_ Hfin].
  destruct (Hfin s Hloop) as (Hinv & Hh & Hgone).
  assert (∀ t, sys_workers s !! t = None) as Hnone.
  { intros t. destruct (wl !! t) eqn:Hwl.
    - apply Hgone, elem_of_pids_of. eauto.
    - by apply (pi_no_stranger _ _ _ Hinv). }
  split_and!.
  - intros t items item text Hwl Hin Htext.
    destruct (pi_reaped _ _ _ Hinv t items Hwl (Hnone t) item Hin text Htext)
      as [(name & Hd & Hf)|Hrec]; [|done].
    by rewrite (Hh t name (Hnone t) Hd) in Hf.
  - intros path Hfail.
    destruct (pi_database _ _ _ Hinv path)
      as [Hsame|(t & items & item & text & Hwl & Hin & Hp & Htext & _)]; [done|].
    by rewrite (Hfail t items item Hwl Hin Hp) in Htext.
  - by apply map_empty.
  - intros t name Hd. by apply Hh.
Qed.

End PassFacts.

(** ** The workload of [build_workload] in a pass *)

Lemma build_workload_items fs db ncpu pdf_files wl total t items item :
  build_workload fs db ncpu pdf_files = Some (wl, total) →
  wl !! t = Some items → item ∈ items →
  item ∈ outstanding fs db pdf_files.
Proof.
  intros Hbw Hwl (j & Hj)%list_elem_of_lookup_1.
  apply build_workload_round_robin in Hbw as [Hrr _].
  apply (round_robin_assigned _ _ _ item (slots_pos ncpu) Hrr).
  exists t, j. unfold slot_at. by rewrite Hwl.
Qed.

Lemma outstanding_items fs db ncpu pdf_files wl total item :
  build_workload fs db ncpu pdf_files = Some (wl, total) →
  item ∈ outstanding fs db pdf_files →
  ∃ t items, wl !! t = Some items ∧ item ∈ items.
Proof.
  intros Hbw Hin. apply build_workload_round_robin in Hbw as [Hrr _].
  apply (round_robin_assigned _ _ _ item (slots_pos ncpu) Hrr) in Hin
    as (t & j & Hs).
  unfold slot_at in Hs. destruct (wl !! t) as [items|] eqn:Hwl; [|done].
  exists t, items. split; [done|]. by eapply list_elem_of_lookup_2.
Qed.

Lemma outstanding_snapshot fs db pdf_files item :
  item ∈ outstanding fs db pdf_files →
  item_path item ∈ pdf_files ∧ snapshot fs (item_path item) = Some item ∧
  unchanged db (item_path item) (item_mtime item) (item_fsize item) = false.
Proof.
  intros (p & Hin & Hs & Hu)%elem_of_outstanding.
  pose proof (snapshot_path _ _ _ Hs) as Hp. by subst p.
Qed.

Lemma build_workload_one_snapshot fs db ncpu pdf_files wl total :
  build_workload fs db ncpu pdf_files = Some (wl, total) →
  one_snapshot_per_path wl.
Proof.
  intros Hbw t1 t2 items1 items2 item1 item2 Hwl1 Hwl2 Hin1 Hin2 Hp.
  eapply build_workload_items in Hin1; [|done..].
  eapply build_workload_items in Hin2; [|done..].
  apply outstanding_snapshot in Hin1 as (_ & Hs1 & _).
  apply outstanding_snapshot in Hin2 as (_ & Hs2 & _).
  rewrite Hp in Hs1. congruence.
Qed.

Lemma build_workload_no_uncaught `{Collaborators} fs db ncpu pdf_files wl total :
  build_workload fs db ncpu pdf_files = Some (wl, total) →
  caught_on pdf_files → no_uncaught wl.
Proof.
  intros Hbw Hcaught t items item Hwl Hin.
  eapply build_workload_items in Hin; [|done..].
  apply outstanding_snapshot in Hin as (Hp & _). by apply Hcaught.
Qed.

(** What [index] without cleanup leaves behind. *)
Lemma index_finished `{Collaborators} fs ncpu roots pdf_files ignore clock
    sched fuel (c : coord) s :
  (∀ obj, json_loads (json_dumps obj) = Some obj) →
  caught_on pdf_files →
  index fs ncpu roots pdf_files ignore false clock sched fuel c = IndexDone s →
  (∀ item text,
     item ∈ outstanding fs (co_database c) pdf_files →
     item_texts item = Some text →
     co_database (sys_coord s) !! item_path item = Some (item_record item text)) ∧
  (∀ path,
     (∀ item, item ∈ outstanding fs (co_database c) pdf_files →
              item_path item = path → item_texts item = None) →
     co_database (sys_coord s) !! path = co_database c !! path) ∧
  sys_workers s = ∅ ∧
  (∀ t name, PyStr.isdigit name = true → sys_files s !! (t, name) = None).
Proof.
  intros Hjson Hcaught. unfold index.
  destruct (build_workload fs (co_database c) ncpu pdf_files)
    as [[wl total]|] eqn:Hbw; [|done].
  destruct (index_loop fuel (pids_of wl) total clock sched 0 (spawn wl c))
    as [s1| | |] eqn:Hloop; try done.
  intros [= <-].
  destruct (index_loop_finished Hjson wl c
              (build_workload_no_uncaught _ _ _ _ _ _ Hbw Hcaught)
              (build_workload_one_snapshot _ _ _ _ _ _ Hbw)
              fuel total clock sched 0 s1 Hloop)
    as (Hstored & Hkept & Hworkers & Hfiles).
  split_and!; [| |done..].
  - intros item text Hin Htext.
    destruct (outstanding_items _ _ _ _ _ _ item Hbw Hin) as (t & items & Hwl & Hit).
    by eapply Hstored.
  - intros path Hfail. apply Hkept. intros t items item Hwl Hit Hp.
    apply (Hfail item); [|done]. by eapply build_workload_items.
Qed.

(** X7. When [index] (without cleanup) comes to its end, with a
    serialisation that is read back as written and collaborators that
    raise nothing but [PDFPageCountError] on the candidates: every
    outstanding candidate whose conversion and OCR succeed is in the
    database with the fingerprint taken by the partitioner and the OCR
    texts of its pages; every other entry of the database is as before the
    pass; no child and no published staging file is left. *)
Theorem index_stores_every_result `{Collaborators}
    (fs : filesystem) (ncpu : Z) (roots pdf_files ignore : list string)
    (clock : list Q) (sched : list (list (nat * nat))) (fuel : nat)
    (c : coord) (s : system) :
  (∀ obj, json_loads (json_dumps obj) = Some obj) →
  caught_on pdf_files →
  index fs ncpu roots pdf_files ignore false clock sched fuel c = IndexDone s →
  (∀ path st doc text,
     path ∈ pdf_files → fs !! path = Some st →
     unchanged (co_database c) path (py_int (st_mtime st)) (st_size st) = false →
     convert_from_path path = Converted doc → ocr_texts doc = Some text →
     co_database (sys_coord s) !! path
     = Some (DocRecord (py_int (st_mtime st)) (st_size st) text)) ∧
  (∀ path,
     (path ∉ pdf_files ∨
      (∃ st, fs !! path = Some st ∧
             unchanged (co_database c) path (py_int (st_mtime st)) (st_size st)
             = true) ∨
      (∃ msg, convert_from_path path = PDFPageCountError msg)) →
     co_database (sys_coord s) !! path = co_database c !! path) ∧
  sys_workers s = ∅ ∧
  (∀ t name, PyStr.isdigit name = true → sys_files s !! (t, name) = None).
Proof.
  intros Hjson Hcaught Hidx.
  destruct (index_finished _ _ _ _ _ _ _ _ _ _ Hjson Hcaught Hidx)
    as (Hstored & Hkept & Hworkers & Hfiles).
  split_and!; [| |done..].
  - intros path st doc text Hin Hst Hun Hconv Hocr.
    apply (Hstored (WorkItem path (py_int (st_mtime st)) (st_size st)) text).
    + apply elem_of_outstanding. exists path.
      split_and!; [done| |done]. unfold snapshot. by rewrite Hst.
    + by eapply item_texts_converted.
  - intros path Hwhy. apply Hkept. intros item Hin Hpath.
    apply outstanding_snapshot in Hin as (Hp & Hs & Hu).
    rewrite Hpath in Hp, Hs, Hu.
    destruct Hwhy as [Hnot|[(st & Hst & Hun)|(msg & Hconv)]]; [done| |].
    + unfold snapshot in Hs. rewrite Hst in Hs. injection Hs as <-.
      simpl in Hu. congruence.
    + unfold item_texts. by rewrite Hpath, Hconv.
Qed.

Lemma example_caught_on :
  caught_on (H := example_collaborators)
    ["/docs/a.pdf"; "/docs/b.pdf"; "/docs/c.pdf"].
Proof.
  intros p _. split.
  - simpl. by repeat case_decide.
  - intros doc _. unfold ocr_texts. simpl.
    induction doc as [|img doc [text IH]]; simpl; [by eexists|].
    rewrite IH. by eexists.
Qed.

Lemma index_stores_every_result_witness :
  let files := ["/docs/a.pdf"; "/docs/b.pdf"; "/docs/c.pdf"] in
  let c := example_coord in
  let s := example_pass_end in
  index (H := example_collaborators) example_fs 4 ["/docs"] files [] false
    example_clock example_sched 10 c = IndexDone s ∧
  (∀ path st doc text,
     path ∈ files → example_fs !! path = Some st →
     unchanged (co_database c) path (py_int (st_mtime st)) (st_size st) = false →
     convert_from_path (Collaborators := example_collaborators) path
     = Converted doc →
     ocr_texts (H := example_collaborators) doc = Some text →
     co_database (sys_coord s) !! path
     = Some (DocRecord (py_int (st_mtime st)) (st_size st) text)) ∧
  (∀ path,
     (path ∉ files ∨
      (∃ st, example_fs !! path = Some st ∧
             unchanged (co_database c) path (py_int (st_mtime st)) (st_size st)
             = true) ∨
      (∃ msg, convert_from_path (Collaborators := example_collaborators) path
              = PDFPageCountError msg)) →
     co_database (sys_coord s) !! path = co_database c !! path) ∧
  sys_workers s = ∅ ∧
  (∀ t name, PyStr.isdigit name = true → sys_files s !! (t, name) = None).
Proof.
  intros files c s.
  assert (index (H := example_collaborators) example_fs 4 ["/docs"] files []
            false example_clock example_sched 10 c = IndexDone s) as Hidx
    by (vm_compute; reflexivity).
  split; [exact Hidx|].
  exact (index_stores_every_result (H := example_collaborators)
           example_fs 4 ["/docs"] files [] example_clock example_sched 10 c s
           bits_roundtrip example_caught_on Hidx).
Defined.

Lemma build_workload_stat_ok fs db ncpu pdf_files wl total :
  build_workload fs db ncpu pdf_files = Some (wl, total) →
  Forall (λ p, is_Some (fs !! p)) pdf_files.
Proof.
  intros Hbw. apply Forall_forall. intros p Hin.
  destruct (fs !! p) eqn:Hp; [eauto|].
  unfold build_workload in Hbw.
  rewrite build_workload_loop_raises in Hbw; [done|eauto].
Qed.

(** X8. After such a pass, and with the files unchanged, the candidates
    that the next pass finds outstanding are exactly those of this pass
    whose conversion failed, in the same order; if none failed, the next
    pass has the empty workload and the count 0. *)
Theorem next_pass_retries_only_the_failures `{Collaborators}
    (fs : filesystem) (ncpu : Z) (roots pdf_files ignore : list string)
    (clock : list Q) (sched : list (list (nat * nat))) (fuel : nat)
    (c : coord) (s : system) :
  (∀ obj, json_loads (json_dumps obj) = Some obj) →
  caught_on pdf_files →
  index fs ncpu roots pdf_files ignore false clock sched fuel c = IndexDone s →
  outstanding fs (co_database (sys_coord s)) pdf_files
  = filter (λ item, item_texts item = None)
      (outstanding fs (co_database c) pdf_files) ∧
  ((∀ item, item ∈ outstanding fs (co_database c) pdf_files →
            is_Some (item_texts item)) →
   build_workload fs (co_database (sys_coord s)) ncpu pdf_files
   = Some (∅, 0%nat)).
Proof.
  intros Hjson Hcaught Hidx.
  destruct (index_finished _ _ _ _ _ _ _ _ _ _ Hjson Hcaught Hidx)
    as (Hstored & Hkept & _ & _).
  assert (∀ l, l ⊆ pdf_files →
            outstanding fs (co_database (sys_coord s)) l
            = filter (λ item, item_texts item = None)
                (outstanding fs (co_database c) l)) as Hnext.
  { induction l as [|p l IH]; intros Hsub; simpl; [done|].
    assert (l ⊆ pdf_files) as Hl by (intros x Hx; apply Hsub; by right).
    assert (p ∈ pdf_files) as Hp by (apply Hsub; left).
    destruct (snapshot fs p) as [it|] eqn:Hs; [|by apply IH].
    pose proof (snapshot_path _ _ _ Hs) as Hpath.
    assert (∀ item, item ∈ outstanding fs (co_database c) pdf_files →
                    item_path item = p → item = it) as Hsame.
    { intros item (_ & Hs' & _)%outstanding_snapshot Hip.
      rewrite Hip in Hs'. congruence. }
    destruct (unchanged (co_database c) p _ _) eqn:Hu.
    - rewrite (unchanged_same_entry _ (co_database c)), Hu; [by apply IH|].
      apply Hkept. intros item Hin Hip.
      pose proof (Hsame item Hin Hip) as ->.
      apply outstanding_snapshot in Hin as (_ & _ & Hu'). rewrite Hpath in Hu'.
      congruence.
    - assert (it ∈ outstanding fs (co_database c) pdf_files) as Hin.
      { apply elem_of_outstanding. by exists p. }
      destruct (item_texts it) as [text|] eqn:Htext.
      + rewrite filter_cons_False by congruence.
        assert (unchanged (co_database (sys_coord s)) p (item_mtime it)
                  (item_fsize it) = true) as ->; [|by apply IH].
        apply unchanged_true. exists (item_record it text).
        rewrite <- Hpath. split; [by apply Hstored|done].
      + rewrite filter_cons_True by done.
        rewrite (unchanged_same_entry _ (co_database c)), Hu; [by rewrite IH|].
        apply Hkept. intros item Hin' Hip. by rewrite (Hsame item Hin' Hip). }
  split; [by apply Hnext|].
  intros Hall.
  assert (outstanding fs (co_database (sys_coord s)) pdf_files = []) as Hnil.
  { rewrite Hnext by done.
    destruct (filter _ _) as [|item l] eqn:Hf; [done|].
    assert (item ∈ item :: l) as Hin by left.
    rewrite <- Hf in Hin. apply list_elem_of_filter in Hin as [Hnone Hin].
    destruct (Hall item Hin) as [text Htext]. congruence. }
  unfold index in Hidx.
  destruct (build_workload fs (co_database c) ncpu pdf_files)
    as [[wl total]|] eqn:Hbw; [|done].
  destruct (build_workload_total fs (co_database (sys_coord s)) ncpu pdf_files
              (build_workload_stat_ok _ _ _ _ _ _ Hbw)) as (wl' & total' & Hbw').
  pose proof (build_workload_round_robin _ _ _ _ _ _ Hbw') as [_ Htot].
  rewrite Hnil in Htot. simpl in Htot. subst total'.
  by rewrite (build_workload_nothing_todo _ _ _ _ _ Hbw') in Hbw'.
Qed.

Lemma next_pass_retries_only_the_failures_witness :
  let files := ["/docs/a.pdf"; "/docs/b.pdf"; "/docs/c.pdf"] in
  let c := example_coord in
  let s := example_pass_end in
  index (H := example_collaborators) example_fs 4 ["/docs"] files [] false
    example_clock example_sched 10 c = IndexDone s ∧
  outstanding example_fs (co_database (sys_coord s)) files
  = filter (λ item, item_texts (H := example_collaborators) item = None)
      (outstanding example_fs (co_database c) files) ∧
  ((∀ item, item ∈ outstanding example_fs (co_database c) files →
            is_Some (item_texts (H := example_collaborators) item)) →
   build_workload example_fs (co_database (sys_coord s)) 4 files
   = Some (∅, 0%nat)).
Proof.
  intros files c s.
  assert (index (H := example_collaborators) example_fs 4 ["/docs"] files []
            false example_clock example_sched 10 c = IndexDone s) as Hidx
    by (vm_compute; reflexivity).
  split; [exact Hidx|].
  exact (next_pass_retries_only_the_failures (H := example_collaborators)
           example_fs 4 ["/docs"] files [] example_clock example_sched 10 c s
           bits_roundtrip example_caught_on Hidx).
Defined.

(** ** Search engine *)

Section SearchMore.

Variable lower : string → string.

Lemma search_lines_same_lower q1 q2 path pagen lines i :
  lower q1 = lower q2 →
  search_lines lower q1 path pagen lines i
  = search_lines lower q2 path pagen lines i.
Proof.
  intros Hq. revert i. induction lines as [|line rest IH]; intros i; simpl;
    [done|].
  unfold line_matches. by rewrite Hq, IH.
Qed.

Lemma search_pages_same_lower q1 q2 path pgs pagen :
  lower q1 = lower q2 →
  search_pages lower q1 path pgs pagen = search_pages lower q2 path pgs pagen.
Proof.
  intros Hq. revert pagen. induction pgs as [|page rest IH]; intros pagen;
    simpl; [done|].
  by rewrite (search_lines_same_lower q1 q2), IH.
Qed.

Lemma split_lf_no_line_feed s line :
  line ∈ PyStr.split_lf s → ∀ pre post, line ≠ pre +:+ String PyStr.LF post.
Proof.
  revert line. induction s as [|c t IH]; intros line; simpl.
  - intros ->%list_elem_of_singleton [|??] ?; done.
  - case_decide as Hc.
    + intros [->|Hin]%elem_of_cons; [by intros [|??] ?|by apply IH].
    + destruct (PyStr.split_lf t) as [|l ls] eqn:Hsplit.
      * by destruct (PyStrFacts.split_lf_nonempty t).
      * intros [->|Hin]%elem_of_cons; [|apply IH; by right].
        intros [|c' pre] post Heq.
        -- injection Heq as Heq _. by destruct Hc.
        -- change (String c' pre +:+ String PyStr.LF post)
             with (String c' (pre +:+ String PyStr.LF post)) in Heq.
           injection Heq as _ Heq. by eapply (IH l); [left|].
Qed.

End SearchMore.

(** X9. The hits depend on the query only through its lower-casing: two
    argument lists whose joined queries have the same lower-casing (other
    case of letters, or the same words cut into arguments differently) give
    the same hits in the same order. *)
Theorem search_sees_only_the_lowered_query
    (lower : string → string) (db : database) (words1 words2 : list string) :
  lower (PyStr.join " " words1) = lower (PyStr.join " " words2) →
  search lower db words1 = search lower db words2.
Proof.
  intros Hq. unfold search.
  induction (sorted_keys db) as [|path rest IH]; simpl; [done|].
  rewrite IH. destruct (db !! path); [|done].
  by rewrite (search_pages_same_lower lower (PyStr.join " " words1)
                (PyStr.join " " words2)).
Qed.

Lemma search_sees_only_the_lowered_query_witness :
  PyStr.ascii_lower (PyStr.join " " ["Hello"; "WORLD"])
  = PyStr.ascii_lower (PyStr.join " " ["hello world"]) ∧
  search PyStr.ascii_lower example_db ["Hello"; "WORLD"]
  = search PyStr.ascii_lower example_db ["hello world"].
Proof.
  split; [reflexivity|].
  apply (search_sees_only_the_lowered_query PyStr.ascii_lower example_db).
  reflexivity.
Defined.

(** X10. No hit spans lines: the text of a hit contains no line feed,
    whatever the query; and since lines are matched one by one, what is
    printed for a hit is one line of the page, whole. *)
Theorem search_hits_are_single_lines
    (lower : string → string) (db : database) (words : list string) (h : hit) :
  h ∈ search lower db words →
  (∀ pre post, hit_text h ≠ pre +:+ String PyStr.LF post) ∧
  ∃ r page, db !! hit_path h = Some r ∧ page ∈ pages r ∧
            hit_text h ∈ PyStr.split_lf page.
Proof.
  unfold search. intros (path & r & _ & Hr & Hh)%elem_of_search_docs.
  apply elem_of_search_pages in Hh as (k & page & j & line & Hk & Hj & _ & ->).
  simpl. apply list_elem_of_lookup_2 in Hk, Hj. split.
  - by eapply split_lf_no_line_feed.
  - by exists r, page.
Qed.

Lemma search_hits_are_single_lines_witness :
  let h := Hit "/a.pdf" 1 0 "Hello World" in
  h ∈ search PyStr.ascii_lower example_db ["hello"] ∧
  (∀ pre post, hit_text h ≠ pre +:+ String PyStr.LF post) ∧
  ∃ r page, example_db !! hit_path h = Some r ∧ page ∈ pages r ∧
            hit_text h ∈ PyStr.split_lf page.
Proof.
  intros h.
  assert (h ∈ search PyStr.ascii_lower example_db ["hello"]) as Hin
    by (vm_compute; left).
  split; [exact Hin|].
  exact (search_hits_are_single_lines PyStr.ascii_lower example_db ["hello"] h Hin).
Defined.

(** X11. With a lower-casing that maps the empty string to itself, the
    empty query matches every line: each line of each stored page is
    printed, with its path, page number and line index. *)
Theorem search_empty_query_lists_every_line
    (lower : string → string) (db : database) (path : string)
    (r : doc_record) (k j : nat) (page line : string) :
  lower "" = "" →
  db !! path = Some r → pages r !! k = Some page →
  PyStr.split_lf page !! j = Some line →
  Hit path (k + 1) j line ∈ search lower db [""].
Proof.
  intros Hlower Hr Hk Hj. unfold search. apply elem_of_search_docs.
  exists path, r. split_and!; [apply elem_of_sorted_keys; eauto|done|].
  apply elem_of_search_pages. exists k, page, j, line.
  split_and!; [done..| |done].
  unfold line_matches. simpl. rewrite Hlower. by destruct (lower line).
Qed.

Lemma search_empty_query_lists_every_line_witness :
  PyStr.ascii_lower "" = "" ∧
  Hit "/a.pdf" (0 + 1) 1 "Foo" ∈ search PyStr.ascii_lower example_db [""].
Proof.
  split; [reflexivity|].
  apply (search_empty_query_lists_every_line PyStr.ascii_lower example_db
           "/a.pdf" (DocRecord 1700000000 1234
                       ["Hello World" +:+ String PyStr.LF "Foo"])
           0 1 ("Hello World" +:+ String PyStr.LF "Foo") "Foo");
    reflexivity.
Defined.

(** ** Path discovery *)

Lemma split_on_nonempty sep s : split_on sep s ≠ [].
Proof.
  induction s as [|c t IH]; simpl; [done|].
  case_decide; [done|]. by destruct (split_on sep t).
Qed.

Lemma split_on_app sep a b :
  split_on sep (a +:+ String sep b) = split_on sep a ++ split_on sep b.
Proof.
  induction a as [|x a IH].
  - change ("" +:+ String sep b) with (String sep b). simpl.
    by rewrite decide_True.
  - change (String x a +:+ String sep b) with (String x (a +:+ String sep b)).
    simpl. rewrite IH. case_decide; [done|].
    pose proof (split_on_nonempty sep a).
    by destruct (split_on sep a).
Qed.

Lemma split_on_whole sep s :
  (∀ pre post, s ≠ pre +:+ String sep post) → split_on sep s = [s].
Proof.
  induction s as [|c t IH]; intros Hno; simpl; [done|].
  case_decide as Hc.
  - subst c. by destruct (Hno "" t).
  - rewrite IH; [done|]. intros pre post ->. by destruct (Hno (String c pre) post).
Qed.

(** The last piece of a split: what follows the last separator, or the
    whole string when it has none. *)
Lemma split_on_last sep s :
  ∃ ext, last (split_on sep s) = Some ext ∧
         (∀ pre post, ext ≠ pre +:+ String sep post) ∧
         (s = ext ∨ ∃ stem, s = stem +:+ String sep ext).
Proof.
  induction s as [|c t (ext & Hlast & Hno & Hs)]; simpl.
  - exists "". split_and!; [done| |by left]. by intros [|??] ?.
  - case_decide as Hc.
    + subst c. exists ext. split_and!; [|done|].
      * pose proof (split_on_nonempty sep t). by destruct (split_on sep t).
      * right. destruct Hs as [->|[stem ->]]; [by exists ""|].
        by exists (String sep stem).
    + destruct (split_on sep t) as [|l [|l' ls]] eqn:Hsplit; [done| |].
      * simpl in Hlast. injection Hlast as <-.
        exists (String c l). split_and!; [done| |].
        -- intros [|c' pre] post Heq; [injection Heq as ? _; done|].
           change (String c' pre +:+ String sep post)
             with (String c' (pre +:+ String sep post)) in Heq.
           injection Heq as _ Heq. by destruct (Hno pre post).
        -- left. destruct Hs as [->|[stem ->]]; [done|].
           rewrite split_on_app in Hsplit.
           pose proof (split_on_nonempty sep stem).
           pose proof (split_on_nonempty sep l).
           destruct (split_on sep stem) as [|? [|??]], (split_on sep l);
             simplify_eq/=.
      * exists ext. split_and!; [done..|]. right.
        destruct Hs as [->|[stem ->]]; [|by exists (String c stem)].
        by rewrite (split_on_whole sep ext) in Hsplit.
Qed.

Lemma ignored_path_in_paths path ignore :
  ignored path ignore = path_in_paths path ignore.
Proof. induction ignore as [|item rest IH]; simpl; [done|]. by rewrite IH. Qed.

(** X12. A listed name counts as a document exactly when what follows
    its last dot (the whole name when it has no dot) lower-cases to
    "pdf". *)
Theorem pdf_extension_is_what_follows_the_last_dot
    (lower : string → string) (path : string) :
  has_pdf_extension lower path = true ↔
  ∃ ext, (path = ext ∨ ∃ stem, path = stem +:+ String "." ext) ∧
         (∀ pre post, ext ≠ pre +:+ String "." post) ∧
         lower ext = "pdf".
Proof.
  unfold has_pdf_extension. rewrite bool_decide_eq_true. split.
  - intros Hlow. destruct (split_on_last "." path) as (ext & Hlast & Hno & Hs).
    rewrite Hlast in Hlow. by exists ext.
  - intros (ext & Hs & Hno & Hlow).
    assert (last (split_on "." path) = Some ext) as ->; [|done].
    destruct Hs as [->|[stem ->]].
    + by rewrite split_on_whole.
    + rewrite split_on_app, (split_on_whole "." ext) by done.
      by rewrite last_snoc.
Qed.

Section DiscoveryFacts.

Context `{DirectoryView}.
Variable lower : string → string.

Lemma elem_of_discover_listing listing ignore p :
  p ∈ discover_listing lower listing ignore ↔
  ∃ name, name ∈ listing ∧ has_pdf_extension lower name = true ∧
          p = abspath name ∧ path_exists p = true ∧
          path_in_paths p ignore = false.
Proof.
  induction listing as [|name rest IH]; simpl.
  - rewrite elem_of_nil. split; [done|]. intros (? & Hin & _).
    by apply elem_of_nil in Hin.
  - rewrite ignored_path_in_paths.
    destruct (has_pdf_extension lower name) eqn:Hext; simpl.
    + destruct (path_exists (abspath name)) eqn:Hex; simpl.
      * destruct (path_in_paths (abspath name) ignore) eqn:Hig.
        -- rewrite IH. split.
           ++ intros (n & Hin & ?). exists n. split; [by right|done].
           ++ intros (n & [->|Hin]%elem_of_cons & ? & -> & ? & ?);
                [congruence|by exists n].
        -- rewrite elem_of_cons, IH. split.
           ++ intros [->|(n & Hin & ?)];
                [exists name; split_and!; [left|done..]|].
              exists n. split; [by right|done].
           ++ intros (n & [->|Hin]%elem_of_cons & ? & -> & ? & ?);
                [by left|right; by exists n].
      * rewrite IH. split.
        -- intros (n & Hin & ?). exists n. split; [by right|done].
        -- intros (n & [->|Hin]%elem_of_cons & ? & -> & ? & ?);
             [congruence|by exists n].
    + rewrite IH. split.
      * intros (n & Hin & ?). exists n. split; [by right|done].
      * intros (n & [->|Hin]%elem_of_cons & ? & -> & ? & ?);
          [congruence|by exists n].
Qed.

Lemma discover_app roots1 roots2 ignore :
  discover lower (roots1 ++ roots2) ignore
  = discover lower roots1 ignore ++ discover lower roots2 ignore.
Proof.
  induction roots1 as [|r roots1 IH]; simpl; [done|].
  by rewrite IH, app_assoc.
Qed.

Lemma elem_of_discover roots ignore p :
  p ∈ discover lower roots ignore ↔
  ∃ root name, root ∈ roots ∧ name ∈ glob_under root ∧
               has_pdf_extension lower name = true ∧
               p = abspath name ∧ path_exists p = true ∧
               path_in_paths p ignore = false.
Proof.
  induction roots as [|r rest IH]; simpl.
  - rewrite elem_of_nil. split; [done|]. intros (? & ? & Hin & _).
    by apply elem_of_nil in Hin.
  - rewrite elem_of_app, elem_of_discover_listing, IH. split.
    + intros [(name & ?)|(root & name & Hin & ?)].
      * exists r, name. split; [left|done].
      * exists root, name. split; [by right|done].
    + intros (root & name & [->|Hin]%elem_of_cons & ?).
      * left. by exists name.
      * right. by exists root, name.
Qed.

End DiscoveryFacts.

(** X13. The discovery keeps exactly the listed names with a pdf
    extension whose absolute path exists and starts with no ignore prefix;
    the roots are walked one after the other and nothing is deduplicated,
    so what two roots both reach is listed twice. *)
Theorem discovery_filters_and_does_not_deduplicate `{DirectoryView}
    (lower : string → string) (ignore : list string) :
  (∀ roots p,
     p ∈ discover lower roots ignore ↔
     ∃ root name, root ∈ roots ∧ name ∈ glob_under root ∧
                  has_pdf_extension lower name = true ∧
                  p = abspath name ∧ path_exists p = true ∧
                  path_in_paths p ignore = false) ∧
  (∀ roots1 roots2,
     discover lower (roots1 ++ roots2) ignore
     = discover lower roots1 ignore ++ discover lower roots2 ignore) ∧
  (∀ root1 root2 p,
     p ∈ discover lower [root1] ignore → p ∈ discover lower [root2] ignore →
     ¬ NoDup (discover lower [root1; root2] ignore)).
Proof.
  split_and!.
  - intros roots p. apply elem_of_discover.
  - intros roots1 roots2. apply discover_app.
  - intros root1 root2 p H1 H2.
    change [root1; root2] with ([root1] ++ [root2]). rewrite discover_app.
    intros Hnd. apply NoDup_app in Hnd as (_ & Hdisj & _). by eapply Hdisj.
Qed.

(** ** Reconciler *)

(** What the scan prints: one line per path it decides to remove, saying
    why. *)
Lemma cleanup_scan_out roots files ignore keys :
  length (cleanup_scan roots files ignore keys).2
  = length (cleanup_scan roots files ignore keys).1 ∧
  ∀ line, line ∈ (cleanup_scan roots files ignore keys).2 →
    ∃ p, p ∈ keys ∧ path_in_paths p roots = true ∧
         ((line = Text ("cleanup, file deleted: " +:+ p) ∧ p ∉ files) ∨
          (line = Text ("cleanup, path ignored: " +:+ p) ∧ p ∈ files ∧
           path_in_paths p ignore = true)).
Proof.
  induction keys as [|k rest [IHlen IH]]; simpl.
  { split; [done|]. intros line Hin. by apply elem_of_nil in Hin. }
  destruct (cleanup_scan roots files ignore rest) as [to_remove out].
  simpl in *.
  assert (∀ line, line ∈ out →
            ∃ p, p ∈ k :: rest ∧ path_in_paths p roots = true ∧
              ((line = Text ("cleanup, file deleted: " +:+ p) ∧ p ∉ files) ∨
               (line = Text ("cleanup, path ignored: " +:+ p) ∧ p ∈ files ∧
                path_in_paths p ignore = true))) as IH'.
  { intros line Hin. destruct (IH line Hin) as (p & Hp & ?).
    exists p. split; [by right|done]. }
  destruct (path_in_paths k roots) eqn:Hroot; simpl; [|done].
  case_bool_decide as Hfile; simpl.
  - split; [by rewrite IHlen|].
    intros line [->|Hin]%elem_of_cons; [|by apply IH'].
    exists k. split_and!; [left|done|by left].
  - destruct (path_in_paths k ignore) eqn:Hig; simpl; [|done].
    split; [by rewrite IHlen|].
    intros line [->|Hin]%elem_of_cons; [|by apply IH'].
    exists k. split_and!; [left|done|right].
    split_and!; [done| |done]. by destruct (decide (k ∈ files)).
Qed.

Lemma pop_all_size to_remove (db db' : database) :
  pop_all to_remove db = Some db' →
  (size db' + length to_remove = size db)%nat.
Proof.
  revert db. induction to_remove as [|p rest IH]; intros db; simpl.
  - intros [= <-]. lia.
  - destruct (db !! p) as [r|] eqn:Hp; [|done].
    intros Hpop%IH. rewrite map_size_delete, Hp in Hpop.
    assert (size db ≠ 0)%nat; [|simpl in *; lia].
    apply map_size_ne_0_lookup. eauto.
Qed.

Lemma cleanup_scan_nothing roots files ignore keys :
  (∀ p, p ∈ keys → ¬ stale roots files ignore p) →
  cleanup_scan roots files ignore keys = ([], []).
Proof.
  intros Hfresh.
  pose proof (cleanup_scan_spec roots files ignore keys) as Hspec.
  pose proof (cleanup_scan_out roots files ignore keys) as [Hlen _].
  destruct (cleanup_scan roots files ignore keys) as [to_remove out].
  simpl in *. destruct to_remove as [|p to_remove].
  - by destruct out.
  - destruct (Hspec p) as [[Hin Hst] _]; [left|]. by destruct (Hfresh p).
Qed.

(** X14. [cleanup] prints one line per record it removes, and a second
    [cleanup] with the same arguments finds nothing more: it prints
    nothing and leaves the database as it is, but writes its file once
    again. *)
Theorem cleanup_is_idempotent
    (paths_to_index pdf_files paths_to_ignore : list string)
    (c c' : coord) (out : list printed) :
  cleanup paths_to_index pdf_files paths_to_ignore c = Some (c', out) →
  (length out + size (co_database c') = size (co_database c))%nat ∧
  cleanup paths_to_index pdf_files paths_to_ignore c'
  = Some (Coord (co_database c') (co_database c' :: co_db_file c')
            (co_pdfs_done c'), []).
Proof.
  unfold cleanup.
  pose proof (cleanup_scan_spec paths_to_index pdf_files paths_to_ignore
                (dict_keys (co_database c))) as Hspec.
  pose proof (cleanup_scan_NoDup paths_to_index pdf_files paths_to_ignore
                (dict_keys (co_database c))) as Hnd.
  pose proof (cleanup_scan_out paths_to_index pdf_files paths_to_ignore
                (dict_keys (co_database c))) as [Hlen _].
  destruct (cleanup_scan _ _ _ (dict_keys (co_database c)))
    as [to_remove out0]. simpl in *.
  destruct (pop_all_spec to_remove (co_database c)) as (db' & Hpop & Hlook).
  { apply Hnd. unfold dict_keys. apply NoDup_fst_map_to_list. }
  { intros p [Hp _]%Hspec. by apply elem_of_dict_keys. }
  rewrite Hpop. intros [= <- <-]. simpl. split.
  - apply pop_all_size in Hpop. lia.
  - rewrite cleanup_scan_nothing; [done|].
    intros p [r Hp]%elem_of_dict_keys Hstale.
    rewrite Hlook in Hp. case_decide as Hin; [done|].
    apply Hin, Hspec. split; [|done]. apply elem_of_dict_keys. eauto.
Qed.

Lemma cleanup_is_idempotent_witness :
  let c := example_coord in
  let c' := Coord {[ "/docs/a.pdf" := DocRecord 1700000000 100 ["alpha"] ]}
              [ {[ "/docs/a.pdf" := DocRecord 1700000000 100 ["alpha"] ]};
                example_index ] 0 in
  let out := [Text "cleanup, file deleted: /docs/b.pdf"] in
  cleanup ["/docs"] ["/docs/a.pdf"] [] c = Some (c', out) ∧
  (length out + size (co_database c') = size (co_database c))%nat ∧
  cleanup ["/docs"] ["/docs/a.pdf"] [] c'
  = Some (Coord (co_database c') (co_database c' :: co_db_file c')
            (co_pdfs_done c'), []).
Proof.
  intros c c' out.
  assert (cleanup ["/docs"] ["/docs/a.pdf"] [] c = Some (c', out)) as Hc
    by (vm_compute; reflexivity).
  split; [exact Hc|].
  exact (cleanup_is_idempotent ["/docs"] ["/docs/a.pdf"] [] c c' out Hc).
Defined.

(** X15. In a pass with cleanup the candidates are those of the
    discovery with the same ignore list, none of which starts with an
    ignore prefix; so [cleanup] never prints "path ignored": every line it
    prints is a "file deleted" line, for a record that is removed, that
    passes the prefix test of [path_in_paths] against the indexed roots
    and that is not a candidate, be the file gone, ignored, or never
    listed under these roots. *)
Theorem cleanup_after_discovery_reports_only_deletions `{DirectoryView}
    (lower : string → string) (paths_to_index paths_to_ignore : list string)
    (c c' : coord) (out : list printed) :
  cleanup paths_to_index (discover lower paths_to_index paths_to_ignore)
    paths_to_ignore c = Some (c', out) →
  ∀ line, line ∈ out →
    ∃ p, line = Text ("cleanup, file deleted: " +:+ p) ∧
         is_Some (co_database c !! p) ∧ co_database c' !! p = None ∧
         path_in_paths p paths_to_index = true ∧
         p ∉ discover lower paths_to_index paths_to_ignore.
Proof.
  set (files := discover lower paths_to_index paths_to_ignore).
  unfold cleanup.
  pose proof (cleanup_scan_spec paths_to_index files paths_to_ignore
                (dict_keys (co_database c))) as Hspec.
  pose proof (cleanup_scan_NoDup paths_to_index files paths_to_ignore
                (dict_keys (co_database c))) as Hnd.
  pose proof (cleanup_scan_out paths_to_index files paths_to_ignore
                (dict_keys (co_database c))) as [_ Hout].
  destruct (cleanup_scan _ _ _ (dict_keys (co_database c)))
    as [to_remove out0]. simpl in *.
  destruct (pop_all_spec to_remove (co_database c)) as (db' & Hpop & Hlook).
  { apply Hnd. unfold dict_keys. apply NoDup_fst_map_to_list. }
  { intros p [Hp _]%Hspec. by apply elem_of_dict_keys. }
  rewrite Hpop. intros [= <- <-] line Hline. simpl.
  destruct (Hout line Hline) as (p & Hkey & Hroot & [[-> Hnot]|(_ & Hin & Hig)]).
  - exists p. split_and!; [done|by apply elem_of_dict_keys| | |done].
    + rewrite Hlook, decide_True; [done|]. apply Hspec.
      split; [done|]. split; [by apply path_in_paths_spec|by left].
    + done.
  - apply elem_of_discover in Hin as (? & ? & _ & _ & _ & _ & _ & Hno).
    congruence.
Qed.

Lemma cleanup_after_discovery_reports_only_deletions_witness :
  let c := Coord {[ "/docs/a.pdf" := DocRecord 1700000000 100 ["alpha"];
                    "/docs/old/b.PDF" := DocRecord 1600000000 200 ["beta"] ]}
             [] 0 in
  let c' := Coord {[ "/docs/a.pdf" := DocRecord 1700000000 100 ["alpha"] ]}
              [ {[ "/docs/a.pdf" := DocRecord 1700000000 100 ["alpha"] ]} ] 0 in
  let out := [Text "cleanup, file deleted: /docs/old/b.PDF"] in
  let files := discover (H := example_directory) PyStr.ascii_lower
                 ["/docs"] ["/docs/old"] in
  cleanup ["/docs"] files ["/docs/old"] c = Some (c', out) ∧
  ∀ line, line ∈ out →
    ∃ p, line = Text ("cleanup, file deleted: " +:+ p) ∧
         is_Some (co_database c !! p) ∧ co_database c' !! p = None ∧
         path_in_paths p ["/docs"] = true ∧ p ∉ files.
Proof.
  intros c c' out files.
  assert (cleanup ["/docs"] files ["/docs/old"] c = Some (c', out)) as Hc
    by (vm_compute; reflexivity).
  split; [exact Hc|].
  exact (cleanup_after_discovery_reports_only_deletions
           (H := example_directory) PyStr.ascii_lower ["/docs"] ["/docs/old"]
           c c' out Hc).
Defined.

(** ** Harvesting *)

Lemma glob_dir_NoDup (files : gmap (nat * string) string) t :
  NoDup (glob_dir files t).
Proof.
  unfold glob_dir. pose proof (NoDup_fst_map_to_list files) as Hnd.
  induction (map_to_list files) as [|[[t' name] content] rest IH]; simpl;
    [constructor|].
  apply NoDup_cons in Hnd as [Hnotin Hnd]. case_decide as Ht; [|by apply IH].
  subst t'. constructor; [|by apply IH].
  intros ([[t' n] c] & Heq & Hin)%list_elem_of_omap.
  case_decide; simplify_eq. apply Hnotin.
  apply list_elem_of_fmap. by exists ((t, name), c).
Qed.

Lemma glob_dir_lists (files : gmap (nat * string) string) t name :
  name ∈ glob_dir files t ↔ is_Some (files !! (t, name)).
Proof.
  unfold glob_dir. rewrite list_elem_of_omap. split.
  - intros ([[t' n] c] & Hin & Heq). case_decide; simplify_eq.
    apply elem_of_map_to_list in Hin. eauto.
  - intros [c Hc]. exists ((t, name), c).
    split; [by apply elem_of_map_to_list|]. by rewrite decide_True.
Qed.

Section HarvestFacts.

Context `{Collaborators}.
Hypothesis json_roundtrip : ∀ obj, json_loads (json_dumps obj) = Some obj.

(** The loop of [process_results] over a listing of files that are there:
    one merge, one save and one count per name that is a number. *)
Lemma process_listing_counts t names s :
  staging_inv s → NoDup names →
  (∀ name, name ∈ names → is_Some (sys_files s !! (t, name))) →
  ∃ s' saved,
    process_listing t names s = inl s' ∧
    co_pdfs_done (sys_coord s')
    = (co_pdfs_done (sys_coord s)
       + length (filter (λ n, PyStr.isdigit n = true) names))%nat ∧
    co_db_file (sys_coord s') = saved ++ co_db_file (sys_coord s) ∧
    length saved = length (filter (λ n, PyStr.isdigit n = true) names) ∧
    (saved = [] → sys_coord s' = sys_coord s) ∧
    (saved ≠ [] → head saved = Some (co_database (sys_coord s'))) ∧
    (∀ name, name ∈ names → PyStr.isdigit name = true →
             sys_files s' !! (t, name) = None) ∧
    (∀ t' name, t' ≠ t ∨ PyStr.isdigit name = false ∨ name ∉ names →
                sys_files s' !! (t', name) = sys_files s !! (t', name)) ∧
    sys_workers s' = sys_workers s ∧ sys_stdout s' = sys_stdout s.
Proof.
  intros Hinv Hnd. revert s Hinv.
  induction Hnd as [|name rest Hnotin Hnd IH]; intros s Hinv Hthere; simpl.
  { exists s, []. split_and!; simpl; try done.
    intros name Hn. by apply elem_of_nil in Hn. }
  destruct (Hthere name) as [content Hfile]; [left|].
  destruct (PyStr.isdigit name) eqn:Hd.
  - destruct (merge_file_published json_roundtrip t name content s Hinv Hfile Hd)
      as (obj & -> & Hgood & Hmerge).
    rewrite Hmerge. set (s1 := System _ _ _ _ _ _ _) in *.
    assert (staging_inv s1) as Hinv1 by (by eapply merge_file_inv).
    destruct (IH s1 Hinv1)
      as (s' & saved & -> & Hdone & Hsaved & Hlen & Hnil & Hhead & Hgone & Hkeep
          & Hw & Hout).
    { intros n Hn. simpl. rewrite lookup_delete_ne by (intros [= ->]; done).
      apply Hthere. by right. }
    exists s', (saved ++ [co_database (sys_coord s1)]).
    rewrite filter_cons_True by done. subst s1. simpl in *.
    split_and!; [done|lia|by rewrite Hsaved, <- app_assoc|
                 rewrite length_app; simpl; lia|by intros [? ?]%app_eq_nil| |
                 | |done..].
    + intros _. destruct saved as [|db saved]; [|by apply Hhead].
      by rewrite (Hnil eq_refl).
    + intros n [->|Hn]%elem_of_cons Hdn; [|by apply Hgone].
      rewrite Hkeep by (right; by right). apply lookup_delete_eq.
    + intros t' n Hwhy. rewrite Hkeep.
      * apply lookup_delete_ne. intros [= -> ->].
        destruct Hwhy as [?|[?|Hn]]; [done|congruence|]. apply Hn. left.
      * destruct Hwhy as [?|[?|Hn]]; [by left|right; by left|].
        right. right. intros ?. apply Hn. by right.
  - assert (merge_file t name s = Some (inl s)) as ->
      by (unfold merge_file; by rewrite Hfile, Hd).
    destruct (IH s Hinv)
      as (s' & saved & -> & Hdone & Hsaved & Hlen & Hnil & Hhead & Hgone & Hkeep
          & Hw & Hout).
    { intros n Hn. apply Hthere. by right. }
    exists s', saved. rewrite filter_cons_False by congruence.
    split_and!; [done..| | |done|done].
    + intros n [->|Hn]%elem_of_cons Hdn; [congruence|by apply Hgone].
    + intros t' n Hwhy. apply Hkeep.
      destruct Hwhy as [?|[?|Hn]]; [by left|right; by left|].
      right. right. intros ?. apply Hn. by right.
Qed.

End HarvestFacts.

(** X16. In every state of a pass, with a serialisation that is read back
    as written, [process_results] does not raise: it merges every file of
    the slot's directory whose name is a number and removes it, counts
    each in [pdfs_done] and writes the database file once for each, so
    that the file ends in step with the database; it touches no file of
    another directory nor any file under a temporary name, no worker, and
    prints nothing. *)
Theorem process_results_harvests_the_published_files `{Collaborators}
    (workload : workload_map) (c : coord) (s : system) (t : nat) :
  (∀ obj, json_loads (json_dumps obj) = Some obj) →
  reachable (spawn workload c) s →
  ∃ s' saved,
    process_results t s = inl s' ∧
    co_pdfs_done (sys_coord s')
    = (co_pdfs_done (sys_coord s)
       + length (filter (λ n, PyStr.isdigit n = true)
                   (glob_dir (sys_files s) t)))%nat ∧
    co_db_file (sys_coord s') = saved ++ co_db_file (sys_coord s) ∧
    length saved
    = length (filter (λ n, PyStr.isdigit n = true) (glob_dir (sys_files s) t)) ∧
    (saved = [] → sys_coord s' = sys_coord s) ∧
    (saved ≠ [] → head saved = Some (co_database (sys_coord s'))) ∧
    (∀ name, PyStr.isdigit name = true → sys_files s' !! (t, name) = None) ∧
    (∀ t' name, t' ≠ t ∨ PyStr.isdigit name = false →
                sys_files s' !! (t', name) = sys_files s !! (t', name)) ∧
    sys_workers s' = sys_workers s ∧ sys_stdout s' = sys_stdout s.
Proof.
  intros Hjson Hreach. pose proof (reachable_inv _ _ _ Hreach) as Hinv.
  unfold process_results.
  destruct (process_listing_counts Hjson t (glob_dir (sys_files s) t) s Hinv
              (glob_dir_NoDup _ _))
    as (s' & saved & Hrun & Hdone & Hsaved & Hlen & Hnil & Hhead & Hgone & Hkeep
        & Hw & Hout).
  { intros name. apply glob_dir_lists. }
  exists s', saved. split_and!; [done..| | |done|done].
  - intros name Hd.
    destruct (decide (name ∈ glob_dir (sys_files s) t)) as [Hin|Hnot];
      [by apply Hgone|].
    rewrite Hkeep by (right; by right).
    apply eq_None_not_Some. by rewrite <- glob_dir_lists.
  - intros t' name Hwhy. apply Hkeep. destruct Hwhy; [by left|right; by left].
Qed.

Lemma process_results_harvests_the_published_files_witness :
  let s := example_published_state in
  reachable (H := example_collaborators)
    (spawn example_workload example_coord) s ∧
  ∃ s' saved,
    process_results (H := example_collaborators) 1 s = inl s' ∧
    co_pdfs_done (sys_coord s')
    = (co_pdfs_done (sys_coord s)
       + length (filter (λ n, PyStr.isdigit n = true)
                   (glob_dir (sys_files s) 1)))%nat ∧
    co_db_file (sys_coord s') = saved ++ co_db_file (sys_coord s) ∧
    length saved
    = length (filter (λ n, PyStr.isdigit n = true) (glob_dir (sys_files s) 1)) ∧
    (saved = [] → sys_coord s' = sys_coord s) ∧
    (saved ≠ [] → head saved = Some (co_database (sys_coord s'))) ∧
    (∀ name, PyStr.isdigit name = true → sys_files s' !! (1%nat, name) = None) ∧
    (∀ t' name, t' ≠ 1%nat ∨ PyStr.isdigit name = false →
                sys_files s' !! (t', name) = sys_files s !! (t', name)) ∧
    sys_workers s' = sys_workers s ∧ sys_stdout s' = sys_stdout s.
Proof.
  intros s.
  assert (reachable (H := example_collaborators)
            (spawn example_workload example_coord) s) as Hreach.
  { exists (example_actions ++ [WorkerStep 1 5000; WorkerStep 1 0]).
    vm_compute. reflexivity. }
  split; [exact Hreach|].
  exact (process_results_harvests_the_published_files
           (H := example_collaborators) example_workload example_coord s 1
           bits_roundtrip Hreach).
Defined.

(** ** Progress of the workers and of the loop *)

Lemma drop_length_le n s : (String.length (PyStr.drop n s) ≤ String.length s)%nat.
Proof.
  revert s. induction n as [|n IH]; intros [|c s]; simpl; try lia.
  specialize (IH s). lia.
Qed.

Section ProgressFacts.

Context `{Collaborators}.

Lemma item_budget_pos item : (1 ≤ item_budget item)%nat.
Proof. unfold item_budget. case_match; lia. Qed.

Lemma worker_budget_zero w : worker_budget w = 0%nat → ended w.
Proof.
  unfold worker_budget, ended, batch_budget. destruct (w_pc w); try lia; auto.
Qed.

Lemma ended_or_not w : ended w ∨ ¬ ended w.
Proof.
  unfold ended. destruct (w_pc w); [right|right|left|left]; auto;
    by intros [?|?].
Qed.

Lemma worker_step_ended t chunk s :
  (∀ w, sys_workers s !! t = Some w → ended w) → worker_step t chunk s = None.
Proof.
  intros Hend. unfold worker_step.
  destruct (sys_workers s !! t) as [w|]; [|done].
  by destruct (Hend w eq_refl) as [-> | ->].
Qed.

Lemma batch_budget_cons item rest :
  batch_budget (item :: rest) = (item_budget item + batch_budget rest)%nat.
Proof. unfold batch_budget. rewrite fmap_cons. simpl. lia. Qed.

(** A worker that has not ended takes its step, and its budget goes
    down. *)
Lemma worker_step_progress t chunk s w :
  sys_workers s !! t = Some w → ¬ ended w →
  ∃ s' w', worker_step t chunk s = Some s' ∧
           sys_workers s' = <[t := w']> (sys_workers s) ∧
           (worker_budget w' < worker_budget w)%nat.
Proof.
  intros Hw Hnot. unfold worker_step. rewrite Hw.
  unfold worker_budget at 2.
  destruct (w_pc w) as [|pending| |] eqn:Epc;
    [| |destruct Hnot; by left|destruct Hnot; by right].
  - destruct (w_todo w) as [|item rest] eqn:Htodo.
    { eexists _, _. split_and!; [done..|].
      unfold worker_budget, batch_budget. simpl. lia. }
    pose proof (item_budget_pos item) as Hpos.
    rewrite batch_budget_cons.
    destruct (convert_from_path (item_path item)) as [doc|msg|] eqn:Hconv.
    + pose proof (ocr_pages_texts (item_path item) doc 0) as Htexts.
      destruct (ocr_pages (item_path item) doc 0) as [out [text|]];
        simpl in Htexts.
      * eexists _, _. split_and!; [done..|].
        pose proof (item_texts_converted item doc (Some text) Hconv
                      (eq_sym Htexts)) as Hitem.
        unfold item_budget. rewrite Hitem.
        unfold worker_budget. cbn [w_pc w_todo tail]. lia.
      * eexists _, _. split_and!; [done..|].
        unfold worker_budget. cbn [w_pc]. lia.
    + eexists _, _. split_and!; [done..|].
      unfold worker_budget. cbn [w_pc w_todo]. lia.
    + eexists _, _. split_and!; [done..|].
      unfold worker_budget. cbn [w_pc]. lia.
  - destruct pending as [|c pending].
    + destruct (sys_files s !! (t, tmp_name (w_i w))).
      * eexists _, _. split_and!; [done..|].
        unfold worker_budget. cbn [w_pc w_todo]. simpl. lia.
      * eexists _, _. split_and!; [done..|].
        unfold worker_budget. cbn [w_pc]. lia.
    + eexists _, _. split_and!; [done..|].
      unfold worker_budget. cbn [w_pc w_todo]. simpl.
      pose proof (drop_length_le chunk pending). lia.
Qed.

Lemma run_workers_cons t chunk steps s :
  run_workers ((t, chunk) :: steps) s
  = run_workers steps (default s (worker_step t chunk s)).
Proof. done. Qed.

Lemma run_workers_app steps1 steps2 s :
  run_workers (steps1 ++ steps2) s = run_workers steps2 (run_workers steps1 s).
Proof. unfold run_workers. apply foldl_app. Qed.

(** Steps of worker [t], as many as its budget, bring it to its end and
    move no other worker. *)
Lemma run_worker_to_the_end chunks s t w :
  sys_workers s !! t = Some w →
  (worker_budget w ≤ length chunks)%nat →
  ∃ w', sys_workers (run_workers ((λ chunk, (t, chunk)) <$> chunks) s) !! t
        = Some w' ∧ ended w' ∧
        ∀ t', t' ≠ t →
          sys_workers (run_workers ((λ chunk, (t, chunk)) <$> chunks) s) !! t'
          = sys_workers s !! t'.
Proof.
  revert s w. induction chunks as [|chunk chunks IH]; intros s w Hw Hb.
  - exists w. split_and!; [done| |done]. apply worker_budget_zero.
    simpl in Hb. lia.
  - rewrite fmap_cons, run_workers_cons.
    destruct (ended_or_not w) as [Hend|Hnot].
    + rewrite worker_step_ended by (intros w0; rewrite Hw; by intros [= <-]).
      simpl. apply (IH s w Hw).
      assert (worker_budget w = 0%nat) as ->; [|lia].
      unfold worker_budget. by destruct Hend as [-> | ->].
    + destruct (worker_step_progress t chunk s w Hw Hnot)
        as (s1 & w1 & -> & Hworkers & Hless).
      simpl.
      destruct (IH s1 w1) as (w' & Hw' & Hended & Hothers).
      { by rewrite Hworkers, lookup_insert_eq. }
      { simpl in Hb. lia. }
      exists w'. split_and!; [done..|]. intros t' Hne.
      by rewrite Hothers, Hworkers, lookup_insert_ne.
Qed.

End ProgressFacts.

(** X17. A worker that is given as many steps as its budget (one step
    for an item that cannot be converted; for another item the conversion,
    one step per character of its serialised result and the rename; one
    step to leave the loop) has exited or died, however much each write
    step lets through, and no other worker has moved. *)
Theorem worker_ends_within_its_budget `{Collaborators}
    (chunks : list nat) (s : system) (t : nat) (w : worker) :
  sys_workers s !! t = Some w →
  (worker_budget w ≤ length chunks)%nat →
  ∃ w', sys_workers (run_workers ((λ chunk, (t, chunk)) <$> chunks) s) !! t
        = Some w' ∧
        (w_pc w' = Exited ∨ w_pc w' = Died) ∧
        ∀ t', t' ≠ t →
          sys_workers (run_workers ((λ chunk, (t, chunk)) <$> chunks) s) !! t'
          = sys_workers s !! t'.
Proof.
  intros Hw Hb.
  destruct (ended_or_not w) as [Hend|Hnot].
  - exists w.
    assert (run_workers ((λ chunk, (t, chunk)) <$> chunks) s = s) as ->; [|done].
    induction chunks as [|chunk chunks IH]; [done|].
    rewrite fmap_cons, run_workers_cons, worker_step_ended.
    + apply IH. simpl in Hb.
      assert (worker_budget w = 0%nat) as ->; [|lia].
      unfold worker_budget. by destruct Hend as [-> | ->].
    + intros w0. rewrite Hw. by intros [= <-].
  - destruct chunks as [|chunk chunks].
    { destruct Hnot. apply worker_budget_zero. simpl in Hb. lia. }
    rewrite fmap_cons, run_workers_cons.
    destruct (worker_step_progress t chunk s w Hw Hnot)
      as (s1 & w1 & -> & Hworkers & Hless). simpl.
    destruct (run_worker_to_the_end chunks s1 t w1)
      as (w' & Hw' & Hended & Hothers).
    { by rewrite Hworkers, lookup_insert_eq. }
    { simpl in Hb. lia. }
    exists w'. split_and!; [done..|]. intros t' Hne.
    by rewrite Hothers, Hworkers, lookup_insert_ne.
Qed.

Lemma worker_ends_within_its_budget_witness :
  let s := spawn example_workload example_coord in
  let w := Worker [WorkItem "/docs/b.pdf" 1700000100 200;
                   WorkItem "/docs/a.pdf" 1700000000 100] 0 AtItem in
  let chunks := replicate 708 7%nat in
  sys_workers s !! 0%nat = Some w ∧
  (worker_budget (H := example_collaborators) w ≤ length chunks)%nat ∧
  ∃ w', sys_workers
          (run_workers (H := example_collaborators)
             ((λ chunk, (0%nat, chunk)) <$> chunks) s) !! 0%nat = Some w' ∧
        (w_pc w' = Exited ∨ w_pc w' = Died) ∧
        ∀ t', t' ≠ 0%nat →
          sys_workers
            (run_workers (H := example_collaborators)
               ((λ chunk, (0%nat, chunk)) <$> chunks) s) !! t'
          = sys_workers s !! t'.
Proof.
  intros s w chunks.
  assert (sys_workers s !! 0%nat = Some w) as Hw by (vm_compute; reflexivity).
  assert (worker_budget (H := example_collaborators) w ≤ length chunks)%nat
    as Hb by (apply Nat.leb_le; vm_compute; reflexivity).
  split; [exact Hw|]. split; [exact Hb|].
  exact (worker_ends_within_its_budget (H := example_collaborators)
           chunks s 0 w Hw Hb).
Defined.

(** ** The loop of [index] *)

Section LoopFacts.

Context `{Collaborators}.
Hypothesis json_roundtrip : ∀ obj, json_loads (json_dumps obj) = Some obj.

Lemma process_listing_inv t names s s' :
  staging_inv s → process_listing t names s = inl s' → staging_inv s'.
Proof.
  revert s. induction names as [|name names IH]; intros s Hinv; simpl.
  - by intros [= <-].
  - destruct (merge_file t name s) as [[s1|[]]|] eqn:Hm; [|done|].
    + apply IH. by eapply merge_file_inv.
    + by apply IH.
Qed.

(** Under the invariant [process_results] returns: it has merged every
    file of the directory whose name is a number, and left alone the
    workers, the output and the other directories. *)
Lemma process_results_returns t s :
  staging_inv s →
  ∃ s', process_results t s = inl s' ∧ staging_inv s' ∧
        sys_workers s' = sys_workers s ∧ sys_stdout s' = sys_stdout s ∧
        (∀ name, PyStr.isdigit name = true → sys_files s' !! (t, name) = None) ∧
        (∀ k, sys_files s !! k = None → sys_files s' !! k = None) ∧
        (co_pdfs_done (sys_coord s) ≤ co_pdfs_done (sys_coord s'))%nat.
Proof.
  intros Hinv. unfold process_results.
  destruct (process_listing_counts json_roundtrip t
              (glob_dir (sys_files s) t) s Hinv (glob_dir_NoDup _ _))
    as (s' & saved & Hres & Hdone & _ & _ & _ & _ & Hgone & Hkeep & Hw & Hout).
  { intros name. by rewrite glob_dir_lists. }
  exists s'. split_and!; [done| |done|done| | |lia].
  - by eapply process_listing_inv.
  - intros name Hd.
    destruct (decide (name ∈ glob_dir (sys_files s) t)) as [Hin|Hnot].
    + by apply Hgone.
    + rewrite Hkeep by (right; by right).
      apply eq_None_not_Some. by rewrite <- glob_dir_lists.
  - intros [t' name] Hnone.
    destruct (decide (t' = t)) as [->|Hne]; [|by rewrite Hkeep by (by left)].
    destruct (PyStr.isdigit name) eqn:Hd;
      [|by rewrite Hkeep by (right; by left)].
    destruct (decide (name ∈ glob_dir (sys_files s) t)) as [Hin|Hnot].
    + by apply Hgone.
    + by rewrite Hkeep by (right; by right).
Qed.

Lemma run_workers_inv steps s : staging_inv s → staging_inv (run_workers steps s).
Proof.
  revert s. induction steps as [|[t chunk] steps IH]; intros s Hinv; [done|].
  rewrite run_workers_cons. apply IH.
  destruct (worker_step t chunk s) as [s1|] eqn:Hstep; [|done].
  by eapply worker_step_inv.
Qed.

Lemma run_workers_coord steps s :
  sys_coord (run_workers steps s) = sys_coord s.
Proof.
  revert s. induction steps as [|[t chunk] steps IH]; intros s; [done|].
  rewrite run_workers_cons, IH.
  destruct (worker_step t chunk s) as [s1|] eqn:Hstep; [|done]. simpl.
  unfold worker_step in Hstep.
  destruct (sys_workers s !! t) as [w|] eqn:Hw; [|done].
  by destruct (worker_step_cases t chunk s s1 w Hw) as (-> & _);
    [unfold worker_step; by rewrite Hw|].
Qed.

Lemma waitpid_inv t s : staging_inv s → staging_inv (waitpid t s).2.
Proof.
  intros Hinv. unfold waitpid.
  destruct (sys_workers s !! t) as [w|] eqn:Hw; [|done].
  destruct (w_pc w); try done.
  all: destruct Hinv as [Hpub Hwr Hrd]; split; simpl; [done| |done].
  all: intros t' w' pending [_ Hw']%lookup_delete_Some; by apply Hwr.
Qed.

Lemma waitpid_coord t s : sys_coord (waitpid t s).2 = sys_coord s.
Proof.
  unfold waitpid. destruct (sys_workers s !! t) as [w|]; [|done].
  by destruct (w_pc w).
Qed.

(** Under the invariant the polling of the children does not raise. *)
Lemma poll_pids_returns pids sched s complete :
  staging_inv s →
  ∃ s' sched' complete',
    poll_pids pids sched s complete = Some (s', sched', complete') ∧
    staging_inv s' ∧
    (co_pdfs_done (sys_coord s) ≤ co_pdfs_done (sys_coord s'))%nat.
Proof.
  revert sched s complete.
  induction pids as [|t pids IH]; intros sched s complete Hinv; simpl.
  { by eexists _, _, _. }
  pose proof (run_workers_inv (hd [] sched) s Hinv) as Hinv1.
  pose proof (run_workers_coord (hd [] sched) s) as Hc1.
  set (s1 := run_workers (hd [] sched) s) in *.
  pose proof (waitpid_inv t s1 Hinv1) as Hinv2.
  pose proof (waitpid_coord t s1) as Hc2.
  destruct (waitpid t s1) as [status s2]. simpl in Hinv2, Hc2.
  destruct (process_results_returns t s2 Hinv2)
    as (s3 & Hres & Hinv3 & _ & _ & _ & _ & Hdone).
  destruct status.
  - rewrite Hres. destruct (IH (tail sched) s3 false Hinv3)
      as (s' & sched' & complete' & -> & Hinv' & Hmono).
    eexists _, _, _. split_and!; [done..|]. rewrite <- Hc1, <- Hc2. lia.
  - rewrite Hres. destruct (IH (tail sched) s3 complete Hinv3)
      as (s' & sched' & complete' & -> & Hinv' & Hmono).
    eexists _, _, _. split_and!; [done..|]. rewrite <- Hc1, <- Hc2. lia.
  - destruct (IH (tail sched) s2 complete Hinv2)
      as (s' & sched' & complete' & -> & Hinv' & Hmono).
    eexists _, _, _. split_and!; [done..|]. rewrite <- Hc1, <- Hc2. lia.
Qed.

(** With a document merged and time elapsed, [per_item] is not zero. *)
Lemma per_minute_divisor_nonzero (elapsed : Q) (pdfs_done : nat) :
  (0 < elapsed)%Q → (0 < pdfs_done)%nat →
  Qeq_bool (elapsed / nat_to_Q pdfs_done) 0 = false.
Proof.
  intros Hpos Hdone. destruct (Qeq_bool _ _) eqn:Hq; [|done].
  apply Qeq_bool_eq in Hq.
  assert (¬ (nat_to_Q pdfs_done == 0)%Q) as Hne.
  { unfold nat_to_Q, Qeq, inject_Z. simpl. lia. }
  pose proof (Qmult_div_r elapsed (nat_to_Q pdfs_done) Hne) as Hmul.
  exfalso. apply (Qlt_not_eq _ _ Hpos). apply Qeq_sym.
  apply (Qeq_trans _ _ _ (Qeq_sym _ _ Hmul)).
  apply (Qeq_trans _ (nat_to_Q pdfs_done * 0)%Q); [|apply Qmult_0_r].
  apply Qmult_comp; [apply Qeq_refl|exact Hq].
Qed.

(** With work to do and a clock that has advanced at every reading, the
    loop neither raises nor divides by zero. *)
Lemma index_loop_safe fuel pids total_todo clock sched last_done s :
  staging_inv s → total_todo ≠ 0%nat →
  Forall (λ elapsed, (0 < elapsed)%Q) clock → (fuel ≤ length clock)%nat →
  match index_loop fuel pids total_todo clock sched last_done s with
  | Finished _ | OutOfFuel _ => True
  | ZeroDivisionError _ _ | CoordinatorRaised => False
  end.
Proof.
  intros Hinv Htotal. revert clock sched last_done s Hinv.
  induction fuel as [|fuel IH]; intros clock sched last_done s Hinv Hclock Hfuel;
    simpl; [done|].
  destruct (poll_pids_returns pids sched s true Hinv)
    as (s1 & sched1 & complete & -> & Hinv1 & _).
  destruct complete; [done|].
  destruct clock as [|elapsed clock]; [simpl in Hfuel; lia|].
  apply Forall_cons in Hclock as [Hpos Hclock]. simpl in Hfuel. simpl.
  unfold py_truediv at 1. rewrite percent_divisor_nonzero by done.
  destruct (last_done <? co_pdfs_done (sys_coord s1))%nat eqn:Hlast.
  - apply Nat.ltb_lt in Hlast.
    assert ((0 <? co_pdfs_done (sys_coord s1))%nat = true) as Hsome
      by (apply Nat.ltb_lt; lia).
    rewrite Hsome. unfold py_truediv.
    rewrite per_minute_divisor_nonzero by (done || lia).
    apply IH; [|done|lia]. by apply (staging_inv_ext s1).
  - apply IH; [done..|lia].
Qed.

End LoopFacts.

Section QuietFacts.

Context `{Collaborators}.
Hypothesis json_roundtrip : ∀ obj, json_loads (json_dumps obj) = Some obj.

Lemma run_workers_quiet steps s : quiet s → run_workers steps s = s.
Proof.
  intros Hquiet. induction steps as [|[t chunk] steps IH]; [done|].
  rewrite run_workers_cons, worker_step_ended; [done|].
  intros w. apply Hquiet.
Qed.

(** A turn of the loop that finds every child ended reaps the children it
    polls, merges what they published and keeps [threads_complete]. *)
Lemma poll_pids_quiet pids sched s complete :
  staging_inv s → quiet s →
  ∃ s' sched',
    poll_pids pids sched s complete = Some (s', sched', complete) ∧
    (∀ t, t ∈ pids → sys_workers s' !! t = None) ∧
    (∀ t, t ∉ pids → sys_workers s' !! t = sys_workers s !! t) ∧
    (∀ t name, t ∈ pids → is_Some (sys_workers s !! t) →
               PyStr.isdigit name = true → sys_files s' !! (t, name) = None) ∧
    (∀ k, sys_files s !! k = None → sys_files s' !! k = None) ∧
    sys_stdout s' = sys_stdout s.
Proof.
  revert sched s complete.
  induction pids as [|t pids IH]; intros sched s complete Hinv Hquiet; simpl.
  { exists s, sched. split_and!; try done.
    - intros t Hin. by apply elem_of_nil in Hin.
    - intros t name Hin. by apply elem_of_nil in Hin. }
  rewrite run_workers_quiet by done. unfold waitpid.
  destruct (sys_workers s !! t) as [w|] eqn:Hw.
  - pose proof (waitpid_inv t s Hinv) as Hinv2. unfold waitpid in Hinv2.
    rewrite Hw in Hinv2.
    assert (∃ s2, (match w_pc w with
                   | Exited | Died =>
                       (Reaped,
                        System (sys_files s) (delete t (sys_workers s))
                          (sys_stdout s) (sys_coord s) (sys_converts s)
                          (sys_ocr_calls s) (sys_read s))
                   | _ => (StillRunning, s)
                   end) = (Reaped, s2) ∧
                  sys_workers s2 = delete t (sys_workers s) ∧
                  sys_files s2 = sys_files s ∧
                  sys_stdout s2 = sys_stdout s) as (s2 & Hwait & Hw2 & Hf2 & Ho2).
    { destruct (Hquiet t w Hw) as [-> | ->]; by eexists. }
    rewrite Hwait in Hinv2 |- *. simpl in Hinv2.
    destruct (process_results_returns json_roundtrip t s2 Hinv2)
      as (s3 & -> & Hinv3 & Hw3 & Ho3 & Hgone & Hmono & _).
    destruct (IH (tail sched) s3 complete Hinv3)
      as (s' & sched' & -> & Hreaped & Hothers & Hmerged & Hmono' & Hout).
    { intros t' w'. rewrite Hw3, Hw2. intros [_ ?]%lookup_delete_Some.
      by eapply Hquiet. }
    exists s', sched'. split_and!; [done| | | | |congruence].
    + intros t' Hin. destruct (decide (t' ∈ pids)) as [?|Hnot]; [by apply Hreaped|].
      apply elem_of_cons in Hin as [->|?]; [|done].
      by rewrite (Hothers t Hnot), Hw3, Hw2, lookup_delete_eq.
    + intros t' [Hne Hnot]%not_elem_of_cons.
      by rewrite (Hothers t' Hnot), Hw3, Hw2, lookup_delete_ne.
    + intros t' name Hin Hchild Hd.
      destruct (decide (t' = t)) as [->|Hne]; [by apply Hmono', Hgone|].
      apply elem_of_cons in Hin as [?|Hin]; [done|].
      apply Hmerged; [done| |done]. by rewrite Hw3, Hw2, lookup_delete_ne.
    + intros k Hk. apply Hmono', Hmono. by rewrite Hf2.
  - destruct (IH (tail sched) s complete Hinv Hquiet)
      as (s' & sched' & -> & Hreaped & Hothers & Hmerged & Hmono' & Hout).
    exists s', sched'. split_and!; [done| | | |done..].
    + intros t' Hin. destruct (decide (t' ∈ pids)) as [?|Hnot]; [by apply Hreaped|].
      apply elem_of_cons in Hin as [->|?]; [|done].
      by rewrite (Hothers t Hnot).
    + intros t' [Hne Hnot]%not_elem_of_cons. by apply Hothers.
    + intros t' name Hin Hchild Hd.
      apply elem_of_cons in Hin as [->|Hin]; [|by apply Hmerged].
      rewrite Hw in Hchild. by destruct Hchild.
Qed.

(** Each child in turn is given the steps of its budget. *)
Lemma run_to_the_end (l : list (nat * list work_item)) s :
  NoDup l.*1 →
  (∀ t items, (t, items) ∈ l →
     ∃ w, sys_workers s !! t = Some w ∧
          (worker_budget w ≤ batch_budget items)%nat) →
  (∀ t, t ∈ l.*1 →
     ∃ w, sys_workers
            (run_workers
               ('(t, items) ← l; replicate (batch_budget items) (t, 0%nat)) s)
          !! t = Some w ∧ ended w) ∧
  (∀ t, t ∉ l.*1 →
     sys_workers
       (run_workers
          ('(t, items) ← l; replicate (batch_budget items) (t, 0%nat)) s) !! t
     = sys_workers s !! t).
Proof.
  revert s. induction l as [|[t items] l IH]; intros s Hnd Hbudget.
  { split; [|done]. intros t Hin. by apply elem_of_nil in Hin. }
  rewrite fmap_cons in Hnd. apply NoDup_cons in Hnd as [Hnotin Hnd].
  cbn [fst] in Hnotin. rewrite bind_cons, run_workers_app. cbv beta iota.
  destruct (Hbudget t items) as (w & Hw & Hb); [left|].
  destruct (run_worker_to_the_end (replicate (batch_budget items) 0%nat) s t w Hw)
    as (w1 & Hw1 & Hended & Hothers1); [by rewrite length_replicate|].
  rewrite fmap_replicate in Hw1, Hothers1.
  set (s1 := run_workers (replicate (batch_budget items) (t, 0%nat)) s) in *.
  destruct (IH s1 Hnd) as [Hall Hothers].
  { intros t' items' Hin.
    assert (t' ≠ t) as Hne.
    { intros ->. apply Hnotin. apply list_elem_of_fmap. by exists (t, items'). }
    rewrite (Hothers1 t' Hne). apply Hbudget. by right. }
  split.
  - intros t' Hin. rewrite fmap_cons in Hin. cbn [fst] in Hin.
    destruct (decide (t' ∈ l.*1)) as [?|Hnot]; [by apply Hall|].
    apply elem_of_cons in Hin as [->|?]; [|done].
    exists w1. by rewrite (Hothers t Hnotin).
  - intros t' Hnot. rewrite fmap_cons in Hnot. cbn [fst] in Hnot.
    apply not_elem_of_cons in Hnot as [Hne Hnot].
    by rewrite (Hothers t' Hnot), (Hothers1 t' Hne).
Qed.

Lemma steps_to_the_end_quiet (wl : workload_map) (c : coord) :
  quiet (run_workers (steps_to_the_end wl) (spawn wl c)).
Proof.
  destruct (run_to_the_end (map_to_list wl) (spawn wl c)) as [Hall Hothers].
  { apply NoDup_fst_map_to_list. }
  { intros t items Hin%elem_of_map_to_list. eexists. split.
    - simpl. by rewrite lookup_fmap, Hin.
    - done. }
  intros t w Hw. unfold steps_to_the_end in Hw.
  destruct (wl !! t) as [items|] eqn:Ht.
  - destruct (Hall t) as (w' & Hw' & Hended).
    { apply list_elem_of_fmap. exists (t, items).
      split; [done|]. by apply elem_of_map_to_list. }
    congruence.
  - rewrite Hothers in Hw.
    + simpl in Hw. by rewrite lookup_fmap, Ht in Hw.
    + intros ([t' items] & -> & Hin%elem_of_map_to_list)%list_elem_of_fmap.
      simpl in Ht. congruence.
Qed.

Lemma run_workers_keys steps s t :
  sys_workers s !! t = None → sys_workers (run_workers steps s) !! t = None.
Proof.
  revert s. induction steps as [|[t' chunk] steps IH]; intros s Hnone; [done|].
  rewrite run_workers_cons. apply IH.
  destruct (worker_step t' chunk s) as [s1|] eqn:Hstep; [|done]. simpl.
  pose proof Hstep as Hstep'. unfold worker_step in Hstep'.
  destruct (sys_workers s !! t') as [w|] eqn:Hw; [|done].
  destruct (worker_step_cases t' chunk s s1 w Hw Hstep)
    as (_ & _ & (w' & ->) & _).
  rewrite lookup_insert_ne; [done|]. intros ->. congruence.
Qed.

End QuietFacts.

Lemma poll_pids_head `{Collaborators} t rest steps sched s complete :
  poll_pids (t :: rest) (steps :: sched) s complete
  = poll_pids (t :: rest) ([] :: sched) (run_workers steps s) complete.
Proof. done. Qed.

Lemma example_clock_advances :
  Forall (λ elapsed, (0 < elapsed)%Q) example_clock.
Proof. repeat constructor. Qed.

(** X18. With a serialisation that is read back as written and a clock
    that has advanced at every reading (one reading for each turn of the
    loop), [index] raises only out of [build_workload]: the polling loop never finds a staging file it
    cannot parse and never divides by zero, neither in the percentage nor
    in the rate per minute. *)
Theorem index_raises_only_out_of_build_workload `{Collaborators}
    (fs : filesystem) (ncpu : Z) (roots pdf_files ignore : list string)
    (do_cleanup : bool) (clock : list Q) (sched : list (list (nat * nat)))
    (fuel : nat) (c : coord) :
  (∀ obj, json_loads (json_dumps obj) = Some obj) →
  Forall (λ elapsed, (0 < elapsed)%Q) clock → (fuel ≤ length clock)%nat →
  index fs ncpu roots pdf_files ignore do_cleanup clock sched fuel c
  ≠ IndexZeroDivision ∧
  (index fs ncpu roots pdf_files ignore do_cleanup clock sched fuel c
   = IndexRaised
   ↔ build_workload fs (co_database c) ncpu pdf_files = None).
Proof.
  intros Hjson Hclock Hfuel. unfold index.
  destruct (build_workload fs (co_database c) ncpu pdf_files)
    as [[wl total]|] eqn:Hbw; [|done].
  assert (match index_loop fuel (pids_of wl) total clock sched 0 (spawn wl c)
          with
          | Finished _ | OutOfFuel _ => True
          | ZeroDivisionError _ _ | CoordinatorRaised => False
          end) as Hsafe.
  { destruct (decide (total = 0%nat)) as [->|Hne].
    - apply build_workload_nothing_todo in Hbw as ->. rewrite pids_of_empty.
      by destruct fuel.
    - apply index_loop_safe; [done|apply spawn_inv|done..]. }
  destruct (index_loop fuel (pids_of wl) total clock sched 0 (spawn wl c))
    as [s|site s| |s]; [|done|done|by split].
  destruct do_cleanup; [|by split].
  destruct (cleanup_returns roots pdf_files ignore (sys_coord s))
    as [[c' out] ->].
  by split.
Qed.

Lemma index_raises_only_out_of_build_workload_witness :
  let files := ["/docs/a.pdf"; "/docs/b.pdf"; "/docs/c.pdf"] in
  Forall (λ elapsed, (0 < elapsed)%Q) example_clock ∧
  (4 ≤ length example_clock)%nat ∧
  index (H := example_collaborators) example_fs 4 ["/docs"] files [] true
    example_clock example_sched 4 example_coord
  ≠ IndexZeroDivision ∧
  (index (H := example_collaborators) example_fs 4 ["/docs"] files [] true
     example_clock example_sched 4 example_coord
   = IndexRaised
   ↔ build_workload example_fs (co_database example_coord) 4 files = None).
Proof.
  intros files.
  assert (4 ≤ length example_clock)%nat as Hfuel by (simpl; lia).
  split; [exact example_clock_advances|]. split; [exact Hfuel|].
  exact (index_raises_only_out_of_build_workload (H := example_collaborators)
           example_fs 4 ["/docs"] files [] true example_clock example_sched 4
           example_coord bits_roundtrip example_clock_advances Hfuel).
Defined.

Section PassStates.

Context `{Collaborators}.

Lemma reachable_pass_state s0 s : reachable s0 s → pass_state s0 s.
Proof.
  intros [acts Hrun]. revert s Hrun.
  induction acts as [|a acts IH] using rev_ind; intros s Hrun.
  - injection Hrun as <-. constructor.
  - assert (∃ s1, run acts s0 = Some s1 ∧ step a s1 = Some s)
      as (s1 & Hrun1 & Hstep).
    { clear IH. revert s0 Hrun. induction acts as [|b acts IH]; intros s0; simpl.
      - destruct (step a s0) as [s1|] eqn:Hstep; [|done].
        intros [= <-]. by exists s0.
      - destruct (step b s0) as [s1|]; [|done]. apply IH. }
    eapply pass_step; [by apply IH|done].
Qed.

(** The invariant of the staging area holds in every state of a pass. *)
Lemma pass_state_inv workload c s :
  pass_state (spawn workload c) s → staging_inv s.
Proof.
  induction 1 as [|a s s' _ IH Hstep|t s _ IH|out s _ IH].
  - apply spawn_inv.
  - by eapply step_inv.
  - by apply waitpid_inv.
  - by apply (staging_inv_ext s).
Qed.

Lemma run_workers_pass_state s0 steps s :
  pass_state s0 s → pass_state s0 (run_workers steps s).
Proof.
  revert s. induction steps as [|[t chunk] steps IH]; intros s Hpass; [done|].
  rewrite run_workers_cons. apply IH.
  destruct (worker_step t chunk s) as [s1|] eqn:Hstep; [|done].
  by apply (pass_step s0 (WorkerStep t chunk) s).
Qed.

Lemma process_listing_pass_state s0 t names s s' :
  pass_state s0 s → process_listing t names s = inl s' → pass_state s0 s'.
Proof.
  revert s. induction names as [|name names IH]; intros s Hpass; simpl.
  - by intros [= <-].
  - destruct (merge_file t name s) as [[s1|[]]|] eqn:Hm; [|done|by apply IH].
    apply IH. apply (pass_step s0 (MergeFile t name) s); [done|].
    simpl. by rewrite Hm.
Qed.

(** A turn of the loop leads from a state of the pass to a state of the
    pass. *)
Lemma poll_pids_pass_state s0 pids sched s complete s' sched' complete' :
  pass_state s0 s →
  poll_pids pids sched s complete = Some (s', sched', complete') →
  pass_state s0 s'.
Proof.
  revert sched s complete.
  induction pids as [|t pids IH]; intros sched s complete Hpass; simpl.
  { by intros [= <- _ _]. }
  pose proof (pass_poll s0 t _ (run_workers_pass_state s0 (hd [] sched) s Hpass))
    as Hpass2.
  destruct (waitpid t (run_workers (hd [] sched) s)) as [status s2].
  simpl in Hpass2.
  destruct status.
  - destruct (process_results t s2) as [s3|] eqn:Hres; [|done].
    apply IH. by eapply process_listing_pass_state.
  - destruct (process_results t s2) as [s3|] eqn:Hres; [|done].
    apply IH. by eapply process_listing_pass_state.
  - by apply IH.
Qed.

Lemma waitpid_quiet t s : quiet s → quiet (waitpid t s).2.
Proof.
  intros Hquiet. unfold waitpid.
  destruct (sys_workers s !! t) as [w|] eqn:Hw; [|done].
  destruct (w_pc w); simpl; try done.
  all: intros t' w' Hw'; simpl in Hw'.
  all: apply lookup_delete_Some in Hw' as [_ Hw']; by eapply Hquiet.
Qed.

End PassStates.

(** X19. In a state of a pass in which every child that is left has
    exited or died (others may have been reaped in earlier turns), with a
    serialisation that is read back as written, the next turn of the loop
    is the last one, whatever the schedule and the clock: every child the
    loop polls is reaped, every file with a number for name in the
    directory of a child that was left is merged, and no progress line is
    printed. *)
Theorem loop_ends_once_every_child_has_ended `{Collaborators}
    (wl : workload_map) (c : coord) (s : system) (fuel : nat)
    (pids : list nat) (total_todo : nat) (clock : list Q)
    (sched : list (list (nat * nat))) (last_done : nat) :
  (∀ obj, json_loads (json_dumps obj) = Some obj) →
  pass_state (spawn wl c) s →
  (∀ t w, sys_workers s !! t = Some w → w_pc w = Exited ∨ w_pc w = Died) →
  ∃ s', index_loop (S fuel) pids total_todo clock sched last_done s
        = Finished s' ∧
        pass_state (spawn wl c) s' ∧
        (∀ t, t ∈ pids → sys_workers s' !! t = None) ∧
        (∀ t name, t ∈ pids → is_Some (sys_workers s !! t) →
                   PyStr.isdigit name = true →
                   sys_files s' !! (t, name) = None) ∧
        sys_stdout s' = sys_stdout s.
Proof.
  intros Hjson Hpass Hquiet.
  pose proof (pass_state_inv _ _ _ Hpass) as Hinv.
  destruct (poll_pids_quiet Hjson pids sched s true Hinv Hquiet)
    as (s' & sched' & Hpoll & Hreaped & _ & Hmerged & _ & Hout).
  exists s'. simpl. rewrite Hpoll. split_and!; [done| |done..].
  by eapply poll_pids_pass_state.
Qed.

Lemma loop_ends_once_every_child_has_ended_witness :
  let s := example_one_reaped in
  pass_state (H := example_collaborators)
    (spawn example_workload example_coord) s ∧
  (∀ t w, sys_workers s !! t = Some w → w_pc w = Exited ∨ w_pc w = Died) ∧
  ∃ s', index_loop (H := example_collaborators) 1 [0; 1]%nat 3 example_clock
          example_sched 0 s
        = Finished s' ∧
        pass_state (H := example_collaborators)
          (spawn example_workload example_coord) s' ∧
        (∀ t, t ∈ [0; 1]%nat → sys_workers s' !! t = None) ∧
        (∀ t name, t ∈ [0; 1]%nat → is_Some (sys_workers s !! t) →
                   PyStr.isdigit name = true →
                   sys_files s' !! (t, name) = None) ∧
        sys_stdout s' = sys_stdout s.
Proof.
  intros s.
  assert (pass_state (H := example_collaborators)
            (spawn example_workload example_coord) s) as Hpass.
  { apply pass_poll, run_workers_pass_state. constructor. }
  pose proof (waitpid_quiet 0 _
                (steps_to_the_end_quiet (H := example_collaborators)
                   example_workload example_coord)) as Hquiet.
  split; [exact Hpass|]. split; [exact Hquiet|].
  exact (loop_ends_once_every_child_has_ended (H := example_collaborators)
           example_workload example_coord s 0 [0; 1]%nat 3 example_clock
           example_sched 0 bits_roundtrip Hpass Hquiet).
Defined.

(** X20. A pass returns.  With a serialisation that is read back as
    written, whenever [build_workload] returns, a schedule that lets each
    child take the steps of its budget before the first poll makes
    [index] return in its first turn, with or without [cleanup], whatever
    the converter and the OCR do on the documents; every child has been
    reaped. *)
Theorem index_returns_when_the_children_run_to_their_end `{Collaborators}
    (fs : filesystem) (ncpu : Z) (roots pdf_files ignore : list string)
    (do_cleanup : bool) (clock : list Q) (sched : list (list (nat * nat)))
    (fuel : nat) (c : coord) (wl : workload_map) (total : nat) :
  (∀ obj, json_loads (json_dumps obj) = Some obj) →
  build_workload fs (co_database c) ncpu pdf_files = Some (wl, total) →
  ∃ s, index fs ncpu roots pdf_files ignore do_cleanup clock
         (steps_to_the_end wl :: sched) (S fuel) c = IndexDone s ∧
       sys_workers s = ∅.
Proof.
  intros Hjson Hbw. unfold index. rewrite Hbw.
  assert (∃ s', index_loop (S fuel) (pids_of wl) total clock
                  (steps_to_the_end wl :: sched) 0 (spawn wl c) = Finished s' ∧
                sys_workers s' = ∅) as (s' & -> & Hnone).
  { destruct (pids_of wl) as [|pid rest] eqn:Hpids.
    - exists (spawn wl c). split; [done|]. simpl.
      apply map_empty. intros t. rewrite lookup_fmap.
      destruct (wl !! t) as [items|] eqn:Ht; [|done].
      assert (t ∈ pids_of wl) as Hin by (apply elem_of_pids_of; eauto).
      rewrite Hpids in Hin. by apply elem_of_nil in Hin.
    - cbn [index_loop]. rewrite poll_pids_head, <- Hpids.
      pose proof (steps_to_the_end_quiet wl c) as Hquiet.
      pose proof (run_workers_inv (steps_to_the_end wl) _ (spawn_inv wl c))
        as Hinv.
      destruct (poll_pids_quiet Hjson (pids_of wl) ([] :: sched) _ true
                  Hinv Hquiet)
        as (s' & sched' & -> & Hreaped & Hothers & _).
      exists s'. split; [done|]. apply map_empty. intros t.
      destruct (wl !! t) as [items|] eqn:Ht.
      + apply Hreaped, elem_of_pids_of. eauto.
      + rewrite Hothers.
        * apply run_workers_keys. simpl. by rewrite lookup_fmap, Ht.
        * rewrite elem_of_pids_of, Ht. by intros [? ?]. }
  destruct do_cleanup; [|by exists s'].
  destruct (cleanup_returns roots pdf_files ignore (sys_coord s'))
    as [[c' out] ->].
  by eexists.
Qed.

Lemma index_returns_when_the_children_run_to_their_end_witness :
  let files := ["/docs/a.pdf"; "/docs/b.pdf"; "/docs/c.pdf"] in
  let wl : workload_map :=
    {[ 0%nat := [WorkItem "/docs/b.pdf" 1700000100 200];
       1%nat := [WorkItem "/docs/c.pdf" 1700000200 300] ]} in
  build_workload example_fs (co_database example_coord) 4 files
  = Some (wl, 2%nat) ∧
  ∃ s, index (H := example_collaborators) example_fs 4 ["/docs"] files [] true
         example_clock
         (steps_to_the_end (H := example_collaborators) wl :: example_sched)
         1 example_coord = IndexDone s ∧
       sys_workers s = ∅.
Proof.
  intros files wl.
  assert (build_workload example_fs (co_database example_coord) 4 files
          = Some (wl, 2%nat)) as Hbw
    by (vm_compute; reflexivity).
  split; [exact Hbw|].
  exact (index_returns_when_the_children_run_to_their_end
           (H := example_collaborators) example_fs 4 ["/docs"] files [] true
           example_clock example_sched 0 example_coord wl 2
           bits_roundtrip Hbw).
Defined.
